(** * starlight-plugin-icons: icon resolution and safelist generation

    A shallow embedding of [lib/material-icons.ts] (the Icon Data Store and
    the Icon Resolver) and of [lib/safelist.ts] (the Content Scanner and
    Safelist Generator), followed by the properties of the specification
    that concern them.  Line numbers are those of [src/unnamed/part_000],
    which holds safelist.ts (lines 1 to 154) and then material-icons.ts
    (lines 155 to 439).

    Conventions of the embedding.
    - A JavaScript string is a [string]: the sequence of the bytes of its
      UTF-8 text.  Case mapping and the whitespace class [\s] are the ASCII
      ones; the regular expression dot excludes LF and CR.
    - [Record<string, string>] is a [gmap string string] of own properties;
      [x[k]] used as a condition is a lookup whose value is a non-empty
      string.  Properties inherited from [Object.prototype] are outside
      the model: the statements that rest on what a lookup among the
      overrides does not find are made for the keys that no object
      inherits (see [ownKeys]).
      [iconDefinitions : Record<string, unknown>] is only ever tested for
      truthiness and is the [gset] of the names it defines.
    - [null] and [undefined] results are both [None].
    - [async] code runs in the monad [Async]: a state monad over [World]
      with exceptions.  Every [await] is a bind; [Promise.all] starts its
      operands from left to right.  Reads of the file system and of the
      network can fail; [mkdir] and [writeFile] succeed.
    - The field [trace] of the world records what the code does to the
      outside (requests, writes, log lines) and, as ghost events, each
      invocation of a resolver closure. *)

From Stdlib Require Import String Ascii List Bool Arith Lia Sorted Permutation.
From stdpp Require Import base strings gmap sets list sorting.

(** * The program *)

(** ** JavaScript string primitives *)

Module Js.

(** [\s], ASCII part: TAB, LF, VT, FF, CR and space. *)
Definition isSpace (c : ascii) : bool := Ascii.is_space c.

(** The line terminators that [.] refuses. *)
Definition isLineTerminator (c : ascii) : bool :=
  match c with
  | "010" | "013" => true
  | _ => false
  end%char.

Definition lowerChar (c : ascii) : ascii :=
  let n := nat_of_ascii c in
  if (65 <=? n) && (n <=? 90) then ascii_of_nat (n + 32) else c.

Fixpoint toLowerCase (s : string) : string :=
  match s with
  | EmptyString => EmptyString
  | String c r => String (lowerChar c) (toLowerCase r)
  end.

Fixpoint trimStart (s : string) : string :=
  match s with
  | EmptyString => EmptyString
  | String c r => if isSpace c then trimStart r else s
  end.

Definition trimEnd (s : string) : string :=
  String.rev (trimStart (String.rev s)).

Definition trim (s : string) : string := trimEnd (trimStart s).

(** [s.match(/^\s*/)[0].length] *)
Fixpoint leadingSpaces (s : string) : nat :=
  match s with
  | EmptyString => 0
  | String c r => if isSpace c then S (leadingSpaces r) else 0
  end.

Definition startsWith (p s : string) : bool := String.prefix p s.

Definition endsWith (suffix s : string) : bool :=
  String.prefix (String.rev suffix) (String.rev s).

(** [s.includes(c)] for a one-character [c]. *)
Fixpoint includes (c : ascii) (s : string) : bool :=
  match s with
  | EmptyString => false
  | String d r => Ascii.eqb d c || includes c r
  end.

(** [s.substring(n)] *)
Fixpoint substring (n : nat) (s : string) : string :=
  match n, s with
  | S k, String _ r => substring k r
  | _, _ => s
  end.

(** [s.split(sep)] for a one-character separator: never the empty list. *)
Fixpoint split (sep : ascii) (s : string) : list string :=
  match s with
  | EmptyString => [EmptyString]
  | String c r =>
      if Ascii.eqb c sep then EmptyString :: split sep r
      else match split sep r with
           | h :: t => String c h :: t
           | [] => [String c EmptyString]
           end
  end.

Fixpoint join (sep : string) (parts : list string) : string :=
  match parts with
  | [] => ""
  | [x] => x
  | x :: rest => x +:+ sep +:+ join sep rest
  end.

(** [parts.pop()] read as a value: the last element, [undefined] if none. *)
Definition pop (parts : list string) : option string := last parts.

(** [s.replace(/c/g, d)] *)
Fixpoint replaceAll (c d : ascii) (s : string) : string :=
  match s with
  | EmptyString => EmptyString
  | String x r => String (if Ascii.eqb x c then d else x) (replaceAll c d r)
  end.

(** [s.replace(/c/g, '')] *)
Fixpoint removeAll (c : ascii) (s : string) : string :=
  match s with
  | EmptyString => EmptyString
  | String x r => if Ascii.eqb x c then removeAll c r else String x (removeAll c r)
  end.

Definition isSeparator (c : ascii) : bool :=
  match c with
  | "/" | "\" => true
  | _ => false
  end%char.

Fixpoint dropSeparators (s : string) : string :=
  match s with
  | EmptyString => EmptyString
  | String c r => if isSeparator c then dropSeparators r else s
  end.

(** [s.replace(/[\\/]+$/, '')] *)
Definition stripTrailingSeparators (s : string) : string :=
  String.rev (dropSeparators (String.rev s)).

Fixpoint noLineTerminator (s : string) : bool :=
  match s with
  | EmptyString => true
  | String c r => negb (isLineTerminator c) && noLineTerminator r
  end.

(** [s.replace(/^m(.+)m$/, '$1')] for a literal marker [m]: the text
    between the two markers when [s] starts and ends with [m] around at
    least one character, none of them a line terminator. *)
Definition unwrap (m s : string) : string :=
  let inner :=
    String.substring (String.length m)
      (String.length s - 2 * String.length m) s in
  if (2 * String.length m <? String.length s)
     && startsWith m s && endsWith m s && noLineTerminator inner
  then inner else s.

(** Truthiness of a string, and of [string | undefined]. *)
Definition truthy (s : string) : bool := negb (String.eqb s "").

Definition supplied (s : option string) : bool :=
  match s with
  | Some v => truthy v
  | None => false
  end.

(** [m[k]] used as a condition and then as a value, for the own
    properties of [m]. *)
Definition get (m : gmap string string) (k : string) : option string :=
  match m !! k with
  | Some v => if truthy v then Some v else None
  | None => None
  end.

End Js.

(** ** Data model *)

Module LanguageMap.
Record t := { fileExtensions : gmap string string }.
End LanguageMap.

Record MaterialIcons := {
  iconDefinitions : gset string;
  fileExtensions : gmap string string;
  fileNames : gmap string string;
  folderNames : gmap string string;
  folderNamesExpanded : gmap string string;
  languageIds : gmap string string }.

Record MaterialIconsData := {
  languageMap : LanguageMap.t;
  materialIcons : MaterialIcons }.

Definition VERSION_URL : string :=
  "https://raw.githubusercontent.com/Rettend/github-material-icon-theme/main/download/version.txt".

Definition LANGUAGE_MAP_URL : string :=
  "https://raw.githubusercontent.com/Rettend/github-material-icon-theme/main/download/language-map.json".

Definition MATERIAL_ICONS_URL : string :=
  "https://raw.githubusercontent.com/Rettend/github-material-icon-theme/main/download/material-icons.json".

(** What the remote source answers: for each address the body of an [ok]
    response, read as text or parsed as the JSON document the caller asks
    for; [None] when the request is rejected, the response is not [ok] or
    the body does not parse. *)
Record Network := {
  text : string -> option string;
  jsonLanguageMap : string -> option LanguageMap.t;
  jsonMaterialIcons : string -> option MaterialIcons }.

(** The files the code reads and writes, all under [process.cwd()], which
    is also the [rootDir] its only caller passes to [generateSafelist]. *)
Record Disk := {
  (** contents of the files [globSync] finds under [src/content] *)
  contentFiles : list string;
  (** readable [astro.config.*] files, by name *)
  configFiles : gmap string string;
  (** [.starlight-icons/version.txt] *)
  versionFile : option string;
  (** [.starlight-icons/language-map.json], when it reads and parses *)
  languageMapFile : option LanguageMap.t;
  (** [.starlight-icons/material-icons.json], when it reads and parses *)
  materialIconsFile : option MaterialIcons;
  (** [.starlight-icons/safelist.json] *)
  safelistFile : option string }.

Inductive Error :=
  | FetchFailed (url : string)
  | ENOENT (path : string).

Inductive Message :=
  | NoContentFiles
  | SafelistUpToDate
  | SafelistGenerated (size : nat)
  | FetchingData
  | FetchWarning (e : Error).

Inductive Event :=
  | Fetch (url : string)
  | Mkdir (path : string)
  | WriteFile (path : string)
  | Log (m : Message)
  | CallResolveIcon (fileName language : option string)
  | CallResolveFolderIcon (folderName : string) (isOpen : bool).

Record World := {
  (** [let cachedData] of material-icons.ts *)
  cachedData : option MaterialIconsData;
  (** [let customFileIconsMap] of material-icons.ts *)
  customFileIconsMap : option (gmap string string);
  (** [globalThis.__spiCustomFileIcons] *)
  spiCustomFileIcons : option (gmap string string);
  network : Network;
  disk : Disk;
  trace : list Event }.

Definition withCachedData (d : option MaterialIconsData) (w : World) : World :=
  {| cachedData := d;
     customFileIconsMap := customFileIconsMap w;
     spiCustomFileIcons := spiCustomFileIcons w;
     network := network w; disk := disk w; trace := trace w |}.

Definition withCustom (m g : option (gmap string string)) (w : World) : World :=
  {| cachedData := cachedData w;
     customFileIconsMap := m;
     spiCustomFileIcons := g;
     network := network w; disk := disk w; trace := trace w |}.

Definition withDisk (d : Disk) (w : World) : World :=
  {| cachedData := cachedData w;
     customFileIconsMap := customFileIconsMap w;
     spiCustomFileIcons := spiCustomFileIcons w;
     network := network w; disk := d; trace := trace w |}.

Definition withTrace (t : list Event) (w : World) : World :=
  {| cachedData := cachedData w;
     customFileIconsMap := customFileIconsMap w;
     spiCustomFileIcons := spiCustomFileIcons w;
     network := network w; disk := disk w; trace := t |}.

Definition withVersionFile (v : option string) (d : Disk) : Disk :=
  {| contentFiles := contentFiles d; configFiles := configFiles d;
     versionFile := v;
     languageMapFile := languageMapFile d;
     materialIconsFile := materialIconsFile d;
     safelistFile := safelistFile d |}.

Definition withTableFiles (l : option LanguageMap.t) (m : option MaterialIcons)
    (d : Disk) : Disk :=
  {| contentFiles := contentFiles d; configFiles := configFiles d;
     versionFile := versionFile d;
     languageMapFile := l;
     materialIconsFile := m;
     safelistFile := safelistFile d |}.

Definition withSafelistFile (s : option string) (d : Disk) : Disk :=
  {| contentFiles := contentFiles d; configFiles := configFiles d;
     versionFile := versionFile d;
     languageMapFile := languageMapFile d;
     materialIconsFile := materialIconsFile d;
     safelistFile := s |}.

(** ** The monad of asynchronous code *)

Inductive Outcome (A : Type) :=
  | Returned (a : A)
  | Threw (e : Error).

Arguments Returned {A} a.

Arguments Threw {A} e.

Definition Async (A : Type) : Type := World -> Outcome A * World.

Definition ret {A} (a : A) : Async A := fun w => (Returned a, w).

Definition throw {A} (e : Error) : Async A := fun w => (Threw e, w).

Definition bind {A B} (c : Async A) (k : A -> Async B) : Async B :=
  fun w =>
    match c w with
    | (Returned a, w') => k a w'
    | (Threw e, w') => (Threw e, w')
    end.

(** [try { c } catch (e) { h(e) }] *)
Definition tryCatch {A} (c : Async A) (h : Error -> Async A) : Async A :=
  fun w =>
    match c w with
    | (Returned a, w') => (Returned a, w')
    | (Threw e, w') => h e w'
    end.

(** [Promise.all([a, b])]: both operands are started, [a] first; the result
    is rejected when one of them is. *)
Definition PromiseAll {A B} (a : Async A) (b : Async B) : Async (A * B) :=
  fun w =>
    match a w with
    | (ra, w1) =>
        match b w1 with
        | (rb, w2) =>
            match ra, rb with
            | Returned x, Returned y => (Returned (x, y), w2)
            | Threw e, _ => (Threw e, w2)
            | _, Threw e => (Threw e, w2)
            end
        end
    end.

Definition read {A} (f : World -> A) : Async A := fun w => (Returned (f w), w).

Definition update (f : World -> World) : Async unit :=
  fun w => (Returned tt, f w).

Definition emit (e : Event) : Async unit :=
  update (fun w => withTrace (trace w ++ [e]) w).

Notation "'let!' x ':=' c 'in' k" := (bind c (fun x => k))
  (at level 10, x pattern, c at level 100, k at level 200).

Notation "c ';;;' k" := (bind c (fun _ => k))
  (at level 100, k at level 200, right associativity).

(** ** Icon Data Store (material-icons.ts, lines 155 to 288) *)

Definition CACHE_DIR : string := ".starlight-icons".

Definition setCustomFileIcons (map : option (gmap string string)) : Async unit :=
  update (withCustom map map).

Definition getCustomFileIcons : Async (option (gmap string string)) :=
  read (fun w =>
          match customFileIconsMap w with
          | Some m => Some m
          | None => spiCustomFileIcons w
          end).

Definition ensureCacheDir : Async unit :=
  tryCatch (emit (Mkdir CACHE_DIR)) (fun _ => ret tt).

Class Json (T : Type) := served : Network -> string -> option T.

#[export] Instance Json_LanguageMap : Json LanguageMap.t := jsonLanguageMap.

#[export] Instance Json_MaterialIcons : Json MaterialIcons := jsonMaterialIcons.

Definition fetchJson {T} `{Json T} (url : string) : Async T :=
  emit (Fetch url) ;;;
  let! response := read (fun w => served (network w) url) in
  match response with
  | Some v => ret v
  | None => throw (FetchFailed url)
  end.

Definition fetchText (url : string) : Async string :=
  emit (Fetch url) ;;;
  let! response := read (fun w => text (network w) url) in
  match response with
  | Some v => ret v
  | None => throw (FetchFailed url)
  end.

(** [fs.readFile] of a file whose content, when readable, is [content]. *)
Definition readFile {T} (path : string) (content : Disk -> option T) : Async T :=
  let! r := read (fun w => content (disk w)) in
  match r with
  | Some v => ret v
  | None => throw (ENOENT path)
  end.

Definition writeFile (path : string) (store : Disk -> Disk) : Async unit :=
  emit (WriteFile path) ;;;
  update (fun w => withDisk (store (disk w)) w).

Definition getCachedVersion : Async (option string) :=
  tryCatch
    (let versionFile_ := CACHE_DIR +:+ "/version.txt" in
     let! v := readFile versionFile_ versionFile in
     ret (Some v))
    (fun _ => ret None).

Definition setCachedVersion (version : string) : Async unit :=
  ensureCacheDir ;;;
  let versionFile_ := CACHE_DIR +:+ "/version.txt" in
  writeFile versionFile_ (withVersionFile (Some version)).

Definition getCachedData : Async (option MaterialIconsData) :=
  tryCatch
    (let languageMapFile_ := CACHE_DIR +:+ "/language-map.json" in
     let materialIconsFile_ := CACHE_DIR +:+ "/material-icons.json" in
     let! (languageMap_, materialIcons_) :=
       PromiseAll (readFile languageMapFile_ languageMapFile)
                  (readFile materialIconsFile_ materialIconsFile) in
     ret (Some {| languageMap := languageMap_; materialIcons := materialIcons_ |}))
    (fun _ => ret None).

Definition setCachedData (data : MaterialIconsData) : Async unit :=
  ensureCacheDir ;;;
  let languageMapFile_ := CACHE_DIR +:+ "/language-map.json" in
  let materialIconsFile_ := CACHE_DIR +:+ "/material-icons.json" in
  let! _ :=
    PromiseAll
      (writeFile languageMapFile_
         (fun d => withTableFiles (Some (languageMap data)) (materialIconsFile d) d))
      (writeFile materialIconsFile_
         (fun d => withTableFiles (languageMapFile d) (Some (materialIcons data)) d)) in
  ret tt.

Definition getMaterialIconsData : Async (option MaterialIconsData) :=
  let! cached := read cachedData in
  match cached with
  | Some d => ret (Some d)
  | None =>
      tryCatch
        (let! (currentVersion, cachedVersion) :=
           PromiseAll (let! v := fetchText VERSION_URL in ret (Js.trim v))
                      getCachedVersion in
         let! data :=
           if decide (Some currentVersion = cachedVersion)
           then getCachedData else ret None in
         let! data :=
           match data with
           | Some d => ret d
           | None =>
               emit (Log FetchingData) ;;;
               let! (languageMap_, materialIcons_) :=
                 PromiseAll (fetchJson LANGUAGE_MAP_URL)
                            (fetchJson MATERIAL_ICONS_URL) in
               let d := {| languageMap := languageMap_;
                           materialIcons := materialIcons_ |} in
               let! _ := PromiseAll (setCachedData d)
                                    (setCachedVersion currentVersion) in
               ret d
           end in
         update (withCachedData (Some data)) ;;;
         ret (Some data))
        (fun error => emit (Log (FetchWarning error)) ;;; ret None)
  end.

(** ** Icon Resolver (material-icons.ts, lines 290 to 421) *)

Definition DOCUMENT : string := "i-material-icon-theme:document".

Definition SVELTE_JS : string := "i-starlight-plugin-icons:svelte-js".

Definition SVELTE_TS : string := "i-starlight-plugin-icons:svelte-ts".

Definition FOLDER : string := "i-starlight-plugin-icons:folder".

Definition FOLDER_OPEN : string := "i-starlight-plugin-icons:folder-open".

(** [`i-material-icon-theme:${iconName.replace(/_/g, '-')}`] *)
Definition materialClass (iconName : string) : string :=
  "i-material-icon-theme:" +:+ Js.replaceAll "_" "-" iconName.

(** [iconName && materialIcons.iconDefinitions[iconName]], then the class. *)
Definition definedClass (materialIcons : MaterialIcons)
    (iconName : option string) : option string :=
  match iconName with
  | Some name =>
      if bool_decide (name ∈ iconDefinitions materialIcons)
      then Some (materialClass name) else None
  | None => None
  end.

Definition resolveFolderIcon (folderName : string) (isOpen : bool)
    : Async (option string) :=
  emit (CallResolveFolderIcon folderName isOpen) ;;;
  let lowerFolderName :=
    Js.toLowerCase (Js.stripTrailingSeparators (Js.trim folderName)) in
  let! customIcons := getCustomFileIcons in
  let custom :=
    match customIcons with
    | Some icons =>
        let prefix := if isOpen then "folder-open" else "folder" in
        let key := prefix +:+ ":" +:+ lowerFolderName in
        Js.get icons key
    | None => None
    end in
  match custom with
  | Some icon => ret (Some icon)
  | None =>
      let! data := getMaterialIconsData in
      match data with
      | None => ret None
      | Some data =>
          let materialIcons_ := materialIcons data in
          let iconName :=
            if isOpen
            then Js.get (folderNamesExpanded materialIcons_) lowerFolderName
            else Js.get (folderNames materialIcons_) lowerFolderName in
          match definedClass materialIcons_ iconName with
          | Some class => ret (Some class)
          | None => ret (Some (if isOpen then FOLDER_OPEN else FOLDER))
          end
      end
  end.

Definition justFileName (fileName : string) : string :=
  if Js.includes "/" fileName
  then default "" (Js.pop (Js.split "/" fileName))
  else fileName.

Definition lowerFileName (fileName : string) : string :=
  Js.toLowerCase (justFileName fileName).

(** [lowerFileName.split('.').slice(1).join('.')] *)
Definition longExtension (lower : string) : string :=
  Js.join "." (drop 1 (Js.split "." lower)).

(** [lowerFileName.split('.').pop() || ''] *)
Definition shortExtension (lower : string) : string :=
  default "" (Js.pop (Js.split "." lower)).

Definition overrideKeys (fileName : string) : list string :=
  let lower := lowerFileName fileName in
  [lower; longExtension lower; shortExtension lower].

(** The loop over the three keys: the first non-empty key with a non-empty
    value decides. *)
Fixpoint firstOverride (customIcons : gmap string string) (keys : list string)
    : option string :=
  match keys with
  | [] => None
  | key :: rest =>
      if Js.truthy key then
        match Js.get customIcons key with
        | Some icon => Some icon
        | None => firstOverride customIcons rest
        end
      else firstOverride customIcons rest
  end.

(** The guard [fileName && customIcons] and the loop under it. *)
Definition customIcon (customIcons : option (gmap string string))
    (fileName : option string) : option string :=
  match fileName, customIcons with
  | Some name, Some icons =>
      if Js.truthy name then firstOverride icons (overrideKeys name) else None
  | _, _ => None
  end.

Fixpoint getIconClass (materialIcons : MaterialIcons)
    (pairs : list (string * option (gmap string string))) : option string :=
  match pairs with
  | [] => None
  | (key, lookup) :: rest =>
      match lookup with
      | Some table =>
          match definedClass materialIcons (Js.get table key) with
          | Some class => Some class
          | None => getIconClass materialIcons rest
          end
      | None => getIconClass materialIcons rest
      end
  end.

(** The probes of a truthy file name: the four table pairs, then the
    dot-prefixed retry. *)
Definition fileProbes (data : MaterialIconsData) (fileName : string)
    : option string :=
  let materialIcons_ := materialIcons data in
  let lower := lowerFileName fileName in
  let pairs :=
    [ (lower, Some (fileNames materialIcons_));
      (longExtension lower, Some (fileExtensions materialIcons_));
      (shortExtension lower, Some (fileExtensions materialIcons_));
      (shortExtension lower, Some (LanguageMap.fileExtensions (languageMap data))) ] in
  match getIconClass materialIcons_ pairs with
  | Some class => Some class
  | None =>
      if negb (Js.startsWith "." lower) then
        let dotPrefixed := "." +:+ lower in
        definedClass materialIcons_ (Js.get (fileNames materialIcons_) dotPrefixed)
      else None
  end.

Definition languageProbe (data : MaterialIconsData) (language : option string)
    : option string :=
  match language with
  | Some id =>
      if Js.truthy id
      then definedClass (materialIcons data) (Js.get (languageIds (materialIcons data)) id)
      else None
  | None => None
  end.

Definition svelteSpecial (fileName : option string) : option string :=
  match fileName with
  | Some name =>
      if Js.endsWith ".svelte.js" name then Some SVELTE_JS
      else if Js.endsWith ".svelte.ts" name then Some SVELTE_TS
      else None
  | None => None
  end.

(** The body of [resolveIcon] once the data is there (lines 359 to 419). *)
Definition resolveWithData (data : MaterialIconsData)
    (fileName language : option string) : option string :=
  if negb (Js.supplied fileName) && negb (Js.supplied language) then None
  else
    match svelteSpecial fileName with
    | Some class => Some class
    | None =>
        let byFile :=
          match fileName with
          | Some name => if Js.truthy name then fileProbes data name else None
          | None => None
          end in
        match byFile with
        | Some class => Some class
        | None =>
            match languageProbe data language with
            | Some class => Some class
            | None => Some DOCUMENT
            end
        end
    end.

Definition resolveIcon (fileName language : option string)
    : Async (option string) :=
  emit (CallResolveIcon fileName language) ;;;
  let! customIcons := getCustomFileIcons in
  match customIcon customIcons fileName with
  | Some icon => ret (Some icon)
  | None =>
      let! data := getMaterialIconsData in
      match data with
      | None => ret None
      | Some data => ret (resolveWithData data fileName language)
      end
  end.

Record IconDetails := {
  iconClass : option string;
  language : option string }.

Definition getIconDetails (title language_ : option string)
    : Async (option IconDetails) :=
  if decide (language_ = Some "sh") then ret None
  else
    let resolver := resolveIcon title language_ in
    let! iconClass_ := resolver in
    ret (Some {| iconClass := iconClass_; language := language_ |}).

(** ** The three regular expressions of safelist.ts (lines 7 to 9)

    Each matcher returns what [matchAll] (or [match] with the [g] flag)
    yields on the text, from left to right, the search resuming where the
    previous match ended.  The fuel is the length of the text: every match
    consumes at least one character. *)

Module Regex.

Definition QUOTE : ascii := "034".

Definition LF : ascii := "010".

Definition isLetter (c : ascii) : bool :=
  let n := nat_of_ascii c in
  ((65 <=? n) && (n <=? 90)) || ((97 <=? n) && (n <=? 122)).

Definition isDigit (c : ascii) : bool :=
  let n := nat_of_ascii c in (48 <=? n) && (n <=? 57).

(** [\w] *)
Definition isWord (c : ascii) : bool :=
  isLetter c || isDigit c || Ascii.eqb c "_".

(** The longest prefix of characters in the class, and what follows. *)
Fixpoint span (p : ascii -> bool) (s : string) : string * string :=
  match s with
  | EmptyString => (EmptyString, EmptyString)
  | String c r =>
      if p c then let (a, b) := span p r in (String c a, b)
      else (EmptyString, s)
  end.

(** [[^\n]*?title=Q([^Q]+)Q], with Q the double quote, matched at the
    start of [s]: the title and the text after its closing quote. *)
Fixpoint lazyTitle (s : string) : option (string * string) :=
  let here :=
    if Js.startsWith ("title=" +:+ String QUOTE "") s then
      match span (fun c => negb (Ascii.eqb c QUOTE)) (Js.substring 7 s) with
      | (String c t, String _ rest) => Some (String c t, rest)
      | _ => None
      end
    else None in
  match here with
  | Some found => Some found
  | None =>
      match s with
      | EmptyString => None
      | String c r => if Ascii.eqb c LF then None else lazyTitle r
      end
  end.

Record CodeBlock := { lang : option string; title : option string }.

(** The optional group [lang] at the start of [s], a letter and then the
    longest run of word characters, and the text after it. *)
Definition langAt (s : string) : option string * string :=
  match s with
  | String c _ =>
      if isLetter c then let (l, r) := span isWord s in (Some l, r)
      else (None, s)
  | EmptyString => (None, s)
  end.

(** What follows the opening fence in [codeBlockRegex]: the optional
    group [lang] (a letter, then the longest run of word characters) and
    the optional title part (one whitespace character, then the pattern
    of [lazyTitle]).  Both options are greedy, and the expression ends
    there, so the language tag is never shortened. *)
Definition codeBlockAt (s : string) : CodeBlock * string :=
  let (lang_, afterLang) := langAt s in
  let untitled := ({| lang := lang_; title := None |}, afterLang) in
  match afterLang with
  | String c r =>
      if Js.isSpace c then
        match lazyTitle r with
        | Some (t, rest) => ({| lang := lang_; title := Some t |}, rest)
        | None => untitled
        end
      else untitled
  | EmptyString => untitled
  end.

Fixpoint codeBlocksFrom (fuel : nat) (s : string) : list CodeBlock :=
  match fuel, s with
  | S fuel', String _ r =>
      if Js.startsWith "```" s then
        let (m, rest) := codeBlockAt (Js.substring 3 s) in
        m :: codeBlocksFrom fuel' rest
      else codeBlocksFrom fuel' r
  | _, _ => []
  end.

(** [content.matchAll(codeBlockRegex)] *)
Definition codeBlockRegex (content : string) : list CodeBlock :=
  codeBlocksFrom (String.length content) content.

(** [([\s\S]*?)<\/FileTree>]: the shortest text up to a closing tag, and
    what follows the tag. *)
Fixpoint untilClose (s : string) : option (string * string) :=
  if Js.startsWith "</FileTree>" s then Some (EmptyString, Js.substring 11 s)
  else
    match s with
    | EmptyString => None
    | String c r =>
        match untilClose r with
        | Some (body, rest) => Some (String c body, rest)
        | None => None
        end
    end.

Fixpoint fileTreesFrom (fuel : nat) (s : string) : list string :=
  match fuel, s with
  | S fuel', String _ r =>
      if Js.startsWith "<FileTree>" s then
        match untilClose (Js.substring 10 s) with
        | Some (body, rest) => body :: fileTreesFrom fuel' rest
        | None => fileTreesFrom fuel' r
        end
      else fileTreesFrom fuel' r
  | _, _ => []
  end.

(** The first capture group of each match of [fileTreeRegex]. *)
Definition fileTreeRegex (content : string) : list string :=
  fileTreesFrom (String.length content) content.

(** [[a-z0-9-]] under the [i] flag *)
Definition isClassHead (c : ascii) : bool :=
  isLetter c || isDigit c || Ascii.eqb c "-".

(** [[a-z0-9-:./]] under the [i] flag *)
Definition isClassTail (c : ascii) : bool :=
  isClassHead c || Ascii.eqb c ":" || Ascii.eqb c "." || Ascii.eqb c "/".

(** [i-[a-z0-9-]+:[a-z0-9-:./]+] matched at the start of [s]. *)
Definition iconClassAt (s : string) : option (string * string) :=
  match s with
  | String i (String dash r) =>
      if Ascii.eqb (Js.lowerChar i) "i" && Ascii.eqb dash "-" then
        match span isClassHead r with
        | (String h hs, String colon r') =>
            if Ascii.eqb colon ":" then
              match span isClassTail r' with
              | (String t ts, rest) =>
                  Some (String i (String dash
                          (String h hs +:+ ":" +:+ String t ts)), rest)
              | _ => None
              end
            else None
        | _ => None
        end
      else None
  | _ => None
  end.

Fixpoint iconClassesFrom (fuel : nat) (s : string) : list string :=
  match fuel, s with
  | S fuel', String _ r =>
      match iconClassAt s with
      | Some (m, rest) => m :: iconClassesFrom fuel' rest
      | None => iconClassesFrom fuel' r
      end
  | _, _ => []
  end.

(** [source.match(iconClassRegex) || []] *)
Definition iconClassRegex (source : string) : list string :=
  iconClassesFrom (String.length source) source.

End Regex.

Definition quoted (s : string) : string :=
  String Regex.QUOTE s +:+ String Regex.QUOTE "".

(** ** [JSON.stringify(list, null, 2)] and [Array.prototype.sort] *)

Module JSON.

Definition hexDigit (n : nat) : ascii :=
  if n <? 10 then ascii_of_nat (48 + n) else ascii_of_nat (87 + n).

Definition BACKSLASH : ascii := "092".

(** QuoteJSONString, one character at a time. *)
Definition escape (c : ascii) : string :=
  let n := nat_of_ascii c in
  if Ascii.eqb c Regex.QUOTE then String BACKSLASH (String Regex.QUOTE "")
  else if Ascii.eqb c BACKSLASH then String BACKSLASH (String BACKSLASH "")
  else if n =? 8 then String BACKSLASH "b"
  else if n =? 9 then String BACKSLASH "t"
  else if n =? 10 then String BACKSLASH "n"
  else if n =? 12 then String BACKSLASH "f"
  else if n =? 13 then String BACKSLASH "r"
  else if n <? 32 then
    String BACKSLASH
      (String "u" (String "0" (String "0"
         (String (hexDigit (n / 16)) (String (hexDigit (n mod 16)) "")))))
  else String c "".

Fixpoint escapeAll (s : string) : string :=
  match s with
  | EmptyString => EmptyString
  | String c r => escape c +:+ escapeAll r
  end.

Definition quote (s : string) : string :=
  String Regex.QUOTE (escapeAll s) +:+ String Regex.QUOTE "".

Definition NEWLINE : string := String Regex.LF "".

(** An array of strings, pretty-printed with an indentation of two. *)
Definition stringify (items : list string) : string :=
  match items with
  | [] => "[]"
  | _ =>
      "[" +:+ NEWLINE +:+ "  "
      +:+ Js.join ("," +:+ NEWLINE +:+ "  ") (map quote items)
      +:+ NEWLINE +:+ "]"
  end.

End JSON.

(** The default comparison of [sort] orders strings by their code units.
    The elements sorted below are pairwise distinct, so the result does not
    depend on the sorting algorithm. *)
Definition sort (items : list string) : list string :=
  merge_sort String.le items.

(** ** Content Scanner and Safelist Generator (safelist.ts) *)

Record Line := { indentation : nat; content : string }.

(** [fileTreeContent.trim().split('\n').map(...)] (lines 43 to 49) *)
Definition parseLines (fileTreeContent : string) : list Line :=
  map (fun line => {| indentation := Js.leadingSpaces line;
                      content := Js.trim line |})
      (Js.split Regex.LF (Js.trim fileTreeContent)).

(** Lines 147 to 154. *)
Definition normalizeFileTreeEntry (input : string) : string :=
  let name := Js.trim (Js.removeAll "`" input) in
  let name := Js.unwrap "**" name in
  let name := Js.unwrap "__" name in
  let name := Js.unwrap "*" name in
  let name := Js.unwrap "_" name in
  name.

(** The two placeholders of line 59: three dots, and the three characters
    that the UTF-8 bytes of the ellipsis give when read as Windows-1252. *)
Definition ELLIPSES : list string := ["..."; "â€¦"].

(** [line.content.substring(2).split(' ')[0] ?? ''], then normalised. *)
Definition entryNameOf (line : Line) : string :=
  let rawEntry := default "" (head (Js.split " " (Js.substring 2 (content line)))) in
  normalizeFileTreeEntry rawEntry.

(** The two [continue] guards of the loop (lines 53 and 59). *)
Definition skipped (line : Line) : bool :=
  negb (Js.startsWith "- " (content line))
  || negb (Js.truthy (entryNameOf line))
  || bool_decide (entryNameOf line ∈ ELLIPSES).

(** Lines 63 to 66. *)
Definition isDirectory (entryName : string) (line : Line)
    (nextLine : option Line) : bool :=
  Js.endsWith "/" entryName
  || match nextLine with
     | Some next => indentation line <? indentation next
     | None => false
     end.

(** [if (icon) usedIcons.add(icon)] *)
Definition addIcon (icon : option string) (usedIcons : gset string)
    : gset string :=
  match icon with
  | Some class => if Js.truthy class then {[class]} ∪ usedIcons else usedIcons
  | None => usedIcons
  end.

Definition scanDirectory (entryName : string) (usedIcons : gset string)
    : Async (gset string) :=
  let folderName := Js.stripTrailingSeparators (Js.trim entryName) in
  let! (closedIcon, openIcon) :=
    PromiseAll (resolveFolderIcon folderName false)
               (resolveFolderIcon folderName true) in
  ret (addIcon openIcon (addIcon closedIcon usedIcons)).

Definition scanFileEntry (entryName : string) (usedIcons : gset string)
    : Async (gset string) :=
  let! iconClass_ := resolveIcon (Some entryName) None in
  ret (addIcon iconClass_ usedIcons).

(** One iteration of the loop over the lines (lines 51 to 87). *)
Definition scanLine (lines : list Line) (i : nat) (usedIcons : gset string)
    : Async (gset string) :=
  match lines !! i with
  | None => ret usedIcons
  | Some line =>
      if skipped line then ret usedIcons
      else
        let entryName := entryNameOf line in
        let nextLine := lines !! (i + 1) in
        if isDirectory entryName line nextLine
        then scanDirectory entryName usedIcons
        else scanFileEntry entryName usedIcons
  end.

(** [for (const x of items) acc = await step(x, acc)] *)
Fixpoint forEach {A S} (step : A -> S -> Async S) (items : list A) (acc : S)
    : Async S :=
  match items with
  | [] => ret acc
  | x :: rest => let! acc' := step x acc in forEach step rest acc'
  end.

Definition scanFileTree (fileTreeContent : string) (usedIcons : gset string)
    : Async (gset string) :=
  if negb (Js.truthy fileTreeContent) then ret usedIcons
  else
    let lines := parseLines fileTreeContent in
    forEach (scanLine lines) (seq 0 (length lines)) usedIcons.

(** Lines 27 to 33. *)
Definition scanCodeBlock (m : Regex.CodeBlock) (usedIcons : gset string)
    : Async (gset string) :=
  let! iconDetails := getIconDetails (Regex.title m) (Regex.lang m) in
  match iconDetails with
  | Some details => ret (addIcon (iconClass details) usedIcons)
  | None => ret usedIcons
  end.

(** The body of the loop over the content files (lines 22 to 89). *)
Definition scanContent (content_ : string) (usedIcons : gset string)
    : Async (gset string) :=
  let! usedIcons := forEach scanCodeBlock (Regex.codeBlockRegex content_) usedIcons in
  forEach scanFileTree (Regex.fileTreeRegex content_) usedIcons.

Definition astroConfigs : list string :=
  [ "astro.config.mjs"; "astro.config.js"; "astro.config.ts";
    "astro.config.mts"; "astro.config.cjs"; "astro.config.cts" ].

(** Lines 100 to 109. *)
Definition scanConfig (cfg : string) (usedIcons : gset string)
    : Async (gset string) :=
  tryCatch
    (let! source := readFile cfg (fun d => configFiles d !! cfg) in
     let matches := Regex.iconClassRegex source in
     ret (list_to_set matches ∪ usedIcons))
    (fun _ => ret usedIcons).

Definition safelistPath : string := CACHE_DIR +:+ "/safelist.json".

(** The icon classes in use (lines 12 to 115). *)
Definition collectIcons (customFileIcons : option (gmap string string))
    : Async (gset string) :=
  let! files := read (fun w => contentFiles (disk w)) in
  (if decide (length files = 0) then emit (Log NoContentFiles) else ret tt) ;;;
  let! usedIcons := forEach scanContent files ∅ in
  let! usedIcons := forEach scanConfig astroConfigs usedIcons in
  ret match customFileIcons with
      | Some icons => list_to_set (map snd (map_to_list icons)) ∪ usedIcons
      | None => usedIcons
      end.

(** Compare with the persisted file and write if needed (lines 117 to 139). *)
Definition persist (usedIcons : gset string) : Async bool :=
  let newSafelist := sort (elements usedIcons) in
  let newSafelistJSON := JSON.stringify newSafelist in
  let! returned :=
    tryCatch
      (let! currentSafelist := readFile safelistPath safelistFile in
       if decide (currentSafelist = newSafelistJSON)
       then emit (Log SafelistUpToDate) ;;; ret (Some false)
       else ret None)
      (fun _ =>
         if decide (length newSafelist = 0) then ret (Some false)
         else ret None) in
  match returned with
  | Some result => ret result
  | None =>
      emit (Mkdir CACHE_DIR) ;;;
      writeFile safelistPath (withSafelistFile (Some newSafelistJSON)) ;;;
      emit (Log (SafelistGenerated (size usedIcons))) ;;;
      ret true
  end.

Definition generateSafelist (customFileIcons : option (gmap string string))
    : Async bool :=
  let! usedIcons := collectIcons customFileIcons in
  persist usedIcons.

(** ** The build hook (index.ts, lines 55 to 71) *)

(** The options after [StarlightIconsOptionsSchema.parse] (types.ts): the
    three switches with their default [false] filled in, and the optional
    override map. *)
Module StarlightIconsOptions.
Record t := {
  sidebar : bool;
  extractSafelist : bool;
  codeblock : bool;
  customFileIcons : option (gmap string string) }.
End StarlightIconsOptions.

(** The [astro:config:setup] hook of [starlightIconsIntegration].  The
    hook gets its logger from the host; [info] is the [info] method of that
    logger. *)
Definition astroConfigSetup (info : string -> Async unit)
    (parsedOptions : StarlightIconsOptions.t) : Async unit :=
  if negb (StarlightIconsOptions.extractSafelist parsedOptions) then ret tt
  else
    match StarlightIconsOptions.customFileIcons parsedOptions with
    | Some icons => setCustomFileIcons (Some icons)
    | None => ret tt
    end ;;;
    info "Generating icon safelist..." ;;;
    let! _ := generateSafelist
                (StarlightIconsOptions.customFileIcons parsedOptions) in
    ret tt.

(** * Notions used in the statements *)

(** ** What a call observes, and what it leaves in place *)

(** The data [getMaterialIconsData] hands out in a world: the in-memory
    copy, else (the version marker being served) the disk cache of the
    served version, else the two tables as served. *)
Definition availableData (w : World) : option MaterialIconsData :=
  match cachedData w with
  | Some d => Some d
  | None =>
      match text (network w) VERSION_URL with
      | None => None
      | Some v =>
          let served_ :=
            match jsonLanguageMap (network w) LANGUAGE_MAP_URL,
                  jsonMaterialIcons (network w) MATERIAL_ICONS_URL with
            | Some l, Some m => Some {| languageMap := l; materialIcons := m |}
            | _, _ => None
            end in
          if decide (Some (Js.trim v) = versionFile (disk w)) then
            match languageMapFile (disk w), materialIconsFile (disk w) with
            | Some l, Some m => Some {| languageMap := l; materialIcons := m |}
            | _, _ => served_
            end
          else served_
      end
  end.

Definition customIconsOf (w : World) : option (gmap string string) :=
  match customFileIconsMap w with
  | Some m => Some m
  | None => spiCustomFileIcons w
  end.

(** Two worlds in which the scanner and the resolver see the same things. *)
Definition sameInputs (w v : World) : Prop :=
  availableData w = availableData v
  /\ customIconsOf w = customIconsOf v
  /\ contentFiles (disk w) = contentFiles (disk v)
  /\ configFiles (disk w) = configFiles (disk v).

Definition isSafelistWrite (e : Event) : bool :=
  match e with
  | WriteFile path => String.eqb path safelistPath
  | _ => false
  end.

(** The data a new process would get on the same disk, with the same
    remote source. *)
Definition coldData (w : World) : option MaterialIconsData :=
  availableData (withCachedData None w).

(** [w'] comes after [w]: same inputs, also for a new process, the
    safelist file untouched, and a trace that grew by events other than a
    write of the safelist. *)
Definition frame (w w' : World) : Prop :=
  sameInputs w w'
  /\ coldData w' = coldData w
  /\ safelistFile (disk w') = safelistFile (disk w)
  /\ exists t, trace w' = trace w ++ t
               /\ forallb (fun e => negb (isSafelistWrite e)) t = true.

(** A computation that returns, stays within the frame, and whose result
    is the same in all worlds with the same inputs. *)
Definition Steady {A} (c : Async A) : Prop :=
  forall w, exists a w',
    c w = (Returned a, w')
    /\ frame w w'
    /\ forall v, sameInputs w v -> fst (c v) = Returned a.

(** The override map is a plain object, so [customIcons[key]] (line 349)
    also finds what every object inherits.  The keys of the loop are in
    lower case, and the inherited properties with such a name are
    [constructor] and [__proto__]: under these the code finds an object
    that is no string, where [Js.get] finds nothing.  A statement that
    rests on the loop finding nothing is made for the file names none of
    whose three keys is one of the two, and says nothing of the others.
    The keys of [resolveFolderIcon] hold a colon and are never inherited. *)
Definition prototypeKeys : list string := ["constructor"; "__proto__"].

Definition plainName (fileName : string) : bool :=
  forallb (fun key => negb (bool_decide (key ∈ prototypeKeys)))
          (overrideKeys fileName).

(** The loop runs only with a file name and with a map registered. *)
Definition ownKeys (icons : option (gmap string string))
    (fileName : option string) : Prop :=
  match icons, fileName with
  | Some _, Some name => plainName name = true
  | _, _ => True
  end.

(** The key [resolveFolderIcon] looks up among the overrides. *)
Definition folderKey (folderName : string) (isOpen : bool) : string :=
  (if isOpen then "folder-open" else "folder") +:+ ":"
  +:+ Js.toLowerCase (Js.stripTrailingSeparators (Js.trim folderName)).

(** The table [resolveFolderIcon] probes. *)
Definition folderTable (m : MaterialIcons) (isOpen : bool) : gmap string string :=
  if isOpen then folderNamesExpanded m else folderNames m.

(** A probe misses: the table has no name under the key, or an empty one,
    or one without a definition. *)
Definition misses (tables : MaterialIcons) (table : gmap string string)
    (key : string) : Prop :=
  forall name, table !! key = Some name ->
               name = "" \/ name ∉ iconDefinitions tables.

(** The disk cache can stand in for the served version [version]. *)
Definition usableCache (d : Disk) (version : string) : Prop :=
  versionFile d = Some version
  /\ is_Some (languageMapFile d) /\ is_Some (materialIconsFile d).




(** ** Sample worlds *)

Definition offline : Network :=
  {| text := fun _ => None;
     jsonLanguageMap := fun _ => None;
     jsonMaterialIcons := fun _ => None |}.

Definition emptyDisk : Disk :=
  {| contentFiles := []; configFiles := ∅; versionFile := None;
     languageMapFile := None; materialIconsFile := None;
     safelistFile := None |}.

(** A fresh process with the given overrides set and the given data in
    memory; nothing cached on disk, nothing served. *)
Definition world (custom : option (gmap string string))
    (data : option MaterialIconsData) : World :=
  {| cachedData := data; customFileIconsMap := custom;
     spiCustomFileIcons := custom; network := offline; disk := emptyDisk;
     trace := [] |}.

Definition sampleData : MaterialIconsData :=
  {| languageMap := {| LanguageMap.fileExtensions := {["mts" := "typescript"]} |};
     materialIcons :=
       {| iconDefinitions :=
            {["markdown"]} ∪ {["typescript"]} ∪ {["git_ignore"]}
            ∪ {["folder-src"]} ∪ {["folder-src-open"]};
          fileExtensions := <["md" := "markdown"]> {["ts" := "typescript"]};
          fileNames := {[".gitignore" := "git_ignore"]};
          folderNames := {["src" := "folder-src"]};
          folderNamesExpanded := {["src" := "folder-src-open"]};
          languageIds := {["typescript" := "typescript"]} |} |}.

Definition mdOverride : gmap string string := {["md" := "i-custom:markdown"]}.

Definition folderOverrides : gmap string string :=
  <["folder:assets" := "i-custom:assets"]> {["json" := "i-custom:json"]}.

Definition underscoreData : MaterialIconsData :=
  {| languageMap := {| LanguageMap.fileExtensions := ∅ |};
     materialIcons :=
       {| iconDefinitions := {["visual_studio"]} ∪ {["folder_src"]} ∪ {["folder-src"]};
          fileExtensions := {["sln" := "visual_studio"]};
          fileNames := ∅;
          folderNames := {["src" := "folder_src"]};
          folderNamesExpanded := {["src" := "folder-src"]};
          languageIds := ∅ |} |}.

Definition elidedTree : list Line :=
  parseLines "
- src
  - ...
  - **â€¦**
  - ``
- README.md
".



Definition staleCache : Disk :=
  {| contentFiles := []; configFiles := ∅; versionFile := Some "1.0";
     languageMapFile := Some (languageMap sampleData);
     materialIconsFile := Some (materialIcons sampleData);
     safelistFile := None |}.

(** The version marker is served, the language map too, the icon table
    is not. *)
Definition halfServed : Network :=
  {| text := fun url => if decide (url = VERSION_URL) then Some "2.0
" else None;
     jsonLanguageMap :=
       fun url => if decide (url = LANGUAGE_MAP_URL)
                  then Some (languageMap sampleData) else None;
     jsonMaterialIcons := fun _ => None |}.

Definition halfServedWorld : World :=
  {| cachedData := None; customFileIconsMap := None;
     spiCustomFileIcons := None; network := halfServed; disk := staleCache;
     trace := [] |}.

(** Everything is served, and the disk cache is of an older version. *)
Definition fullyServed : Network :=
  {| text := fun url => if decide (url = VERSION_URL) then Some "2.0
" else None;
     jsonLanguageMap :=
       fun url => if decide (url = LANGUAGE_MAP_URL)
                  then Some (languageMap sampleData) else None;
     jsonMaterialIcons :=
       fun url => if decide (url = MATERIAL_ICONS_URL)
                  then Some (materialIcons sampleData) else None |}.

Definition servedWorld : World :=
  {| cachedData := None; customFileIconsMap := None;
     spiCustomFileIcons := None; network := fullyServed; disk := staleCache;
     trace := [] |}.

Definition guidePage : string :=
  "# Guide
```ts title=" +:+ quoted "src/index.ts" +:+ "
export {}
```
```sh
npm install
```
<FileTree>
- src/
  - index.ts
  - ...
- README.md
</FileTree>
".



(** A site with one page and a configuration file; the icon data are in
    memory; no safelist has been written yet. *)
Definition siteWorld : World :=
  {| cachedData := Some sampleData;
     customFileIconsMap := Some mdOverride;
     spiCustomFileIcons := Some mdOverride;
     network := offline;
     disk := {| contentFiles := [guidePage];
                configFiles := {["astro.config.mjs" := "icon: 'i-ph:rocket'"]};
                versionFile := None; languageMapFile := None;
                materialIconsFile := None; safelistFile := None |};
     trace := [] |}.

(** A page on which the opening fence of an [sh] block follows the closing
    fence of another block directly, and the same page with a blank line
    between the two fences. *)
Definition adjacentPage : string :=
  "```js
export {}
```
```sh title=" +:+ quoted "run.ts" +:+ "
npm run build
```
".

Definition separatedPage : string :=
  "```js
export {}
```

```sh title=" +:+ quoted "run.ts" +:+ "
npm run build
```
".

(** A site with the given page alone; the icon data are in memory. *)
Definition pageWorld (page : string) : World :=
  {| cachedData := Some sampleData;
     customFileIconsMap := None;
     spiCustomFileIcons := None;
     network := offline;
     disk := {| contentFiles := [page]; configFiles := ∅;
                versionFile := None; languageMapFile := None;
                materialIconsFile := None; safelistFile := None |};
     trace := [] |}.

(** ** Notions used in the further properties *)

Definition withNetwork (n : Network) (w : World) : World :=
  {| cachedData := cachedData w;
     customFileIconsMap := customFileIconsMap w;
     spiCustomFileIcons := spiCustomFileIcons w;
     network := n; disk := disk w; trace := trace w |}.

(** The module evaluated anew in the same process (a second instance of
    it in the bundler): its two [let] variables start over, [globalThis]
    stays as it is. *)
Definition reloadModule (w : World) : World :=
  withCachedData None (withCustom None (spiCustomFileIcons w) w).

(** A later process on the same disk: nothing in memory. *)
Definition newProcess (w : World) : World :=
  withCachedData None (withCustom None None w).

(** The sample site with a safelist left by an earlier run that found
    only the fallback class. *)
Definition staleSite : World :=
  withDisk (withSafelistFile
              (Some (JSON.stringify ["i-material-icon-theme:document"]))
              (disk siteWorld)) siteWorld.

(** What the two resolvers return when called in a world. *)
Definition iconOf (w : World) (fileName language_ : option string)
    : option string :=
  match fst (resolveIcon fileName language_ w) with
  | Returned icon => icon
  | Threw _ => None
  end.

Definition folderIconOf (w : World) (folderName : string) (isOpen : bool)
    : option string :=
  match fst (resolveFolderIcon folderName isOpen w) with
  | Returned icon => icon
  | Threw _ => None
  end.

(** The file names a scan hands to [resolveIcon]: the entries of the
    tree lines that are not skipped and are not directories, and the title
    groups of the matches of [codeBlockRegex] whose language group is not
    [sh]. *)
Definition fileEntries (fileTreeContent : string) : list string :=
  let lines := parseLines fileTreeContent in
  omap (fun i =>
          match lines !! i with
          | Some line =>
              if skipped line
                 || isDirectory (entryNameOf line) line (lines !! (i + 1))
              then None
              else Some (entryNameOf line)
          | None => None
          end)
       (seq 0 (length lines)).

Definition resolvedNames (content_ : string) : list string :=
  omap Regex.title
       (filter (fun m => Regex.lang m <> Some "sh") (Regex.codeBlockRegex content_))
  ++ mjoin (map fileEntries (Regex.fileTreeRegex content_)).

(** No lookup among the overrides that a scan makes can meet an inherited
    key: there is no map registered, or every file name the scan resolves
    has plain override keys. *)
Definition ownKeysInContent (w : World) : bool :=
  match customIconsOf w with
  | None => true
  | Some _ =>
      forallb (fun content_ => forallb plainName (resolvedNames content_))
              (contentFiles (disk w))
  end.

(** The classes each part of the input stands for, the resolvers being
    asked in the world [w]: a line of a tree, a tree, a code block, a
    content file, a configuration file, and all of them together with the
    values of the override map. *)
Definition lineIcons (w : World) (lines : list Line) (i : nat) : gset string :=
  match lines !! i with
  | None => ∅
  | Some line =>
      if skipped line then ∅
      else
        let entryName := entryNameOf line in
        if isDirectory entryName line (lines !! (i + 1)) then
          let folderName := Js.stripTrailingSeparators (Js.trim entryName) in
          addIcon (folderIconOf w folderName true)
            (addIcon (folderIconOf w folderName false) ∅)
        else addIcon (iconOf w (Some entryName) None) ∅
  end.

Definition treeIcons (w : World) (fileTreeContent : string) : gset string :=
  if negb (Js.truthy fileTreeContent) then ∅
  else
    let lines := parseLines fileTreeContent in
    ⋃ (map (lineIcons w lines) (seq 0 (length lines))).

Definition blockIcons (w : World) (m : Regex.CodeBlock) : gset string :=
  if decide (Regex.lang m = Some "sh") then ∅
  else addIcon (iconOf w (Regex.title m) (Regex.lang m)) ∅.

Definition contentIcons (w : World) (content_ : string) : gset string :=
  ⋃ (map (blockIcons w) (Regex.codeBlockRegex content_))
  ∪ ⋃ (map (treeIcons w) (Regex.fileTreeRegex content_)).

Definition configIcons (w : World) (cfg : string) : gset string :=
  match configFiles (disk w) !! cfg with
  | Some source => list_to_set (Regex.iconClassRegex source)
  | None => ∅
  end.

Definition iconsInUse (customFileIcons : option (gmap string string))
    (w : World) : gset string :=
  ⋃ (map (contentIcons w) (contentFiles (disk w)))
  ∪ ⋃ (map (configIcons w) astroConfigs)
  ∪ match customFileIcons with
    | Some icons => list_to_set (map snd (map_to_list icons))
    | None => ∅
    end.

(** In every world with the inputs of [w] the computation returns [u] and
    stays within the frame. *)
Definition Yields {A} (c : Async A) (u : A) (w : World) : Prop :=
  forall v, sameInputs w v ->
    exists v', c v = (Returned u, v') /\ frame v v'.

(** The classes the resolvers can hand out in a world: a value of the
    registered override map, the class of an icon that has a definition in
    the available data, or one of the five built-in classes. *)
Definition knownClass (w : World) (class : string) : Prop :=
  (exists icons key, customIconsOf w = Some icons /\ icons !! key = Some class)
  \/ (exists data name,
        availableData w = Some data
        /\ name ∈ iconDefinitions (materialIcons data)
        /\ class = materialClass name)
  \/ class ∈ [DOCUMENT; SVELTE_JS; SVELTE_TS; FOLDER; FOLDER_OPEN].

(** Whether [s] occurs in [t], computed. *)
Fixpoint occurs (s t : string) : bool :=
  String.prefix s t
  || match t with
     | EmptyString => false
     | String _ r => occurs s r
     end.

(** Events that are neither a request nor a change of the disk: the
    ghost records of the resolver calls and the warning about content
    files. *)
Definition isLocal (e : Event) : bool :=
  match e with
  | CallResolveIcon _ _ | CallResolveFolderIcon _ _ | Log NoContentFiles => true
  | _ => false
  end.

(** With the icon data in memory the computation returns and changes
    nothing but the trace, to which it adds no request, no directory and
    no write. *)
Definition Quiet {A} (c : Async A) : Prop :=
  forall w, is_Some (cachedData w) ->
    exists a t, c w = (Returned a, withTrace (trace w ++ t) w)
                /\ forallb isLocal t = true.

(** A site whose build runs without network: a safelist from an earlier
    build, no overrides, no configuration file. *)
Definition offlineSite : World :=
  {| cachedData := None; customFileIconsMap := None;
     spiCustomFileIcons := None; network := offline;
     disk := {| contentFiles := [guidePage]; configFiles := ∅;
                versionFile := Some "1.0";
                languageMapFile := Some (languageMap sampleData);
                materialIconsFile := Some (materialIcons sampleData);
                safelistFile :=
                  Some (JSON.stringify ["i-material-icon-theme:typescript"]) |};
     trace := [] |}.

(** A logger whose [info] prints and does nothing else: it returns, and
    what it adds to the trace is no write of the safelist. *)
Definition onlyLogs (info : string -> Async unit) : Prop :=
  forall message w,
    exists t, info message w = (Returned tt, withTrace (trace w ++ t) w)
              /\ forallb (fun e => negb (isSafelistWrite e)) t = true.

(** Every character of the string is in the class. *)
Fixpoint allOf (p : ascii -> bool) (s : string) : bool :=
  match s with
  | EmptyString => true
  | String c r => p c && allOf p r
  end.

(** [s] occurs in [t]. *)
Definition occursIn (s t : string) : Prop :=
  exists before after, t = before +:+ s +:+ after.

(** Reading back one character written by [JSON.escape]: the inverse used
    to show that the serialisation of the safelist loses nothing. *)
Definition hexValue (c : ascii) : nat :=
  let n := nat_of_ascii c in if n <? 58 then n - 48 else n - 87.

Definition unescapeAt (s : string) : option (ascii * string) :=
  match s with
  | EmptyString => None
  | String c r =>
      if Ascii.eqb c JSON.BACKSLASH then
        match r with
        | String x r' =>
            if Ascii.eqb x Regex.QUOTE then Some (Regex.QUOTE, r')
            else if Ascii.eqb x JSON.BACKSLASH then Some (JSON.BACKSLASH, r')
            else if Ascii.eqb x "b" then Some ("008"%char, r')
            else if Ascii.eqb x "t" then Some ("009"%char, r')
            else if Ascii.eqb x "n" then Some ("010"%char, r')
            else if Ascii.eqb x "f" then Some ("012"%char, r')
            else if Ascii.eqb x "r" then Some ("013"%char, r')
            else
              match r' with
              | String _ (String _ (String h (String l r''))) =>
                  Some (ascii_of_nat (16 * hexValue h + hexValue l), r'')
              | _ => None
              end
        | EmptyString => None
        end
      else if Ascii.eqb c Regex.QUOTE then None
      else Some (c, r)
  end.

(** The version marker is served and the disk cache is of that version. *)
Definition warmCache : World :=
  {| cachedData := None; customFileIconsMap := None;
     spiCustomFileIcons := None; network := halfServed;
     disk := withVersionFile (Some "2.0") staleCache;
     trace := [] |}.

(** A complete disk cache, and a remote source that cannot be reached. *)
Definition offlineWorld : World :=
  {| cachedData := None; customFileIconsMap := Some mdOverride;
     spiCustomFileIcons := Some mdOverride; network := offline;
     disk := staleCache; trace := [] |}.

(** * Properties *)

(** ** The primitives on examples *)

Example trim_ex : Js.trim "  - src/  " = "- src/".
Proof. reflexivity. Qed.

Example split_ex : Js.split "." "a.tar.gz" = ["a"; "tar"; "gz"].
Proof. reflexivity. Qed.

Example split_trailing_ex : Js.split "." "a." = ["a"; ""].
Proof. reflexivity. Qed.

Example unwrap_ex : Js.unwrap "**" "**README.md**" = "README.md".
Proof. reflexivity. Qed.

Example unwrap_short_ex : Js.unwrap "**" "****" = "****".
Proof. reflexivity. Qed.

Example strip_ex : Js.stripTrailingSeparators "src//" = "src".
Proof. reflexivity. Qed.

Example codeBlock_ex :
  Regex.codeBlockRegex ("```ts title=" +:+ quoted "src/a.ts" +:+ " {1}")
  = [ {| Regex.lang := Some "ts"; Regex.title := Some "src/a.ts" |} ].
Proof. reflexivity. Qed.

Example codeBlock_closing_ex :
  Regex.codeBlockRegex "```sh
npm i
```"
  = [ {| Regex.lang := Some "sh"; Regex.title := None |};
      {| Regex.lang := None; Regex.title := None |} ].
Proof. reflexivity. Qed.

(** The whitespace after the fence may be the line break itself: a closing
    fence takes the title of a fence line that follows it directly, and
    that line is not matched on its own. *)
Example codeBlock_adjacent_ex :
  Regex.codeBlockRegex ("```
```sh title=" +:+ quoted "run.ts")
  = [ {| Regex.lang := None; Regex.title := Some "run.ts" |} ].
Proof. reflexivity. Qed.

Example fileTree_ex :
  Regex.fileTreeRegex "a <FileTree>- x</FileTree> b <FileTree>- y</FileTree>"
  = ["- x"; "- y"].
Proof. reflexivity. Qed.

Example iconClass_ex :
  Regex.iconClassRegex "icon: 'i-ph:rocket-launch-duotone', x: 'ui-mdi:home'"
  = ["i-ph:rocket-launch-duotone"; "i-mdi:home"].
Proof. reflexivity. Qed.

Example stringify_ex :
  JSON.stringify (sort ["i-b:y"; "i-a:x"])
  = "[
  " +:+ quoted "i-a:x" +:+ ",
  " +:+ quoted "i-b:y" +:+ "
]".
Proof. reflexivity. Qed.

(** ** Worlds with the same inputs, and steady computations *)

Lemma sameInputs_refl w : sameInputs w w.
Proof. by repeat split. Qed.

Lemma sameInputs_sym w v : sameInputs w v -> sameInputs v w.
Proof. intros (? & ? & ? & ?). by repeat split. Qed.

Lemma sameInputs_trans w v u :
  sameInputs w v -> sameInputs v u -> sameInputs w u.
Proof.
  intros (? & ? & ? & ?) (? & ? & ? & ?).
  repeat split; etrans; eauto.
Qed.

Lemma frame_refl w : frame w w.
Proof.
  split; [apply sameInputs_refl|]. split; [done|]. split; [done|].
  exists []. by rewrite app_nil_r.
Qed.

Lemma frame_trans w v u : frame w v -> frame v u -> frame w u.
Proof.
  intros (Hi1 & Hc1 & Hs1 & t1 & Ht1 & Hn1) (Hi2 & Hc2 & Hs2 & t2 & Ht2 & Hn2).
  split; [by eapply sameInputs_trans|].
  split; [congruence|]. split; [congruence|].
  exists (t1 ++ t2). split.
  - by rewrite Ht2, Ht1, app_assoc.
  - rewrite forallb_app. by rewrite Hn1, Hn2.
Qed.

Lemma frame_sameInputs w w' : frame w w' -> sameInputs w w'.
Proof. by intros [? _]. Qed.

(** A step that only appends events which are not safelist writes. *)
Lemma frame_withTrace w t :
  forallb (fun e => negb (isSafelistWrite e)) t = true ->
  frame w (withTrace (trace w ++ t) w).
Proof.
  intros Ht. split; [by repeat split|]. split; [done|]. split; [done|].
  by exists t.
Qed.

Ltac run :=
  unfold getMaterialIconsData, getCachedData, getCachedVersion, setCachedData,
    setCachedVersion, ensureCacheDir, fetchText, fetchJson, readFile, writeFile,
    getCustomFileIcons, PromiseAll, tryCatch, bind, read, update, emit, ret,
    throw, served, Json_LanguageMap, Json_MaterialIcons; simpl.

Ltac split_cases :=
  repeat (match goal with
          | |- context [match ?x with _ => _ end] =>
              match type of x with
              | option _ => destruct x eqn:?
              | {_} + {_} => destruct x
              end; simpl in *
          end).

Ltac frame_tac :=
  split;
  [ repeat split; unfold availableData, customIconsOf; simpl; try done;
    split_cases; congruence
  | split;
    [ unfold coldData, availableData; simpl; try done; split_cases; congruence
    | split; [done|];
      eexists; split;
      [simpl; rewrite <- ?app_assoc; reflexivity | reflexivity] ] ].

(** [getMaterialIconsData] returns in every world, with [availableData]. *)
Lemma getMaterialIconsData_spec w :
  exists w',
    getMaterialIconsData w = (Returned (availableData w), w') /\ frame w w'.
Proof.
  unfold availableData. run.
  split_cases; try congruence; (eexists; split; [reflexivity|]).
  all: try apply frame_refl.
  all: frame_tac.
Qed.

Lemma Steady_getMaterialIconsData : Steady getMaterialIconsData.
Proof.
  intros w. destruct (getMaterialIconsData_spec w) as (w' & Hrun & Hf).
  exists (availableData w), w'. repeat split; try done; try apply Hf.
  intros v (Ha & _).
  destruct (getMaterialIconsData_spec v) as (v' & Hv & _).
  by rewrite Hv, Ha.
Qed.

Lemma Steady_ret {A} (a : A) : Steady (ret a).
Proof.
  intros w. exists a, w. split; [done|]. split; [apply frame_refl|done].
Qed.

Lemma Steady_bind {A B} (c : Async A) (k : A -> Async B) :
  Steady c -> (forall a, Steady (k a)) -> Steady (bind c k).
Proof.
  intros Hc Hk w.
  destruct (Hc w) as (a & w1 & Hrun & Hf & Hdet).
  destruct (Hk a w1) as (b & w2 & Hrun2 & Hf2 & Hdet2).
  exists b, w2. split; [|split].
  - unfold bind. by rewrite Hrun.
  - by eapply frame_trans.
  - intros v Hv. specialize (Hdet v Hv).
    destruct (Hc v) as (a' & v1 & Hrunv & Hfv & _).
    rewrite Hrunv in Hdet. simpl in Hdet. injection Hdet as ->.
    unfold bind. rewrite Hrunv. apply Hdet2.
    eapply sameInputs_trans; [|apply (frame_sameInputs _ _ Hfv)].
    eapply sameInputs_trans; [|apply Hv].
    apply sameInputs_sym, (frame_sameInputs _ _ Hf).
Qed.

Lemma Steady_read {A} (f : World -> A) :
  (forall w v, sameInputs w v -> f w = f v) -> Steady (read f).
Proof.
  intros Hf w. exists (f w), w. split; [done|]. split; [apply frame_refl|].
  intros v Hv. unfold read. simpl. by rewrite (Hf w v Hv).
Qed.

Lemma Steady_emit (e : Event) : isSafelistWrite e = false -> Steady (emit e).
Proof.
  intros He w. exists tt, (withTrace (trace w ++ [e]) w).
  split; [done|]. split; [|done].
  apply frame_withTrace. simpl. by rewrite He.
Qed.

Lemma Steady_tryCatch {A} (c : Async A) (h : Error -> Async A) :
  Steady c -> Steady (tryCatch c h).
Proof.
  intros Hc w. destruct (Hc w) as (a & w1 & Hrun & Hf & Hdet).
  exists a, w1. split; [|split; [done|]].
  - unfold tryCatch. by rewrite Hrun.
  - intros v Hv. specialize (Hdet v Hv). unfold tryCatch.
    destruct (c v) as [[x|e] v1]; simpl in *; congruence.
Qed.

Lemma Steady_PromiseAll {A B} (a : Async A) (b : Async B) :
  Steady a -> Steady b -> Steady (PromiseAll a b).
Proof.
  intros Ha Hb w.
  destruct (Ha w) as (x & w1 & Hrun & Hf & Hdet).
  destruct (Hb w1) as (y & w2 & Hrun2 & Hf2 & Hdet2).
  exists (x, y), w2. split; [|split].
  - unfold PromiseAll. by rewrite Hrun, Hrun2.
  - by eapply frame_trans.
  - intros v Hv. specialize (Hdet v Hv).
    destruct (Ha v) as (x' & v1 & Hrunv & Hfv & _).
    rewrite Hrunv in Hdet. simpl in Hdet. injection Hdet as ->.
    assert (sameInputs w1 v1) as Hs.
    { eapply sameInputs_trans; [|apply (frame_sameInputs _ _ Hfv)].
      eapply sameInputs_trans; [|apply Hv].
      apply sameInputs_sym, (frame_sameInputs _ _ Hf). }
    specialize (Hdet2 v1 Hs).
    unfold PromiseAll. rewrite Hrunv.
    destruct (b v1) as [[y'|e] v2]; simpl in *; congruence.
Qed.

Lemma Steady_forEach {A S} (step : A -> S -> Async S) (items : list A) :
  (forall x acc, Steady (step x acc)) ->
  forall acc, Steady (forEach step items acc).
Proof.
  intros Hstep. induction items as [|x rest IH]; intros acc; simpl.
  - apply Steady_ret.
  - apply Steady_bind; [apply Hstep|]. intros acc'. apply IH.
Qed.

Lemma Steady_getCustomFileIcons : Steady getCustomFileIcons.
Proof. apply Steady_read. by intros w v (_ & ? & _). Qed.

(** ** The resolver as a function of what it observes *)

Lemma Steady_resolveIcon fileName language_ :
  Steady (resolveIcon fileName language_).
Proof.
  unfold resolveIcon.
  apply Steady_bind; [by apply Steady_emit|]. intros _.
  apply Steady_bind; [apply Steady_getCustomFileIcons|]. intros customIcons.
  destruct (customIcon customIcons fileName); [apply Steady_ret|].
  apply Steady_bind; [apply Steady_getMaterialIconsData|].
  intros [data|]; apply Steady_ret.
Qed.

Lemma Steady_resolveFolderIcon folderName isOpen :
  Steady (resolveFolderIcon folderName isOpen).
Proof.
  unfold resolveFolderIcon.
  apply Steady_bind; [by apply Steady_emit|]. intros _.
  apply Steady_bind; [apply Steady_getCustomFileIcons|]. intros customIcons.
  match goal with |- Steady (match ?x with _ => _ end) => destruct x end;
    [apply Steady_ret|].
  apply Steady_bind; [apply Steady_getMaterialIconsData|].
  intros [data|]; [|apply Steady_ret].
  match goal with |- Steady (match ?x with _ => _ end) => destruct x end;
    apply Steady_ret.
Qed.

(** The result of [resolveIcon], read off the world it starts in. *)
Lemma resolveIcon_result w fileName language_ :
  fst (resolveIcon fileName language_ w)
  = Returned
      match customIcon (customIconsOf w) fileName with
      | Some icon => Some icon
      | None =>
          match availableData w with
          | Some data => resolveWithData data fileName language_
          | None => None
          end
      end.
Proof.
  unfold resolveIcon, bind, emit, update, getCustomFileIcons, read. simpl.
  fold (customIconsOf w).
  destruct (customIcon (customIconsOf w) fileName); [done|].
  set (w1 := withTrace _ w).
  destruct (getMaterialIconsData_spec w1) as (w' & -> & _).
  change (availableData w1) with (availableData w).
  by destruct (availableData w).
Qed.

Lemma resolveFolderIcon_result w folderName isOpen :
  fst (resolveFolderIcon folderName isOpen w)
  = Returned
      match customIconsOf w ≫= (fun icons => Js.get icons (folderKey folderName isOpen)) with
      | Some icon => Some icon
      | None =>
          match availableData w with
          | Some data =>
              let lower := Js.toLowerCase (Js.stripTrailingSeparators (Js.trim folderName)) in
              match definedClass (materialIcons data)
                      (Js.get (folderTable (materialIcons data) isOpen) lower) with
              | Some class => Some class
              | None => Some (if isOpen then FOLDER_OPEN else FOLDER)
              end
          | None => None
          end
      end.
Proof.
  unfold resolveFolderIcon, bind, emit, update, getCustomFileIcons, read. simpl.
  fold (customIconsOf w). unfold folderKey, folderTable.
  destruct (customIconsOf w) as [icons|]; simpl.
  - destruct (Js.get icons _); [done|].
    set (w1 := withTrace _ w).
    destruct (getMaterialIconsData_spec w1) as (w' & -> & _).
    change (availableData w1) with (availableData w).
    destruct (availableData w) as [data|]; [|done].
    destruct isOpen; by destruct (definedClass _ _).
  - set (w1 := withTrace _ w).
    destruct (getMaterialIconsData_spec w1) as (w' & -> & _).
    change (availableData w1) with (availableData w).
    destruct (availableData w) as [data|]; [|done].
    destruct isOpen; by destruct (definedClass _ _).
Qed.

(** ** Lemmas on strings and on the override loop *)

Lemma truthy_true s : Js.truthy s = true <-> s <> "".
Proof.
  unfold Js.truthy. destruct (String.eqb_spec s ""); simpl; split; congruence.
Qed.

Lemma get_Some icons key icon :
  Js.get icons key = Some icon <-> icons !! key = Some icon /\ icon <> "".
Proof.
  unfold Js.get. destruct (icons !! key) as [v|].
  - destruct (Js.truthy v) eqn:Hv.
    + apply truthy_true in Hv.
      split; [by intros [= <-] | by intros [[= ->] _]].
    + split; [done|]. intros [[= ->] Hne%truthy_true]. congruence.
  - split; [done | by intros [? _]].
Qed.

Lemma get_None icons key :
  Js.get icons key = None <-> icons !! key = None \/ icons !! key = Some "".
Proof.
  unfold Js.get. destruct (icons !! key) as [v|].
  - destruct (Js.truthy v) eqn:Hv.
    + apply truthy_true in Hv.
      split; [done | intros [|[= ->]]; done].
    + assert (v = "") as ->.
      { destruct (decide (v = "")) as [|Hne]; [done|].
        apply truthy_true in Hne. congruence. }
      split; [by right | done].
  - split; [by left | done].
Qed.

(** The loop returns the value of the first key, in list order, that is
    non-empty and has a non-empty value. *)
Lemma firstOverride_first icons keys i key icon :
  keys !! i = Some key -> key <> "" ->
  icons !! key = Some icon -> icon <> "" ->
  (forall j earlier, j < i -> keys !! j = Some earlier ->
     earlier = "" \/ icons !! earlier = None \/ icons !! earlier = Some "") ->
  firstOverride icons keys = Some icon.
Proof.
  revert i. induction keys as [|k rest IH]; intros i Hi Hkey Hicon Hne Hearlier.
  - by rewrite lookup_nil in Hi.
  - destruct i as [|i]; simpl in *.
    + injection Hi as ->.
      apply truthy_true in Hkey. rewrite Hkey.
      by rewrite (proj2 (get_Some icons key icon) (conj Hicon Hne)).
    + assert (firstOverride icons rest = Some icon) as Hrest.
      { apply (IH i); try done. intros j e Hj He.
        apply (Hearlier (S j) e); [lia|done]. }
      destruct (Hearlier 0 k) as [->|Hk]; [lia|done|done|].
      destruct (Js.truthy k); [|done].
      by rewrite (proj2 (get_None icons k) Hk).
Qed.

Lemma firstOverride_Some icons keys icon :
  firstOverride icons keys = Some icon ->
  exists key, key ∈ keys /\ key <> "" /\ icons !! key = Some icon /\ icon <> "".
Proof.
  induction keys as [|k rest IH]; simpl; [done|].
  destruct (Js.truthy k) eqn:Hk.
  - destruct (Js.get icons k) as [v|] eqn:Hget.
    + intros [= ->]. apply get_Some in Hget as [? ?].
      exists k. apply truthy_true in Hk. repeat split; try done. by left.
    + intros (key & ? & ?)%IH. exists key. split; [by right|done].
  - intros (key & ? & ?)%IH. exists key. split; [by right|done].
Qed.

Lemma firstOverride_exists icons keys key value :
  key ∈ keys -> key <> "" -> icons !! key = Some value -> value <> "" ->
  exists icon, firstOverride icons keys = Some icon.
Proof.
  intros Hin Hkey Hval Hne.
  induction keys as [|k rest IH]; [by apply elem_of_nil in Hin|].
  simpl. apply elem_of_cons in Hin as [<-|Hin].
  - apply truthy_true in Hkey. rewrite Hkey.
    rewrite (proj2 (get_Some icons key value) (conj Hval Hne)). eauto.
  - destruct (Js.truthy k); [|by apply IH].
    destruct (Js.get icons k); [eauto|by apply IH].
Qed.

Lemma getCustomFileIcons_customIconsOf w r :
  fst (getCustomFileIcons w) = Returned r <-> customIconsOf w = r.
Proof.
  unfold getCustomFileIcons, read, customIconsOf. simpl.
  split; [by intros [= ->]|by intros ->].
Qed.

(** [resolveIcon], one step in: the call is recorded, the overrides are
    read, and only a miss goes on to the data store. *)
Lemma resolveIcon_unfold w fileName language_ :
  resolveIcon fileName language_ w
  = let w1 := withTrace (trace w ++ [CallResolveIcon fileName language_]) w in
    match customIcon (customIconsOf w) fileName with
    | Some icon => (Returned (Some icon), w1)
    | None =>
        bind getMaterialIconsData
          (fun data =>
             match data with
             | None => ret None
             | Some data => ret (resolveWithData data fileName language_)
             end) w1
    end.
Proof.
  unfold resolveIcon, emit, update, getCustomFileIcons, read.
  unfold bind at 1 2. cbn [fst snd].
  change (customIcon _ fileName) with (customIcon (customIconsOf w) fileName).
  by destruct (customIcon (customIconsOf w) fileName).
Qed.

(** An override hit ends [resolveIcon] before the data store is reached. *)
Lemma resolveIcon_override w icons fileName language_ icon :
  customIconsOf w = Some icons ->
  fileName <> "" ->
  firstOverride icons (overrideKeys fileName) = Some icon ->
  resolveIcon (Some fileName) language_ w
  = (Returned (Some icon),
     withTrace (trace w ++ [CallResolveIcon (Some fileName) language_]) w).
Proof.
  intros Hc Hname%truthy_true Hfirst.
  rewrite resolveIcon_unfold. unfold customIcon.
  by rewrite Hc, Hname, Hfirst.
Qed.

(** C1, as amended.  When the file name is not empty, the override map is
    consulted with the three keys (last path segment in lower case, its
    long extension, its short extension), in this order; the first key that
    is not empty and holds a non-empty value decides, and [resolveIcon]
    returns that value at once: the world it leaves differs from the one it
    found by the record of the call only, so neither the data store nor a
    Material-Icon table was consulted. *)
Theorem resolveIcon_custom_override_first
    (w : World) (icons : gmap string string)
    (fileName : string) (language_ : option string)
    (i : nat) (key icon : string) :
  let lower := lowerFileName fileName in
  let keys := [lower; longExtension lower; shortExtension lower] in
  fst (getCustomFileIcons w) = Returned (Some icons) ->
  fileName <> "" ->
  keys !! i = Some key -> key <> "" ->
  icons !! key = Some icon -> icon <> "" ->
  (forall j earlier, j < i -> keys !! j = Some earlier ->
     earlier = "" \/ icons !! earlier = None \/ icons !! earlier = Some "") ->
  resolveIcon (Some fileName) language_ w
  = (Returned (Some icon),
     withTrace (trace w ++ [CallResolveIcon (Some fileName) language_]) w).
Proof.
  intros lower keys Hc%getCustomFileIcons_customIconsOf Hname Hi Hkey Hicon Hne Hearlier.
  apply (resolveIcon_override w icons); [done..|].
  by apply (firstOverride_first icons (overrideKeys fileName) i key icon).
Qed.

Lemma resolveIcon_custom_override_first_witness :
  resolveIcon (Some "docs/README.md") None (world (Some mdOverride) (Some sampleData))
  = (Returned (Some "i-custom:markdown"),
     withTrace [CallResolveIcon (Some "docs/README.md") None]
       (world (Some mdOverride) (Some sampleData))).
Proof.
  apply (resolveIcon_custom_override_first
           (world (Some mdOverride) (Some sampleData)) mdOverride
           "docs/README.md" None 1 "md" "i-custom:markdown").
  - reflexivity.
  - discriminate.
  - reflexivity.
  - discriminate.
  - reflexivity.
  - discriminate.
  - intros j earlier Hj Hlook.
    destruct j as [|j]; [|lia].
    injection Hlook as <-. right. left. reflexivity.
Defined.

(** An override whose value is the empty string is an entry of the map
    under the short extension, and is not what [resolveIcon] returns. *)
Lemma resolveIcon_custom_override_counterexample :
  let icons : gmap string string := {["md" := ""]} in
  let w := world (Some icons) (Some sampleData) in
  shortExtension (lowerFileName "readme.md") = "md"
  /\ icons !! "md" = Some ""
  /\ fst (resolveIcon (Some "readme.md") None w)
     = Returned (Some "i-material-icon-theme:markdown")
  /\ fst (resolveIcon (Some "readme.md") None w) <> Returned (Some "").
Proof. vm_compute. repeat split; congruence. Qed.

(** [resolveFolderIcon] on an override hit. *)
Lemma resolveFolderIcon_override w icons folderName isOpen icon :
  customIconsOf w = Some icons ->
  Js.get icons (folderKey folderName isOpen) = Some icon ->
  resolveFolderIcon folderName isOpen w
  = (Returned (Some icon),
     withTrace (trace w ++ [CallResolveFolderIcon folderName isOpen]) w).
Proof.
  intros Hc Hget.
  unfold resolveFolderIcon, emit, update, getCustomFileIcons, read.
  unfold bind at 1 2. cbn [fst snd withTrace customFileIconsMap spiCustomFileIcons].
  fold (customIconsOf w). rewrite Hc.
  unfold folderKey in Hget. by rewrite Hget.
Qed.

(** C10.  An override that matches is returned whatever the state of the
    Icon Data Store.  For a non-empty file name with a non-empty override
    key among its three keys holding a non-empty value, there is one
    override value that [resolveIcon] returns in every world with these
    overrides, be the icon data in memory, on disk, served, or nowhere;
    likewise [resolveFolderIcon] returns the non-empty value found under
    [folder:<name>] or [folder-open:<name>].  In both cases the world is
    left as it was found but for the record of the call: no request, no
    read of the cache, no change of the data in memory. *)
Theorem overrides_do_not_depend_on_data_store
    (icons : gmap string string) (fileName : string)
    (language_ : option string) (folderName : string) (isOpen : bool) :
  (forall key value,
     fileName <> "" -> key ∈ overrideKeys fileName -> key <> "" ->
     icons !! key = Some value -> value <> "" ->
     exists icon,
       (exists key', key' ∈ overrideKeys fileName /\ icons !! key' = Some icon)
       /\ forall w,
            fst (getCustomFileIcons w) = Returned (Some icons) ->
            resolveIcon (Some fileName) language_ w
            = (Returned (Some icon),
               withTrace (trace w ++ [CallResolveIcon (Some fileName) language_]) w))
  /\ (forall value,
        icons !! folderKey folderName isOpen = Some value -> value <> "" ->
        forall w,
          fst (getCustomFileIcons w) = Returned (Some icons) ->
          resolveFolderIcon folderName isOpen w
          = (Returned (Some value),
             withTrace (trace w ++ [CallResolveFolderIcon folderName isOpen]) w)).
Proof.
  split.
  - intros key value Hname Hin Hkey Hval Hne.
    destruct (firstOverride_exists icons (overrideKeys fileName) key value)
      as [icon Hicon]; [done..|].
    exists icon. split.
    + apply firstOverride_Some in Hicon as (key' & ? & _ & ? & _). eauto.
    + intros w Hc%getCustomFileIcons_customIconsOf.
      by apply (resolveIcon_override w icons).
  - intros value Hval Hne w Hc%getCustomFileIcons_customIconsOf.
    apply (resolveFolderIcon_override w icons); [done|].
    by apply get_Some.
Qed.

(** The overrides are returned in a world where no icon data can be had. *)
Lemma overrides_do_not_depend_on_data_store_witness :
  availableData (world (Some folderOverrides) None) = None
  /\ fst (resolveIcon (Some "tsconfig.json") None (world (Some folderOverrides) None))
     = Returned (Some "i-custom:json")
  /\ fst (resolveFolderIcon "Assets/" false (world (Some folderOverrides) None))
     = Returned (Some "i-custom:assets").
Proof.
  destruct (overrides_do_not_depend_on_data_store
              folderOverrides "tsconfig.json" None "Assets/" false)
    as [Hfile Hfolder].
  split; [reflexivity|]. split.
  - destruct (Hfile "json" "i-custom:json") as (icon & (key' & Hin & Hk) & Hall).
    + discriminate.
    + vm_compute. right. left.
    + discriminate.
    + reflexivity.
    + discriminate.
    + rewrite (Hall (world (Some folderOverrides) None)); [|reflexivity].
      simpl. do 2 f_equal.
      apply elem_of_cons in Hin as [->|Hin]; [by vm_compute in Hk|].
      apply elem_of_cons in Hin as [->|Hin]; [by vm_compute in Hk; injection Hk|].
      apply elem_of_cons in Hin as [->|Hin]; [by vm_compute in Hk; injection Hk|].
      by apply elem_of_nil in Hin.
  - rewrite (Hfolder "i-custom:assets"); [done| reflexivity | discriminate | reflexivity].
Defined.

(** ** Classes built from the tables *)

Lemma getMaterialIconsData_available w data :
  fst (getMaterialIconsData w) = Returned data <-> availableData w = data.
Proof.
  destruct (getMaterialIconsData_spec w) as (w' & -> & _). simpl.
  split; [by intros [= ->]|by intros ->].
Qed.

Lemma materialClass_prefix name :
  Js.startsWith "i-material-icon-theme:" (materialClass name) = true.
Proof.
  unfold materialClass. by destruct (Js.replaceAll "_" "-" name).
Qed.

Lemma materialClass_nonempty name : materialClass name <> "".
Proof. intros H. pose proof (materialClass_prefix name) as P. by rewrite H in P. Qed.

Lemma materialClass_not_folder name (isOpen : bool) :
  materialClass name <> (if isOpen then FOLDER_OPEN else FOLDER).
Proof.
  intros H. pose proof (materialClass_prefix name) as P. rewrite H in P.
  by destruct isOpen.
Qed.

Lemma materialClass_inj a b :
  materialClass a = materialClass b ->
  Js.replaceAll "_" "-" a = Js.replaceAll "_" "-" b.
Proof. unfold materialClass. apply (inj (String.app _)). Qed.

(** After the replacement no underscore is left. *)
Lemma replaceAll_no_underscore s :
  Js.includes "_" (Js.replaceAll "_" "-" s) = false.
Proof.
  induction s as [|c r IH]; [done|]. simpl. rewrite IH.
  destruct (Ascii.eqb c "_") eqn:Hc; [done|]. by rewrite Hc.
Qed.

Lemma definedClass_Some tables iconName class :
  definedClass tables iconName = Some class <->
  exists name, iconName = Some name /\ name ∈ iconDefinitions tables
               /\ class = materialClass name.
Proof.
  unfold definedClass. destruct iconName as [name|].
  - rewrite bool_decide_decide. destruct (decide _) as [Hin|Hout].
    + split; [intros [= <-]; eauto|]. by intros (? & [= <-] & _ & ->).
    + split; [done|]. by intros (? & [= <-] & ? & _).
  - split; [done|]. by intros (? & ? & _).
Qed.

Lemma definedClass_hit tables table key name :
  table !! key = Some name -> name <> "" -> name ∈ iconDefinitions tables ->
  definedClass tables (Js.get table key) = Some (materialClass name).
Proof.
  intros Hk Hne Hin. rewrite (proj2 (get_Some table key name) (conj Hk Hne)).
  apply definedClass_Some. eauto.
Qed.

Lemma definedClass_None tables table key :
  definedClass tables (Js.get table key) = None <-> misses tables table key.
Proof.
  unfold misses. split.
  - intros Hnone name Hk.
    destruct (decide (name = "")) as [|Hne]; [by left|]. right. intros Hin.
    by rewrite (definedClass_hit tables table key name) in Hnone.
  - intros Hmiss. destruct (definedClass _ _) as [class|] eqn:Hd; [|done].
    apply definedClass_Some in Hd as (name & (Hk & Hne)%get_Some & Hin & _).
    by destruct (Hmiss name Hk).
Qed.

Lemma customIcon_nonempty customIcons fileName icon :
  customIcon customIcons fileName = Some icon -> icon <> "".
Proof.
  unfold customIcon. destruct fileName as [name|]; [|done].
  destruct customIcons as [icons|]; [|done].
  destruct (Js.truthy name); [|done].
  by intros (? & _ & _ & _ & ?)%firstOverride_Some.
Qed.

Lemma getIconClass_Some tables pairs class :
  getIconClass tables pairs = Some class ->
  exists name, class = materialClass name.
Proof.
  induction pairs as [|[key [table|]] rest IH]; simpl; [done| |done].
  destruct (definedClass _ _) as [c|] eqn:Hd; [|done].
  intros [= <-]. apply definedClass_Some in Hd as (name & _ & _ & ->). eauto.
Qed.

Lemma fileProbes_Some data fileName class :
  fileProbes data fileName = Some class ->
  exists name, class = materialClass name.
Proof.
  unfold fileProbes.
  destruct (getIconClass _ _) as [c|] eqn:Hg.
  - intros [= <-]. by apply getIconClass_Some in Hg.
  - destruct (negb _); [|done].
    intros (name & _ & _ & ->)%definedClass_Some. eauto.
Qed.

Lemma languageProbe_Some data language_ class :
  languageProbe data language_ = Some class ->
  exists name, class = materialClass name.
Proof.
  unfold languageProbe. destruct language_ as [id|]; [|done].
  destruct (Js.truthy id); [|done].
  intros (name & _ & _ & ->)%definedClass_Some. eauto.
Qed.

Lemma svelteSpecial_Some fileName class :
  svelteSpecial fileName = Some class ->
  class = SVELTE_JS \/ class = SVELTE_TS.
Proof.
  unfold svelteSpecial. destruct fileName as [name|]; [|done].
  destruct (Js.endsWith ".svelte.js" name); [intros [= <-]; by left|].
  destruct (Js.endsWith ".svelte.ts" name); [intros [= <-]; by right|done].
Qed.

Lemma resolveWithData_nonempty data fileName language_ class :
  resolveWithData data fileName language_ = Some class -> class <> "".
Proof.
  unfold resolveWithData. destruct (negb _ && negb _); [done|].
  destruct (svelteSpecial fileName) as [c|] eqn:Hsv.
  { intros [= <-]. by apply svelteSpecial_Some in Hsv as [-> | ->]. }
  destruct (match fileName with Some _ => _ | None => _ end) as [c|] eqn:Hfile.
  { intros [= <-]. destruct fileName as [name|]; [|done].
    destruct (Js.truthy name); [|done].
    apply fileProbes_Some in Hfile as (? & ->). apply materialClass_nonempty. }
  destruct (languageProbe data language_) as [c|] eqn:Hl.
  { intros [= <-].
    apply languageProbe_Some in Hl as (? & ->). apply materialClass_nonempty. }
  by intros [= <-].
Qed.

Lemma resolveWithData_supplied data fileName language_ :
  Js.supplied fileName = true \/ Js.supplied language_ = true ->
  exists class, resolveWithData data fileName language_ = Some class.
Proof.
  intros Hs. unfold resolveWithData.
  assert (negb (Js.supplied fileName) && negb (Js.supplied language_) = false) as ->.
  { by destruct Hs as [-> | ->]; [|rewrite andb_false_r]. }
  repeat match goal with
         | |- context [match ?x with _ => _ end] => destruct x
         end; eauto.
Qed.

(** C2, as amended.  Without a file name and without a language (absent
    or empty), [resolveIcon] returns [null].  With one of them, with the
    icon data available and a file name whose override keys are not
    inherited ones, it returns a non-empty class; this class is
    [i-material-icon-theme:document] when no override matches, the file
    name has none of the two special suffixes, no probe of the tables and
    no dot-prefixed retry hits, and the language probe misses.  With the
    icon data unavailable, such a file name and no matching override, it
    returns [null]. *)
Theorem resolveIcon_null_or_document
    (w : World) (fileName language_ : option string) :
  (Js.supplied fileName = false -> Js.supplied language_ = false ->
   fst (resolveIcon fileName language_ w) = Returned None)
  /\ (forall data icons,
        fst (getMaterialIconsData w) = Returned (Some data) ->
        fst (getCustomFileIcons w) = Returned icons ->
        ownKeys icons fileName ->
        Js.supplied fileName = true \/ Js.supplied language_ = true ->
        (exists class,
           fst (resolveIcon fileName language_ w) = Returned (Some class)
           /\ class <> "")
        /\ (customIcon icons fileName = None ->
            svelteSpecial fileName = None ->
            (forall name, fileName = Some name -> name <> "" ->
                          fileProbes data name = None) ->
            languageProbe data language_ = None ->
            fst (resolveIcon fileName language_ w) = Returned (Some DOCUMENT)))
  /\ (forall icons,
        fst (getMaterialIconsData w) = Returned None ->
        fst (getCustomFileIcons w) = Returned icons ->
        ownKeys icons fileName ->
        customIcon icons fileName = None ->
        fst (resolveIcon fileName language_ w) = Returned None).
Proof.
  rewrite resolveIcon_result. split; [|split].
  - intros Hf Hl.
    assert (customIcon (customIconsOf w) fileName = None) as ->.
    { unfold customIcon. destruct fileName as [name|]; [|done].
      simpl in Hf. rewrite Hf. by destruct (customIconsOf w). }
    destruct (availableData w) as [data|]; [|done].
    unfold resolveWithData. by rewrite Hf, Hl.
  - intros data icons Hd%getMaterialIconsData_available
      Hc%getCustomFileIcons_customIconsOf _ Hs.
    rewrite Hd, Hc. split.
    + destruct (customIcon icons fileName) as [icon|] eqn:Hicon.
      * exists icon. split; [done|]. by eapply customIcon_nonempty.
      * destruct (resolveWithData_supplied data fileName language_ Hs)
          as [class Hclass].
        exists class. rewrite Hclass. split; [done|].
        by eapply resolveWithData_nonempty.
    + intros -> Hsv Hprobes Hlang. unfold resolveWithData.
      assert (negb (Js.supplied fileName) && negb (Js.supplied language_) = false) as ->.
      { by destruct Hs as [-> | ->]; [|rewrite andb_false_r]. }
      rewrite Hsv, Hlang.
      destruct fileName as [name|]; [|done].
      destruct (Js.truthy name) eqn:Hname; [|done].
      by rewrite (Hprobes name eq_refl (proj1 (truthy_true name) Hname)).
  - intros icons Hd%getMaterialIconsData_available
      Hc%getCustomFileIcons_customIconsOf _ Hicon.
    by rewrite Hc, Hicon, Hd.
Qed.

Lemma resolveIcon_null_or_document_witness :
  fst (resolveIcon None (Some "") (world None (Some sampleData))) = Returned None
  /\ fst (resolveIcon (Some "notes.xyz") (Some "klingon")
                      (world (Some mdOverride) (Some sampleData)))
     = Returned (Some "i-material-icon-theme:document")
  /\ fst (resolveIcon (Some "notes.xyz") (Some "typescript")
                      (world (Some mdOverride) None))
     = Returned None.
Proof.
  split; [|split].
  - apply (proj1 (resolveIcon_null_or_document
                    (world None (Some sampleData)) None (Some ""))); reflexivity.
  - apply (proj1 (proj2 (resolveIcon_null_or_document
                           (world (Some mdOverride) (Some sampleData))
                           (Some "notes.xyz") (Some "klingon")))
             sampleData (Some mdOverride)).
    + reflexivity.
    + reflexivity.
    + reflexivity.
    + left. reflexivity.
    + reflexivity.
    + reflexivity.
    + intros name [= <-] _. reflexivity.
    + reflexivity.
  - apply (proj2 (proj2 (resolveIcon_null_or_document
                           (world (Some mdOverride) None)
                           (Some "notes.xyz") (Some "typescript")))
             (Some mdOverride)).
    + reflexivity.
    + reflexivity.
    + reflexivity.
    + reflexivity.
Defined.

(** With the remote source unreachable and nothing cached, a file name
    that nothing resolves gets [null] and not the [document] class. *)
Lemma resolveIcon_null_or_document_counterexample :
  let w := world None None in
  Js.supplied (Some "notes.xyz") = true
  /\ availableData w = None
  /\ customIcon (customIconsOf w) (Some "notes.xyz") = None
  /\ svelteSpecial (Some "notes.xyz") = None
  /\ fst (resolveIcon (Some "notes.xyz") None w) = Returned None
  /\ fst (resolveIcon (Some "notes.xyz") None w)
     <> Returned (Some "i-material-icon-theme:document").
Proof. vm_compute. repeat split; congruence. Qed.

(** C3, as amended.  Take a non-empty file name that matches no override
    and has neither the suffix [.svelte.js] nor [.svelte.ts], with the icon
    data available.  If the File-Extension Map holds, for the long or for
    the short extension of the name, a non-empty icon name that has a
    definition, then [resolveIcon] returns [i-material-icon-theme:<name>]
    with every underscore of the icon name replaced by a hyphen, where the
    icon name is the one of the first probe that hits: the file name in the
    File-Name Map, then the long extension, then the short extension in
    the File-Extension Map. *)
Theorem resolveIcon_known_extension
    (w : World) (data : MaterialIconsData) (icons : option (gmap string string))
    (fileName : string) (language_ : option string) (name : string) :
  let lower := lowerFileName fileName in
  let tables := materialIcons data in
  fst (getMaterialIconsData w) = Returned (Some data) ->
  fst (getCustomFileIcons w) = Returned icons ->
  customIcon icons (Some fileName) = None ->
  fileName <> "" ->
  Js.endsWith ".svelte.js" fileName = false ->
  Js.endsWith ".svelte.ts" fileName = false ->
  fileExtensions tables !! longExtension lower = Some name
  \/ fileExtensions tables !! shortExtension lower = Some name ->
  name <> "" -> name ∈ iconDefinitions tables ->
  exists hit,
    fst (resolveIcon (Some fileName) language_ w)
    = Returned (Some ("i-material-icon-theme:" +:+ Js.replaceAll "_" "-" hit))
    /\ Js.includes "_" (Js.replaceAll "_" "-" hit) = false
    /\ hit <> "" /\ hit ∈ iconDefinitions tables
    /\ (fileNames tables !! lower = Some hit
        \/ (misses tables (fileNames tables) lower
            /\ fileExtensions tables !! longExtension lower = Some hit)
        \/ (misses tables (fileNames tables) lower
            /\ misses tables (fileExtensions tables) (longExtension lower)
            /\ fileExtensions tables !! shortExtension lower = Some hit)).
Proof.
  intros lower tables Hd%getMaterialIconsData_available
    Hc%getCustomFileIcons_customIconsOf Hcustom Hname Hjs Hts Hext Hne Hin.
  rewrite resolveIcon_result, Hc, Hcustom, Hd.
  unfold resolveWithData, svelteSpecial. simpl.
  apply truthy_true in Hname. rewrite Hname, Hjs, Hts. simpl.
  unfold fileProbes. fold lower tables. simpl.
  destruct (definedClass tables (Js.get (fileNames tables) lower))
    as [c1|] eqn:H1.
  { apply definedClass_Some in H1 as (hit & (Hk & Hh)%get_Some & Hi & ->).
    exists hit. repeat split; try done; [apply replaceAll_no_underscore|by left]. }
  apply definedClass_None in H1.
  destruct (definedClass tables (Js.get (fileExtensions tables) (longExtension lower)))
    as [c2|] eqn:H2.
  { apply definedClass_Some in H2 as (hit & (Hk & Hh)%get_Some & Hi & ->).
    exists hit. repeat split; try done; [apply replaceAll_no_underscore|].
    right. by left. }
  destruct Hext as [Hlong|Hshort].
  { by rewrite (definedClass_hit tables _ _ name Hlong Hne Hin) in H2. }
  apply definedClass_None in H2.
  rewrite (definedClass_hit tables _ _ name Hshort Hne Hin).
  exists name. repeat split; try done; [apply replaceAll_no_underscore|].
  right. by right.
Qed.

Lemma resolveIcon_known_extension_witness :
  fst (resolveIcon (Some "App.SLN") None (world None (Some underscoreData)))
  = Returned (Some "i-material-icon-theme:visual-studio").
Proof.
  destruct (resolveIcon_known_extension
              (world None (Some underscoreData)) underscoreData None
              "App.SLN" None "visual_studio")
    as (hit & -> & _ & _ & _ & [Hhit|[[_ Hhit]|(_ & _ & Hhit)]]).
  - reflexivity.
  - reflexivity.
  - reflexivity.
  - discriminate.
  - reflexivity.
  - reflexivity.
  - left. reflexivity.
  - discriminate.
  - vm_compute. set_solver.
  - discriminate Hhit.
  - by injection Hhit as <-.
  - by injection Hhit as <-.
Defined.

(** The extension [ts] is in the File-Extension Map with a defined icon,
    and the name with the suffix [.svelte.ts] gets the fixed class of the
    plugin, which is not of the form [i-material-icon-theme:<name>]. *)
Lemma resolveIcon_known_extension_counterexample :
  let w := world None (Some sampleData) in
  let tables := materialIcons sampleData in
  shortExtension (lowerFileName "app.svelte.ts") = "ts"
  /\ fileExtensions tables !! "ts" = Some "typescript"
  /\ bool_decide ("typescript" ∈ iconDefinitions tables) = true
  /\ fst (resolveIcon (Some "app.svelte.ts") None w)
     = Returned (Some "i-starlight-plugin-icons:svelte-ts")
  /\ Js.startsWith "i-material-icon-theme:" "i-starlight-plugin-icons:svelte-ts"
     = false.
Proof. vm_compute. repeat split. Qed.

(** C4, as amended.  [resolveFolderIcon] trims the name, strips trailing
    separators and lowers the case.  (1) A non-empty override under
    [folder-open:<name>] (open) or [folder:<name>] (closed) is returned
    first.  (2) Otherwise, with the icon data available, the expanded
    (open) or collapsed (closed) Folder-Name Map is probed: a non-empty
    icon name with a definition gives [i-material-icon-theme:<name>], and a
    miss gives the default open or closed folder class of the plugin.
    (3) So, with the data available and no override for the name, the open
    and the closed call return distinct classes whenever the two entries
    still differ once underscores are replaced by hyphens, and both return
    the defaults when the name is in neither map.  (4) With the data
    unavailable and no override under the key, the result is
    [undefined]. *)
Theorem resolveFolderIcon_resolution
    (w : World) (icons : option (gmap string string)) (folderName : string) :
  let lower := Js.toLowerCase (Js.stripTrailingSeparators (Js.trim folderName)) in
  let key (isOpen : bool) :=
    (if isOpen then "folder-open" else "folder") +:+ ":" +:+ lower in
  let override isOpen := icons ≫= (fun m => Js.get m (key isOpen)) in
  let result isOpen := fst (resolveFolderIcon folderName isOpen w) in
  fst (getCustomFileIcons w) = Returned icons ->
  (forall isOpen m icon,
     icons = Some m -> m !! key isOpen = Some icon -> icon <> "" ->
     result isOpen = Returned (Some icon))
  /\ (forall isOpen data,
        override isOpen = None ->
        fst (getMaterialIconsData w) = Returned (Some data) ->
        let tables := materialIcons data in
        let table := if isOpen then folderNamesExpanded tables
                     else folderNames tables in
        (forall name,
           table !! lower = Some name -> name <> "" ->
           name ∈ iconDefinitions tables ->
           result isOpen
           = Returned (Some ("i-material-icon-theme:" +:+ Js.replaceAll "_" "-" name)))
        /\ (misses tables table lower ->
            result isOpen
            = Returned (Some (if isOpen then "i-starlight-plugin-icons:folder-open"
                              else "i-starlight-plugin-icons:folder"))))
  /\ (forall data,
        override true = None -> override false = None ->
        fst (getMaterialIconsData w) = Returned (Some data) ->
        let tables := materialIcons data in
        (forall expanded collapsed,
           folderNamesExpanded tables !! lower = Some expanded ->
           folderNames tables !! lower = Some collapsed ->
           Js.replaceAll "_" "-" expanded <> Js.replaceAll "_" "-" collapsed ->
           result true <> result false)
        /\ (folderNamesExpanded tables !! lower = None ->
            folderNames tables !! lower = None ->
            result true = Returned (Some "i-starlight-plugin-icons:folder-open")
            /\ result false = Returned (Some "i-starlight-plugin-icons:folder")))
  /\ (forall isOpen,
        override isOpen = None ->
        fst (getMaterialIconsData w) = Returned None ->
        result isOpen = Returned None).
Proof.
  intros lower key override result Hc%getCustomFileIcons_customIconsOf.
  assert (forall isOpen, result isOpen
    = Returned
        match override isOpen with
        | Some icon => Some icon
        | None =>
            match availableData w with
            | Some data =>
                match definedClass (materialIcons data)
                        (Js.get (folderTable (materialIcons data) isOpen) lower) with
                | Some class => Some class
                | None => Some (if isOpen then FOLDER_OPEN else FOLDER)
                end
            | None => None
            end
        end) as Hres.
  { intros isOpen. unfold result. rewrite resolveFolderIcon_result. by rewrite Hc. }
  split; [|split; [|split]]; cycle 3.
  { intros isOpen Ho Hd%getMaterialIconsData_available. by rewrite Hres, Ho, Hd. }
  - intros isOpen m icon -> Hk Hne. rewrite Hres. unfold override. simpl.
    by rewrite (proj2 (get_Some m (key isOpen) icon) (conj Hk Hne)).
  - intros isOpen data Ho Hd%getMaterialIconsData_available tables table.
    rewrite Hres, Ho, Hd. fold tables.
    change (folderTable tables isOpen) with table. split.
    + intros name Hk Hne Hin.
      by rewrite (definedClass_hit tables table lower name Hk Hne Hin).
    + intros Hmiss%definedClass_None. by rewrite Hmiss.
  - intros data Ht Hf Hd%getMaterialIconsData_available tables.
    rewrite !Hres, Ht, Hf, Hd. fold tables. simpl. split.
    + intros expanded collapsed He Hcl Hdiff Heq.
      destruct (definedClass tables (Js.get (folderNamesExpanded tables) lower))
        as [c1|] eqn:H1;
        destruct (definedClass tables (Js.get (folderNames tables) lower))
          as [c2|] eqn:H2; injection Heq as Heq; try done.
      * apply definedClass_Some in H1 as (n1 & (Hk1 & _)%get_Some & _ & ->).
        apply definedClass_Some in H2 as (n2 & (Hk2 & _)%get_Some & _ & ->).
        apply materialClass_inj in Heq. congruence.
      * apply definedClass_Some in H1 as (n1 & _ & _ & ->).
        by apply (materialClass_not_folder n1 false).
      * apply definedClass_Some in H2 as (n2 & _ & _ & ->).
        by apply (materialClass_not_folder n2 true).
    + intros He Hcl. unfold Js.get. by rewrite He, Hcl.
Qed.

Lemma resolveFolderIcon_resolution_witness :
  let w := world (Some folderOverrides) (Some sampleData) in
  fst (resolveFolderIcon "assets" false w) = Returned (Some "i-custom:assets")
  /\ fst (resolveFolderIcon "Src/" true w)
     = Returned (Some "i-material-icon-theme:folder-src-open")
  /\ fst (resolveFolderIcon "lib" false w)
     = Returned (Some "i-starlight-plugin-icons:folder")
  /\ fst (resolveFolderIcon "Src/" true w) <> fst (resolveFolderIcon "Src/" false w)
  /\ fst (resolveFolderIcon "lib" true w)
     = Returned (Some "i-starlight-plugin-icons:folder-open")
  /\ fst (resolveFolderIcon "lib" true (world (Some folderOverrides) None))
     = Returned None.
Proof.
  intros w.
  pose proof (resolveFolderIcon_resolution w (Some folderOverrides) "assets" eq_refl)
    as (Hover & _ & _ & _).
  pose proof (resolveFolderIcon_resolution w (Some folderOverrides) "Src/" eq_refl)
    as (_ & Hsrc & Hsrc' & _).
  pose proof (resolveFolderIcon_resolution w (Some folderOverrides) "lib" eq_refl)
    as (_ & Hlib & Hlib' & _).
  pose proof (resolveFolderIcon_resolution (world (Some folderOverrides) None)
                (Some folderOverrides) "lib" eq_refl)
    as (_ & _ & _ & Hnone).
  split; [|split; [|split; [|split; [|split]]]]; cycle 5.
  { apply (Hnone true); reflexivity. }
  - apply (Hover false folderOverrides "i-custom:assets");
      [reflexivity | reflexivity | discriminate].
  - apply (proj1 (Hsrc true sampleData eq_refl eq_refl) "folder-src-open");
      [reflexivity | discriminate | vm_compute; set_solver].
  - apply (proj2 (Hlib false sampleData eq_refl eq_refl)).
    intros name Hname. discriminate Hname.
  - apply (proj1 (Hsrc' sampleData eq_refl eq_refl eq_refl)
             "folder-src-open" "folder-src");
      [reflexivity | reflexivity | discriminate].
  - apply (proj2 (Hlib' sampleData eq_refl eq_refl eq_refl)); reflexivity.
Defined.

(** Two inputs.  With no icon data to be had, a folder without override
    gets [undefined], not the default class.  With the data of
    [underscoreData], the entries of [src] in the expanded and in the
    collapsed map differ, [folder-src] and [folder_src], and the open and
    the closed call return the same class. *)
Lemma resolveFolderIcon_resolution_counterexample :
  (fst (resolveFolderIcon "src" true (world None None)) = Returned None
   /\ fst (resolveFolderIcon "src" false (world None None)) = Returned None)
  /\ (let tables := materialIcons underscoreData in
      let w := world None (Some underscoreData) in
      folderNamesExpanded tables !! "src" = Some "folder-src"
      /\ folderNames tables !! "src" = Some "folder_src"
      /\ fst (resolveFolderIcon "src" true w)
         = Returned (Some "i-material-icon-theme:folder-src")
      /\ fst (resolveFolderIcon "src" false w)
         = Returned (Some "i-material-icon-theme:folder-src")).
Proof. vm_compute. repeat split. Qed.

(** ** The scanner *)

(** A match of [codeBlockRegex] whose language group is [sh] is dropped
    before any lookup, whatever its title group: [getIconDetails] returns
    [null] and leaves the world as it is (no call of the resolver, no
    request), the match adds nothing to the set of used icons, and the scan
    of the matches of a file goes as if those with [sh] were not there. *)
Lemma shell_blocks_are_skipped
    (title_ : option string) (usedIcons : gset string) (w : World)
    (blocks : list Regex.CodeBlock) :
  getIconDetails title_ (Some "sh") w = (Returned None, w)
  /\ scanCodeBlock {| Regex.lang := Some "sh"; Regex.title := title_ |} usedIcons w
     = (Returned usedIcons, w)
  /\ forEach scanCodeBlock blocks usedIcons w
     = forEach scanCodeBlock
         (filter (fun b => Regex.lang b <> Some "sh") blocks) usedIcons w.
Proof.
  split; [done|]. split; [done|].
  revert usedIcons w. induction blocks as [|b rest IH]; intros usedIcons w; [done|].
  rewrite filter_cons. destruct (decide (Regex.lang b <> Some "sh")) as [Hne|Heq].
  - simpl. unfold bind. destruct (scanCodeBlock b usedIcons w) as [[acc|e] w1]; [|done].
    apply IH.
  - apply dec_stable in Heq. simpl. unfold bind, scanCodeBlock at 1, getIconDetails.
    rewrite Heq. simpl. apply IH.
Qed.

(** C8, on a page where the code departs from it.  On [adjacentPage] the
    opening fence of the [sh] block, with the title [run.ts], follows the
    closing fence of the block before it.  The expression of line 7 matches
    that closing fence, takes the line feed for the white space of its
    optional group and reads the title of the fence on the next line: the
    matches are ([js], no title), (no language, [run.ts]) and the last
    closing fence, none with the language [sh].  So the guard of
    [getIconDetails] does not fire for the [sh] block, [resolveIcon] is
    called with its title and the class of [.ts] files is collected.  With
    a blank line between the two fences the [sh] block is matched as such
    and skipped: no lookup for [run.ts], no class from it. *)
Theorem shell_block_after_closing_fence :
  let collected (w : World) :=
    match collectIcons None w with
    | (Returned usedIcons, w') => Some (sort (elements usedIcons), trace w')
    | (Threw _, _) => None
    end in
  Regex.codeBlockRegex adjacentPage
  = [ {| Regex.lang := Some "js"; Regex.title := None |};
      {| Regex.lang := None; Regex.title := Some "run.ts" |};
      {| Regex.lang := None; Regex.title := None |} ]
  /\ collected (pageWorld adjacentPage)
     = Some ([ "i-material-icon-theme:document";
               "i-material-icon-theme:typescript" ],
             [ CallResolveIcon None (Some "js");
               CallResolveIcon (Some "run.ts") None;
               CallResolveIcon None None ])
  /\ Regex.codeBlockRegex separatedPage
     = [ {| Regex.lang := Some "js"; Regex.title := None |};
         {| Regex.lang := None; Regex.title := None |};
         {| Regex.lang := Some "sh"; Regex.title := Some "run.ts" |};
         {| Regex.lang := None; Regex.title := None |} ]
  /\ collected (pageWorld separatedPage)
     = Some ([ "i-material-icon-theme:document" ],
             [ CallResolveIcon None (Some "js");
               CallResolveIcon None None;
               CallResolveIcon None None ]).
Proof. vm_compute. repeat split. Qed.

(** C9.  A line of a tree diagram whose normalised entry name is the
    ASCII ellipsis, its mis-decoded form, or empty contributes nothing:
    the set of used icons and the world are unchanged, so no resolver was
    called for it. *)
Theorem ellipsis_and_empty_entries_are_skipped
    (lines : list Line) (i : nat) (line : Line)
    (usedIcons : gset string) (w : World) :
  lines !! i = Some line ->
  entryNameOf line = "..." \/ entryNameOf line = "â€¦" \/ entryNameOf line = "" ->
  scanLine lines i usedIcons w = (Returned usedIcons, w).
Proof.
  intros Hline Hname. unfold scanLine. rewrite Hline.
  assert (skipped line = true) as ->; [|done].
  unfold skipped. destruct Hname as [-> | [-> | ->]];
    by rewrite ?orb_true_r.
Qed.

Lemma ellipsis_and_empty_entries_are_skipped_witness :
  let w := world None (Some sampleData) in
  scanLine elidedTree 1 ∅ w = (Returned ∅, w)
  /\ scanLine elidedTree 2 ∅ w = (Returned ∅, w)
  /\ scanLine elidedTree 3 ∅ w = (Returned ∅, w).
Proof.
  intros w. split; [|split].
  - apply (ellipsis_and_empty_entries_are_skipped elidedTree 1
             {| indentation := 2; content := "- ..." |}); [reflexivity|].
    left. reflexivity.
  - apply (ellipsis_and_empty_entries_are_skipped elidedTree 2
             {| indentation := 2; content := "- **â€¦**" |}); [reflexivity|].
    right. left. reflexivity.
  - apply (ellipsis_and_empty_entries_are_skipped elidedTree 3
             {| indentation := 2; content := "- ``" |}); [reflexivity|].
    right. right. reflexivity.
Defined.









(** ** The data store *)

(** What a call leaves behind: the data it returns are kept in memory, and
    a call that returns nothing stores nothing. *)
Lemma getMaterialIconsData_final w :
  exists w',
    getMaterialIconsData w = (Returned (availableData w), w')
    /\ (forall data, availableData w = Some data -> cachedData w' = Some data)
    /\ (availableData w = None -> cachedData w' = None /\ disk w' = disk w).
Proof.
  unfold availableData. run.
  split_cases; try congruence;
    (eexists; split; [reflexivity|]); simpl;
    (split; [by intros data [= <-] | try done; by intros [= ]]).
Qed.

(** C7.  [getMaterialIconsData] returns in every world: a rejected
    request, a response that is not [ok], a body that does not parse and
    an unreadable cache file never escape as an exception.  With nothing in
    memory and no usable disk cache, the failure of any of the three
    requests gives [undefined].  The result is all or nothing: data come
    whole from memory, whole from the disk cache, or whole from the remote
    source, never one table from one place and one from another; and when
    the result is [undefined] nothing has been stored, in memory or on
    disk. *)
Theorem getMaterialIconsData_never_throws (w : World) :
  exists result w',
    getMaterialIconsData w = (Returned result, w')
    /\ (cachedData w = None ->
        (forall v, text (network w) VERSION_URL = Some v ->
                   ~ usableCache (disk w) (Js.trim v)) ->
        text (network w) VERSION_URL = None
        \/ jsonLanguageMap (network w) LANGUAGE_MAP_URL = None
        \/ jsonMaterialIcons (network w) MATERIAL_ICONS_URL = None ->
        result = None)
    /\ (forall data, result = Some data ->
          cachedData w = Some data
          \/ (languageMapFile (disk w) = Some (languageMap data)
              /\ materialIconsFile (disk w) = Some (materialIcons data))
          \/ (jsonLanguageMap (network w) LANGUAGE_MAP_URL = Some (languageMap data)
              /\ jsonMaterialIcons (network w) MATERIAL_ICONS_URL
                 = Some (materialIcons data)))
    /\ (forall data, result = Some data -> cachedData w' = Some data)
    /\ (result = None -> cachedData w' = None /\ disk w' = disk w).
Proof.
  destruct (getMaterialIconsData_final w) as (w' & Hrun & Hsome & Hnone).
  exists (availableData w), w'.
  split; [done|]. split; [|split; [|split; [done|done]]].
  - intros Hc Hcache Hfail. unfold availableData. rewrite Hc.
    destruct (text (network w) VERSION_URL) as [v|] eqn:Hv; [|done].
    assert (jsonLanguageMap (network w) LANGUAGE_MAP_URL = None
            \/ jsonMaterialIcons (network w) MATERIAL_ICONS_URL = None) as Hjson.
    { destruct Hfail as [?|[?|?]]; [done|by left|by right]. }
    assert (match jsonLanguageMap (network w) LANGUAGE_MAP_URL,
                  jsonMaterialIcons (network w) MATERIAL_ICONS_URL with
            | Some l, Some m => Some {| languageMap := l; materialIcons := m |}
            | _, _ => None
            end = None) as ->.
    { destruct Hjson as [-> | ->]; [done|by destruct (jsonLanguageMap _ _)]. }
    destruct (decide _) as [Heq|]; [|done].
    destruct (languageMapFile (disk w)) as [l|] eqn:Hl; [|done].
    destruct (materialIconsFile (disk w)) as [m|] eqn:Hm; [|done].
    destruct (Hcache v eq_refl). unfold usableCache. rewrite Hl, Hm. eauto.
  - unfold availableData. intros data Hdata.
    destruct (cachedData w) as [d|]; [by left|]. right.
    destruct (text (network w) VERSION_URL) as [v|]; [|done].
    assert (match jsonLanguageMap (network w) LANGUAGE_MAP_URL,
                  jsonMaterialIcons (network w) MATERIAL_ICONS_URL with
            | Some l, Some m => Some {| languageMap := l; materialIcons := m |}
            | _, _ => None
            end = Some data ->
            jsonLanguageMap (network w) LANGUAGE_MAP_URL = Some (languageMap data)
            /\ jsonMaterialIcons (network w) MATERIAL_ICONS_URL
               = Some (materialIcons data)) as Hserved.
    { destruct (jsonLanguageMap _ _); [|done].
      destruct (jsonMaterialIcons _ _); [|done]. by intros [= <-]. }
    destruct (decide _); [|by right; apply Hserved].
    destruct (languageMapFile (disk w)) as [l|]; [|by right; apply Hserved].
    destruct (materialIconsFile (disk w)) as [m|]; [|by right; apply Hserved].
    injection Hdata as <-. by left.
Qed.

Lemma getMaterialIconsData_never_throws_witness :
  (fst (getMaterialIconsData halfServedWorld) = Returned None
   /\ cachedData (snd (getMaterialIconsData halfServedWorld)) = None
   /\ disk (snd (getMaterialIconsData halfServedWorld)) = staleCache)
  /\ (fst (getMaterialIconsData servedWorld) = Returned (Some sampleData)
      /\ cachedData (snd (getMaterialIconsData servedWorld)) = Some sampleData).
Proof.
  split.
  - destruct (getMaterialIconsData_never_throws halfServedWorld)
      as (result & w' & -> & Hfail & _ & _ & Hnone).
    assert (result = None) as ->.
    { apply Hfail.
      - reflexivity.
      - intros v Hv. vm_compute in Hv. injection Hv as <-.
        intros (Hversion & _). vm_compute in Hversion. discriminate Hversion.
      - right. right. reflexivity. }
    destruct (Hnone eq_refl) as [Hmem Hdisk]. by repeat split.
  - destruct (getMaterialIconsData_never_throws servedWorld)
      as (result & w' & Hrun & _ & Hwhole & Hkept & _).
    assert (fst (getMaterialIconsData servedWorld) = Returned (Some sampleData))
      as Hserved by reflexivity.
    rewrite Hrun in Hserved. simpl in Hserved. injection Hserved as ->.
    rewrite Hrun. simpl. split; [reflexivity|].
    apply (Hkept sampleData eq_refl).
Defined.

(** ** The safelist *)

Lemma Steady_scanDirectory entryName usedIcons :
  Steady (scanDirectory entryName usedIcons).
Proof.
  unfold scanDirectory. apply Steady_bind.
  - apply Steady_PromiseAll; apply Steady_resolveFolderIcon.
  - intros [closedIcon openIcon]. apply Steady_ret.
Qed.

Lemma Steady_scanFileEntry entryName usedIcons :
  Steady (scanFileEntry entryName usedIcons).
Proof.
  unfold scanFileEntry. apply Steady_bind; [apply Steady_resolveIcon|].
  intros icon. apply Steady_ret.
Qed.

Lemma Steady_scanLine lines i usedIcons : Steady (scanLine lines i usedIcons).
Proof.
  unfold scanLine. destruct (lines !! i) as [line|]; [|apply Steady_ret].
  destruct (skipped line); [apply Steady_ret|].
  destruct (isDirectory _ _ _);
    [apply Steady_scanDirectory|apply Steady_scanFileEntry].
Qed.

Lemma Steady_scanFileTree fileTreeContent usedIcons :
  Steady (scanFileTree fileTreeContent usedIcons).
Proof.
  unfold scanFileTree. destruct (negb _); [apply Steady_ret|].
  apply Steady_forEach. intros i acc. apply Steady_scanLine.
Qed.

Lemma Steady_getIconDetails title_ language_ :
  Steady (getIconDetails title_ language_).
Proof.
  unfold getIconDetails. destruct (decide _); [apply Steady_ret|].
  apply Steady_bind; [apply Steady_resolveIcon|]. intros icon. apply Steady_ret.
Qed.

Lemma Steady_scanCodeBlock m usedIcons : Steady (scanCodeBlock m usedIcons).
Proof.
  unfold scanCodeBlock. apply Steady_bind; [apply Steady_getIconDetails|].
  intros [details|]; apply Steady_ret.
Qed.

Lemma Steady_scanContent content_ usedIcons :
  Steady (scanContent content_ usedIcons).
Proof.
  unfold scanContent. apply Steady_bind.
  - apply Steady_forEach. intros m acc. apply Steady_scanCodeBlock.
  - intros acc. apply Steady_forEach. intros tree acc'. apply Steady_scanFileTree.
Qed.

(** A missing configuration file is passed over. *)
Lemma Steady_scanConfig cfg usedIcons : Steady (scanConfig cfg usedIcons).
Proof.
  intros w. unfold scanConfig. run.
  destruct (configFiles (disk w) !! cfg) as [source|] eqn:Hcfg.
  - eexists _, w. split; [reflexivity|]. split; [apply frame_refl|].
    intros v (_ & _ & _ & Hv). by rewrite <- Hv, Hcfg.
  - eexists _, w. split; [reflexivity|]. split; [apply frame_refl|].
    intros v (_ & _ & _ & Hv). by rewrite <- Hv, Hcfg.
Qed.

Lemma Steady_collectIcons customFileIcons : Steady (collectIcons customFileIcons).
Proof.
  unfold collectIcons.
  apply Steady_bind; [apply Steady_read; by intros w v (_ & _ & ? & _)|].
  intros files. apply Steady_bind.
  { destruct (decide _); [by apply Steady_emit|apply Steady_ret]. }
  intros _. apply Steady_bind.
  { apply Steady_forEach. intros c acc. apply Steady_scanContent. }
  intros usedIcons. apply Steady_bind.
  { apply Steady_forEach. intros c acc. apply Steady_scanConfig. }
  intros usedIcons'. apply Steady_ret.
Qed.

(** The list that is written: sorted, without duplicates, and with the
    elements of the set of used icons. *)
Lemma newSafelist_sorted (usedIcons : gset string) :
  let newSafelist := sort (elements usedIcons) in
  StronglySorted String.le newSafelist
  /\ NoDup newSafelist
  /\ forall class, class ∈ newSafelist <-> class ∈ usedIcons.
Proof.
  unfold sort. split; [|split].
  - apply StronglySorted_merge_sort; apply _.
  - rewrite merge_sort_Permutation. apply NoDup_elements.
  - intros class. rewrite merge_sort_Permutation. apply elem_of_elements.
Qed.

Lemma newSafelist_empty (usedIcons : gset string) :
  length (sort (elements usedIcons)) = 0 <-> usedIcons = ∅.
Proof.
  unfold sort. rewrite merge_sort_Permutation.
  rewrite length_zero_iff_nil, elements_empty_iff. by unfold_leibniz.
Qed.

(** The three ways [persist] ends. *)
Lemma persist_unchanged usedIcons w :
  safelistFile (disk w) = Some (JSON.stringify (sort (elements usedIcons))) ->
  persist usedIcons w
  = (Returned false, withTrace (trace w ++ [Log SafelistUpToDate]) w).
Proof.
  intros Hfile. unfold persist. run. rewrite Hfile. simpl.
  by rewrite decide_True.
Qed.

Lemma persist_nothing usedIcons w :
  safelistFile (disk w) = None -> usedIcons = ∅ ->
  persist usedIcons w = (Returned false, w).
Proof.
  intros Hfile Hempty%newSafelist_empty. unfold persist. run. rewrite Hfile. simpl.
  by rewrite decide_True.
Qed.

Lemma persist_written usedIcons w :
  safelistFile (disk w) <> Some (JSON.stringify (sort (elements usedIcons))) ->
  (safelistFile (disk w) = None -> usedIcons <> ∅) ->
  exists w',
    persist usedIcons w = (Returned true, w')
    /\ safelistFile (disk w') = Some (JSON.stringify (sort (elements usedIcons)))
    /\ sameInputs w w' /\ coldData w' = coldData w
    /\ trace w'
       = trace w ++ [Mkdir CACHE_DIR; WriteFile safelistPath;
                     Log (SafelistGenerated (size usedIcons))].
Proof.
  intros Hdiff Hnonempty. unfold persist. run.
  destruct (safelistFile (disk w)) as [current|] eqn:Hfile; simpl.
  - rewrite decide_False by congruence. simpl.
    eexists. split; [reflexivity|]. simpl. split; [done|].
    split; [by repeat split|]. split; [done|]. by rewrite <- !app_assoc.
  - rewrite decide_False by (rewrite newSafelist_empty; auto). simpl.
    eexists. split; [reflexivity|]. simpl. split; [done|].
    split; [by repeat split|]. split; [done|]. by rewrite <- !app_assoc.
Qed.



Lemma generateSafelist_run customFileIcons w usedIcons w0 :
  collectIcons customFileIcons w = (Returned usedIcons, w0) ->
  generateSafelist customFileIcons w = persist usedIcons w0.
Proof. intros Hrun. unfold generateSafelist, bind. by rewrite Hrun. Qed.








(** ** The fuel of the matchers is enough *)

#[local] Arguments Js.startsWith : simpl never.

#[local] Arguments Js.substring : simpl never.

#[local] Arguments Regex.codeBlockAt : simpl never.

#[local] Arguments Regex.iconClassAt : simpl never.

Lemma substring_length n s :
  String.length (Js.substring n s) = String.length s - n.
Proof.
  revert s. induction n as [|n IH]; intros [|c r]; try done. apply IH.
Qed.

Lemma span_length p s :
  String.length (fst (Regex.span p s)) + String.length (snd (Regex.span p s))
  = String.length s.
Proof.
  induction s as [|c r IH]; simpl; [done|].
  destruct (p c); [|done].
  destruct (Regex.span p r) as [a b]. simpl in *. lia.
Qed.

Lemma lazyTitle_length s t rest :
  Regex.lazyTitle s = Some (t, rest) -> String.length rest < String.length s.
Proof.
  induction s as [|c r IH]; [done|]. simpl.
  - destruct (Js.startsWith _ (String c r)) eqn:Hp.
    + pose proof (span_length (fun c => negb (Ascii.eqb c Regex.QUOTE))
                    (Js.substring 7 (String c r))) as Hlen.
      rewrite substring_length in Hlen.
      destruct (Regex.span _ _) as [[|x a] [|y b]]; simpl in *.
      * destruct (Ascii.eqb c Regex.LF); [done|].
        intros H%IH. lia.
      * destruct (Ascii.eqb c Regex.LF); [done|].
        intros H%IH. lia.
      * destruct (Ascii.eqb c Regex.LF); [done|].
        intros H%IH. lia.
      * intros [= <- <-]. lia.
    + destruct (Ascii.eqb c Regex.LF); [done|].
      intros H%IH. lia.
Qed.

Lemma langAt_length s :
  String.length (snd (Regex.langAt s)) <= String.length s.
Proof.
  destruct s as [|c r]; [done|]. unfold Regex.langAt.
  destruct (Regex.isLetter c); [|done].
  pose proof (span_length Regex.isWord (String c r)) as Hlen.
  destruct (Regex.span Regex.isWord (String c r)) as [l rest].
  simpl in *. lia.
Qed.

Lemma codeBlockAt_length s :
  String.length (snd (Regex.codeBlockAt s)) <= String.length s.
Proof.
  unfold Regex.codeBlockAt. pose proof (langAt_length s) as Hlang.
  destruct (Regex.langAt s) as [lang_ afterLang]. simpl in Hlang.
  destruct afterLang as [|c r]; [done|].
  destruct (Js.isSpace c); [|done].
  destruct (Regex.lazyTitle r) as [[t rest]|] eqn:Ht; [|done].
  apply lazyTitle_length in Ht. simpl in *. lia.
Qed.

Lemma codeBlocksFrom_fuel n m s :
  String.length s <= n -> String.length s <= m ->
  Regex.codeBlocksFrom n s = Regex.codeBlocksFrom m s.
Proof.
  revert m s. induction n as [|n IH]; intros [|m] [|c r] Hn Hm;
    simpl in *; try done; try lia.
  destruct (Js.startsWith _ _).
  - pose proof (codeBlockAt_length (Js.substring 3 (String c r))) as Hlen.
    rewrite substring_length in Hlen. simpl in Hlen.
    destruct (Regex.codeBlockAt _) as [b rest]. simpl in Hlen.
    f_equal. apply IH; lia.
  - apply IH; lia.
Qed.

Lemma untilClose_length s body rest :
  Regex.untilClose s = Some (body, rest) -> String.length rest <= String.length s.
Proof.
  revert body. induction s as [|c r IH]; intros body; [done|].
  change (Regex.untilClose (String c r))
    with (if Js.startsWith "</FileTree>" (String c r)
          then Some (EmptyString, Js.substring 11 (String c r))
          else match Regex.untilClose r with
               | Some (body, rest) => Some (String c body, rest)
               | None => None
               end).
  destruct (Js.startsWith _ (String c r)).
  - intros [= <- <-]. rewrite substring_length. lia.
  - destruct (Regex.untilClose r) as [[b rest']|]; [|done].
    intros [= <- <-]. specialize (IH b eq_refl). simpl. lia.
Qed.

Lemma fileTreesFrom_fuel n m s :
  String.length s <= n -> String.length s <= m ->
  Regex.fileTreesFrom n s = Regex.fileTreesFrom m s.
Proof.
  revert m s. induction n as [|n IH]; intros [|m] [|c r] Hn Hm;
    simpl in *; try done; try lia.
  destruct (Js.startsWith _ _); [|apply IH; lia].
  destruct (Regex.untilClose _) as [[body rest]|] eqn:Hu; [|apply IH; lia].
  apply untilClose_length in Hu. rewrite substring_length in Hu. simpl in Hu.
  f_equal. apply IH; lia.
Qed.

Lemma iconClassAt_length s m rest :
  Regex.iconClassAt s = Some (m, rest) -> String.length rest < String.length s.
Proof.
  unfold Regex.iconClassAt. destruct s as [|i [|dash r]]; try done.
  destruct (_ && _); [|done].
  pose proof (span_length Regex.isClassHead r) as H1.
  destruct (Regex.span Regex.isClassHead r) as [[|h hs] [|colon r']]; try done.
  destruct (Ascii.eqb colon ":"); [|done].
  pose proof (span_length Regex.isClassTail r') as H2.
  destruct (Regex.span Regex.isClassTail r') as [[|t ts] rest']; [done|].
  intros [= <- <-]. simpl in *. lia.
Qed.

Lemma iconClassesFrom_fuel n m s :
  String.length s <= n -> String.length s <= m ->
  Regex.iconClassesFrom n s = Regex.iconClassesFrom m s.
Proof.
  revert m s. induction n as [|n IH]; intros [|m] [|c r] Hn Hm;
    simpl in *; try done; try lia.
  destruct (Regex.iconClassAt (String c r)) as [[x rest]|] eqn:Hi.
  - apply iconClassAt_length in Hi. simpl in Hi. f_equal. apply IH; lia.
  - apply IH; lia.
Qed.

(** * Further properties *)

(** ** The data store: memory, disk cache, remote source *)

(** X1.  Memoisation (lines 249 to 251 and 280).  Once a call has handed
    out data, every later call of the same module instance returns the
    same data and does nothing else: no request, no file access, no log,
    whatever has become of the remote source and of the disk since. *)
Theorem getMaterialIconsData_memoized (w w1 w2 : World) (data : MaterialIconsData) :
  getMaterialIconsData w = (Returned (Some data), w1) ->
  cachedData w2 = cachedData w1 ->
  getMaterialIconsData w2 = (Returned (Some data), w2).
Proof.
  intros Hrun Hmem.
  destruct (getMaterialIconsData_final w) as (w' & Hrun' & Hkept & _).
  rewrite Hrun in Hrun'. injection Hrun' as Hdata <-.
  specialize (Hkept data (eq_sym Hdata)).
  unfold getMaterialIconsData, bind, read. simpl.
  by rewrite Hmem, Hkept.
Qed.

Lemma getMaterialIconsData_memoized_witness :
  let w1 := snd (getMaterialIconsData servedWorld) in
  let w2 := withNetwork offline (withDisk emptyDisk w1) in
  getMaterialIconsData w2 = (Returned (Some sampleData), w2).
Proof.
  intros w1 w2.
  apply (getMaterialIconsData_memoized servedWorld w1 w2 sampleData).
  - vm_compute. reflexivity.
  - reflexivity.
Defined.

(** X2.  A cold start on a warm disk cache (lines 254 to 262 and 280).
    With nothing in memory, the version marker served, the version file
    holding the served marker trimmed, and both table files readable, the
    call returns the tables of the disk: its only request is the one for
    the version marker, it writes nothing and logs nothing, and it keeps
    the data in memory. *)
Theorem getMaterialIconsData_cache_hit
    (w : World) (v : string) (l : LanguageMap.t) (m : MaterialIcons) :
  cachedData w = None ->
  text (network w) VERSION_URL = Some v ->
  versionFile (disk w) = Some (Js.trim v) ->
  languageMapFile (disk w) = Some l ->
  materialIconsFile (disk w) = Some m ->
  let data := {| languageMap := l; materialIcons := m |} in
  getMaterialIconsData w
  = (Returned (Some data),
     withCachedData (Some data) (withTrace (trace w ++ [Fetch VERSION_URL]) w)).
Proof.
  intros Hmem Hv Hfile Hl Hm data. run.
  rewrite Hmem, Hv. simpl. rewrite Hfile. simpl.
  destruct (decide _) as [_|Hne]; [|done]. simpl.
  rewrite Hl. simpl. by rewrite Hm.
Qed.

Lemma getMaterialIconsData_cache_hit_witness :
  getMaterialIconsData warmCache
  = (Returned (Some sampleData),
     withCachedData (Some sampleData)
       (withTrace [Fetch VERSION_URL] warmCache)).
Proof.
  apply (getMaterialIconsData_cache_hit warmCache "2.0
" (languageMap sampleData) (materialIcons sampleData)); reflexivity.
Defined.

(** X3.  A refresh (lines 264 to 281).  With nothing in memory, the
    version marker served, no usable disk cache for it, and both tables
    served, the call returns the served tables and leaves a disk cache
    that is usable for the served version: the version file holds the
    trimmed marker and the table files hold what was returned, while the
    content files, the configuration files and the safelist are as
    before.  So a later process on that disk gets the same data from the
    disk with a single request, the one for the version marker. *)
Theorem getMaterialIconsData_refresh
    (w : World) (v : string) (l : LanguageMap.t) (m : MaterialIcons) :
  cachedData w = None ->
  text (network w) VERSION_URL = Some v ->
  ~ usableCache (disk w) (Js.trim v) ->
  jsonLanguageMap (network w) LANGUAGE_MAP_URL = Some l ->
  jsonMaterialIcons (network w) MATERIAL_ICONS_URL = Some m ->
  let data := {| languageMap := l; materialIcons := m |} in
  exists w',
    getMaterialIconsData w = (Returned (Some data), w')
    /\ versionFile (disk w') = Some (Js.trim v)
    /\ languageMapFile (disk w') = Some l
    /\ materialIconsFile (disk w') = Some m
    /\ contentFiles (disk w') = contentFiles (disk w)
    /\ configFiles (disk w') = configFiles (disk w)
    /\ safelistFile (disk w') = safelistFile (disk w)
    /\ getMaterialIconsData (newProcess w')
       = (Returned (Some data),
          withCachedData (Some data)
            (withTrace (trace w' ++ [Fetch VERSION_URL]) (newProcess w'))).
Proof.
  intros Hmem Hv Hcache Hl Hm data.
  assert (forall w' : World,
            cachedData w' = None -> network w' = network w ->
            versionFile (disk w') = Some (Js.trim v) ->
            languageMapFile (disk w') = Some l ->
            materialIconsFile (disk w') = Some m ->
            getMaterialIconsData w'
            = (Returned (Some data),
               withCachedData (Some data)
                 (withTrace (trace w' ++ [Fetch VERSION_URL]) w'))) as Hnext.
  { intros w' Hmem' Hnet Hfile Hl' Hm'. run.
    rewrite Hmem', Hnet, Hv. simpl. rewrite Hfile. simpl.
    destruct (decide _) as [_|Hne]; [|done]. simpl.
    rewrite Hl'. simpl. by rewrite Hm'. }
  assert (exists w',
            getMaterialIconsData w = (Returned (Some data), w')
            /\ network w' = network w
            /\ disk w'
               = withVersionFile (Some (Js.trim v))
                   (withTableFiles (Some l) (Some m) (disk w))) as (w' & Hrun & Hnet & Hdisk).
  { run. rewrite Hmem, Hv. simpl.
    destruct (versionFile (disk w)) as [cv|] eqn:Hcv; simpl.
    - destruct (decide _) as [Heq|Hne]; simpl.
      + injection Heq as Heq.
        destruct (languageMapFile (disk w)) as [l'|] eqn:Hl'; simpl.
        * destruct (materialIconsFile (disk w)) as [m'|] eqn:Hm'; simpl.
          { destruct Hcache. unfold usableCache. rewrite Hcv, Hl', Hm', Heq. eauto. }
          rewrite Hl; simpl; rewrite Hm; simpl. eexists. split; [reflexivity|]. by split.
        * destruct (materialIconsFile (disk w)) as [m'|] eqn:Hm'; simpl;
            rewrite Hl; simpl; rewrite Hm; simpl; (eexists; split; [reflexivity|]; by split).
      + rewrite Hl; simpl; rewrite Hm; simpl. eexists. split; [reflexivity|]. by split.
    - rewrite Hl; simpl; rewrite Hm; simpl. eexists. split; [reflexivity|]. by split. }
  exists w'. split; [done|]. rewrite Hdisk. simpl.
  repeat (split; [reflexivity|]).
  apply (Hnext (newProcess w')); try done; simpl; by rewrite Hdisk.
Qed.

Lemma getMaterialIconsData_refresh_witness :
  exists w',
    getMaterialIconsData servedWorld = (Returned (Some sampleData), w')
    /\ versionFile (disk w') = Some "2.0"
    /\ fst (getMaterialIconsData (newProcess w')) = Returned (Some sampleData)
    /\ trace (snd (getMaterialIconsData (newProcess w')))
       = trace w' ++ [Fetch VERSION_URL].
Proof.
  destruct (getMaterialIconsData_refresh servedWorld "2.0
" (languageMap sampleData) (materialIcons sampleData))
    as (w' & Hrun & Hversion & _ & _ & _ & _ & _ & Hnext).
  - reflexivity.
  - reflexivity.
  - intros (Hversion & _). vm_compute in Hversion. discriminate Hversion.
  - reflexivity.
  - reflexivity.
  - exists w'. split; [exact Hrun|]. split; [exact Hversion|].
    rewrite Hnext. split; reflexivity.
Defined.

(** X4.  Offline (lines 254 to 257 and 283 to 287).  With nothing in
    memory, when the request for the version marker fails the call gives
    [undefined] whatever the disk holds, a complete cache included: the
    cached tables are read only after the marker has been fetched.  The
    call makes that one request, logs one warning and stores nothing.
    [resolveIcon] then returns an override or [null], for a file name
    whose override keys are not inherited ones; with the same inputs and
    the remote source reachable the cached tables would have been used. *)
Theorem getMaterialIconsData_offline (w : World) :
  cachedData w = None ->
  text (network w) VERSION_URL = None ->
  getMaterialIconsData w
  = (Returned None,
     withTrace (trace w ++ [Fetch VERSION_URL;
                            Log (FetchWarning (FetchFailed VERSION_URL))]) w)
  /\ forall fileName language_,
       ownKeys (customIconsOf w) fileName ->
       fst (resolveIcon fileName language_ w)
       = Returned (customIcon (customIconsOf w) fileName).
Proof.
  intros Hmem Hv. split.
  - run. rewrite Hmem, Hv. simpl.
    destruct (versionFile (disk w)); simpl; by rewrite <- app_assoc.
  - intros fileName language_ _. rewrite resolveIcon_result.
    unfold availableData. rewrite Hmem, Hv.
    by destruct (customIcon _ _).
Qed.

Lemma getMaterialIconsData_offline_witness :
  usableCache (disk offlineWorld) "1.0"
  /\ fst (getMaterialIconsData offlineWorld) = Returned None
  /\ fst (resolveIcon (Some "index.ts") None offlineWorld) = Returned None
  /\ fst (resolveIcon (Some "README.md") None offlineWorld)
     = Returned (Some "i-custom:markdown").
Proof.
  pose proof (getMaterialIconsData_offline offlineWorld eq_refl eq_refl)
    as [Hrun Hresolve].
  split; [|split; [|split]].
  - repeat split; simpl; eauto.
  - by rewrite Hrun.
  - exact (Hresolve (Some "index.ts") None eq_refl).
  - exact (Hresolve (Some "README.md") None eq_refl).
Defined.

(** ** The overrides, from the plugin to the resolver *)

(** X5.  [setCustomFileIcons] and [getCustomFileIcons] (lines 168 to
    176).  What has been set is what is read back, whatever was set
    before: a map replaces the earlier one, and [undefined] clears it, the
    copy on [globalThis] included.  The copy on [globalThis] makes the map
    reach a module instance that never saw the call, whose resolver then
    returns the overrides of the map.  Setting the map touches neither the
    icon data in memory nor the disk, and makes no request. *)
Theorem setCustomFileIcons_round_trip
    (map : option (gmap string string)) (w : World) :
  let w1 := snd (setCustomFileIcons map w) in
  fst (getCustomFileIcons w1) = Returned map
  /\ fst (getCustomFileIcons (reloadModule w1)) = Returned map
  /\ (forall fileName language_ icon,
        customIcon map fileName = Some icon ->
        fst (resolveIcon fileName language_ (reloadModule w1))
        = Returned (Some icon))
  /\ cachedData w1 = cachedData w /\ disk w1 = disk w /\ trace w1 = trace w.
Proof.
  simpl. split; [by destruct map|]. split; [by destruct map|].
  split; [|done].
  intros fileName language_ icon Hicon. rewrite resolveIcon_result.
  unfold customIconsOf. simpl.
  replace (match map with Some m => Some m | None => None end) with map
    by (by destruct map).
  by rewrite Hicon.
Qed.

Lemma setCustomFileIcons_round_trip_witness :
  let w1 := snd (setCustomFileIcons (Some mdOverride) (world None None)) in
  fst (resolveIcon (Some "docs/README.md") None (reloadModule w1))
  = Returned (Some "i-custom:markdown").
Proof.
  intros w1.
  apply (proj1 (proj2 (proj2 (setCustomFileIcons_round_trip
                                (Some mdOverride) (world None None))))).
  reflexivity.
Defined.

(** ** Strings: reversal, trimming, prefixes *)

Lemma string_app_cons c a b : String c a +:+ b = String c (a +:+ b).
Proof. reflexivity. Qed.

Lemma string_app_nil_l s : "" +:+ s = s.
Proof. reflexivity. Qed.

Lemma string_app_nil_r s : s +:+ "" = s.
Proof.
  induction s as [|c s IH]; [done|]. by rewrite string_app_cons, IH.
Qed.

Lemma string_app_assoc a b c : (a +:+ b) +:+ c = a +:+ (b +:+ c).
Proof.
  induction a as [|x a IH]; [done|]. by rewrite !string_app_cons, IH.
Qed.

Lemma string_length_app a b :
  String.length (a +:+ b) = String.length a + String.length b.
Proof.
  induction a as [|x a IH]; [done|]. rewrite string_app_cons. simpl.
  by rewrite IH.
Qed.

Lemma string_rev_app s acc : String.rev_app s acc = String.rev s +:+ acc.
Proof.
  unfold String.rev. revert acc.
  induction s as [|c s IH]; intros acc; simpl; [done|].
  by rewrite (IH (String c acc)), (IH (String c "")), string_app_assoc.
Qed.

Lemma string_rev_cons c s : String.rev (String c s) = String.rev s +:+ String c "".
Proof. unfold String.rev at 1. simpl. apply string_rev_app. Qed.

Lemma string_rev_append a b :
  String.rev (a +:+ b) = String.rev b +:+ String.rev a.
Proof.
  induction a as [|x a IH].
  - by rewrite string_app_nil_l, string_app_nil_r.
  - by rewrite string_app_cons, !string_rev_cons, IH, string_app_assoc.
Qed.

Lemma string_rev_rev s : String.rev (String.rev s) = s.
Proof.
  induction s as [|c s IH]; [done|].
  by rewrite string_rev_cons, string_rev_append, IH.
Qed.

Lemma string_rev_length s : String.length (String.rev s) = String.length s.
Proof.
  induction s as [|c s IH]; [done|].
  rewrite string_rev_cons, string_length_app, IH. simpl. lia.
Qed.

Lemma string_rev_inj a b : String.rev a = String.rev b -> a = b.
Proof. intros H. by rewrite <- (string_rev_rev a), H, string_rev_rev. Qed.

Lemma prefix_app p s : String.prefix p (p +:+ s) = true.
Proof.
  induction p as [|c p IH]; [by destruct s|].
  rewrite string_app_cons. simpl. by destruct (ascii_dec c c).
Qed.

Lemma startsWith_head p c s d r :
  c <> d -> Js.startsWith (String c p) (String d r +:+ s) = false.
Proof.
  intros Hne. unfold Js.startsWith. rewrite string_app_cons. simpl.
  by destruct (ascii_dec c d).
Qed.

(** [trimStart] removes a prefix and stops at a character that is not
    white space. *)
Lemma trimStart_suffix s : exists p, s = p +:+ Js.trimStart s.
Proof.
  induction s as [|c s [p IH]]; [by exists ""|]. simpl.
  destruct (Js.isSpace c).
  - exists (String c p). by rewrite string_app_cons, <- IH.
  - by exists "".
Qed.

Lemma trimStart_head s :
  match Js.trimStart s with
  | String c _ => Js.isSpace c = false
  | EmptyString => True
  end.
Proof.
  induction s as [|c s IH]; [done|]. simpl.
  destruct (Js.isSpace c) eqn:Hc; [done|]. exact Hc.
Qed.

Lemma trimStart_id c s :
  Js.isSpace c = false -> Js.trimStart (String c s) = String c s.
Proof. intros Hc. simpl. by rewrite Hc. Qed.

Lemma trimEnd_prefix s : exists p, s = Js.trimEnd s +:+ p.
Proof.
  destruct (trimStart_suffix (String.rev s)) as [p Hp].
  exists (String.rev p). unfold Js.trimEnd.
  by rewrite <- string_rev_append, <- Hp, string_rev_rev.
Qed.

(** A string that ends with a character that is not white space is its
    own [trimEnd]. *)
Lemma trimEnd_id s c :
  Js.isSpace c = false -> Js.trimEnd (s +:+ String c "") = s +:+ String c "".
Proof.
  intros Hc. unfold Js.trimEnd.
  assert (String.rev (s +:+ String c "") = String c (String.rev s)) as Hrev.
  { by rewrite string_rev_append. }
  rewrite Hrev, trimStart_id, <- Hrev by done. apply string_rev_rev.
Qed.

Lemma trim_head s :
  match Js.trim s with
  | String c _ => Js.isSpace c = false
  | EmptyString => True
  end.
Proof.
  unfold Js.trim. pose proof (trimStart_head s) as Hhead.
  destruct (trimEnd_prefix (Js.trimStart s)) as [p Hp].
  destruct (Js.trimEnd (Js.trimStart s)) as [|c r]; [done|].
  rewrite Hp, string_app_cons in Hhead. exact Hhead.
Qed.

Lemma split_head sep c s :
  c <> sep -> exists h t, Js.split sep (String c s) = String c h :: t.
Proof.
  intros Hne. simpl. rewrite (proj2 (Ascii.eqb_neq c sep) Hne).
  destruct (Js.split sep s) as [|h t]; eauto.
Qed.

(** ** Directory detection on the text of a tree *)




(** ** The lines of a tree diagram *)

(** X6.  [parseLines] (lines 43 to 49).  The text of a tree is trimmed
    before it is cut into lines, so there is always a first line, and it
    has indentation 0 whatever stood before it; the indentation of the
    other lines is counted from their own start.  Hence a first entry that
    is followed by a line with any indentation is taken for a directory:
    in a tree whose lines are all indented alike, the first entry counts as
    a directory when the second line follows it directly. *)
Theorem parseLines_first_line (fileTreeContent : string) :
  exists first rest,
    parseLines fileTreeContent = first :: rest
    /\ indentation first = 0
    /\ forall next entryName,
         head rest = Some next -> 0 < indentation next ->
         isDirectory entryName first (Some next) = true.
Proof.
  unfold parseLines. pose proof (trim_head fileTreeContent) as Hhead.
  assert (exists l ls, Js.split Regex.LF (Js.trim fileTreeContent) = l :: ls
                       /\ Js.leadingSpaces l = 0) as (l & ls & -> & Hl).
  { destruct (Js.trim fileTreeContent) as [|c r]; [by exists "", []|].
    destruct (split_head Regex.LF c r) as (h & t & ->).
    - intros ->. discriminate Hhead.
    - exists (String c h), t. split; [done|]. simpl. by rewrite Hhead. }
  eexists _, _. split; [reflexivity|]. split; [exact Hl|].
  intros next entryName _ Hnext. unfold isDirectory. simpl. rewrite Hl.
  apply orb_true_iff. right. by apply Nat.ltb_lt.
Qed.

Lemma parseLines_first_line_witness :
  exists first next rest,
    parseLines "
  - a.ts
  - b.ts
" = first :: next :: rest
    /\ entryNameOf first = "a.ts"
    /\ indentation next = 2
    /\ isDirectory (entryNameOf first) first (Some next) = true.
Proof.
  destruct (parseLines_first_line "
  - a.ts
  - b.ts
") as (first & rest & Hparse & _ & Hdir).
  vm_compute in Hparse. injection Hparse as <- <-.
  eexists _, _, _. split; [reflexivity|]. split; [reflexivity|].
  split; [reflexivity|]. apply Hdir; [reflexivity | simpl; lia].
Defined.

(** ** The decorations of a tree entry *)

Lemma includes_app c a b :
  Js.includes c (a +:+ b) = Js.includes c a || Js.includes c b.
Proof.
  induction a as [|x a IH]; [done|]. rewrite string_app_cons. simpl.
  by rewrite IH, orb_assoc.
Qed.

Lemma removeAll_id c s : Js.includes c s = false -> Js.removeAll c s = s.
Proof.
  induction s as [|x s IH]; [done|]. simpl.
  intros [-> Hs]%orb_false_iff. by rewrite IH.
Qed.

Lemma removeAll_app c a b :
  Js.removeAll c (a +:+ b) = Js.removeAll c a +:+ Js.removeAll c b.
Proof.
  induction a as [|x a IH]; [done|]. rewrite string_app_cons. simpl.
  destruct (Ascii.eqb x c); [done|]. by rewrite string_app_cons, IH.
Qed.

Lemma substring_middle a b c :
  String.substring (String.length a) (String.length b) (a +:+ b +:+ c) = b.
Proof.
  induction a as [|x a IH].
  - rewrite string_app_nil_l. simpl.
    induction b as [|y b IH]; [by destruct (_ +:+ _)|].
    rewrite string_app_cons. simpl. by rewrite IH.
  - rewrite string_app_cons. simpl. exact IH.
Qed.

(** A marker around at least one character, none of them a line
    terminator, is taken off. *)
Lemma unwrap_wrapped m n :
  n <> "" -> Js.noLineTerminator n = true -> Js.unwrap m (m +:+ n +:+ m) = n.
Proof.
  intros Hn Hline. unfold Js.unwrap.
  assert (String.length (m +:+ n +:+ m) - 2 * String.length m = String.length n)
    as ->.
  { rewrite !string_length_app. lia. }
  rewrite substring_middle, Hline.
  assert ((2 * String.length m <? String.length (m +:+ n +:+ m)) = true) as ->.
  { apply Nat.ltb_lt. rewrite !string_length_app.
    destruct n; [done|]. simpl. lia. }
  unfold Js.startsWith, Js.endsWith.
  rewrite prefix_app, !string_rev_append, string_app_assoc, prefix_app.
  done.
Qed.

Lemma unwrap_other m s : Js.startsWith m s = false -> Js.unwrap m s = s.
Proof.
  intros Hm. unfold Js.unwrap. by rewrite Hm, andb_false_r.
Qed.

Lemma trim_wrapped a s b :
  Js.isSpace a = false -> Js.isSpace b = false ->
  Js.trim (String a s +:+ String b "") = String a s +:+ String b "".
Proof.
  intros Ha Hb. unfold Js.trim.
  rewrite string_app_cons, trimStart_id, <- string_app_cons by done.
  by apply trimEnd_id.
Qed.

Lemma startsWith_other c d p s :
  c <> d -> Js.startsWith (String c p) (String d s) = false.
Proof.
  intros Hne. unfold Js.startsWith. simpl. by destruct (ascii_dec c d).
Qed.

Lemma startsWith_second a c d p s :
  c <> d -> Js.startsWith (String a (String c p)) (String a (String d s)) = false.
Proof.
  intros Hne. unfold Js.startsWith. simpl.
  destruct (ascii_dec a a); [|done]. by destruct (ascii_dec c d).
Qed.

(** X7.  [normalizeFileTreeEntry] (lines 147 to 154).  Take a name that
    is not empty, starts neither with a star nor with an underscore, has no
    backtick and no line terminator, and no white space at either end.
    Then the name is a fixed point, and each decoration the function knows
    is taken off again: the name in backticks, in double stars, in double
    underscores, in single stars and in single underscores all normalise to
    the name itself. *)
Theorem normalizeFileTreeEntry_decorated (name : string) (c : ascii) (r : string) :
  name = String c r -> c <> "*"%char -> c <> "_"%char ->
  Js.includes "`" name = false ->
  Js.noLineTerminator name = true ->
  Js.trim name = name ->
  normalizeFileTreeEntry name = name
  /\ normalizeFileTreeEntry ("`" +:+ name +:+ "`") = name
  /\ normalizeFileTreeEntry ("**" +:+ name +:+ "**") = name
  /\ normalizeFileTreeEntry ("__" +:+ name +:+ "__") = name
  /\ normalizeFileTreeEntry ("*" +:+ name +:+ "*") = name
  /\ normalizeFileTreeEntry ("_" +:+ name +:+ "_") = name.
Proof.
  intros Hname Hstar Hunder Htick Hline Htrim.
  assert (name <> "") as Hne by (by rewrite Hname).
  assert (forall p, Js.startsWith (String "*" p) name = false) as Hs1.
  { intros p. rewrite Hname. by apply startsWith_other. }
  assert (forall p, Js.startsWith (String "_" p) name = false) as Hs2.
  { intros p. rewrite Hname. by apply startsWith_other. }
  assert (Js.unwrap "_" (Js.unwrap "*" (Js.unwrap "__" (Js.unwrap "**" name)))
          = name) as Hplain.
  { rewrite (unwrap_other "**" name) by apply Hs1.
    rewrite (unwrap_other "__" name) by apply Hs2.
    rewrite (unwrap_other "*" name) by apply Hs1.
    by rewrite (unwrap_other "_" name) by apply Hs2. }
  assert (forall a b p : string,
            Js.isSpace "*" = false ->
            Js.includes "`" (a +:+ name +:+ b) = false ->
            a +:+ name +:+ b = String "*" p +:+ "*"
            \/ a +:+ name +:+ b = String "_" p +:+ "_" ->
            Js.trim (Js.removeAll "`" (a +:+ name +:+ b)) = a +:+ name +:+ b)
    as Hkeep.
  { intros a b p _ Hinc Hshape. rewrite removeAll_id by done.
    destruct Hshape as [-> | ->]; by apply trim_wrapped. }
  assert (forall a b, Js.includes "`" a = false -> Js.includes "`" b = false ->
                      Js.includes "`" (a +:+ name +:+ b) = false) as Hinc.
  { intros a b Ha Hb. by rewrite !includes_app, Ha, Hb, Htick. }
  unfold normalizeFileTreeEntry. split; [|split; [|split; [|split; [|split]]]].
  - by rewrite removeAll_id, Htrim.
  - rewrite !removeAll_app, (removeAll_id _ name) by done.
    change (Js.removeAll "`" "`") with "".
    by rewrite string_app_nil_l, string_app_nil_r, Htrim.
  - rewrite (Hkeep "**" "**" ("*" +:+ name +:+ "*")); try done.
    + rewrite unwrap_wrapped by done.
      rewrite (unwrap_other "__" name) by apply Hs2.
      rewrite (unwrap_other "*" name) by apply Hs1.
      by rewrite (unwrap_other "_" name) by apply Hs2.
    + by apply Hinc.
    + left. rewrite !string_app_cons, !string_app_nil_l, !string_app_assoc.
      reflexivity.
  - rewrite (Hkeep "__" "__" ("_" +:+ name +:+ "_")); try done.
    + rewrite (unwrap_other "**") by done.
      rewrite unwrap_wrapped by done.
      rewrite (unwrap_other "*" name) by apply Hs1.
      by rewrite (unwrap_other "_" name) by apply Hs2.
    + by apply Hinc.
    + right. rewrite !string_app_cons, !string_app_nil_l, !string_app_assoc.
      reflexivity.
  - rewrite (Hkeep "*" "*" name); try done.
    + rewrite (unwrap_other "**").
      2:{ rewrite Hname, !string_app_cons. by apply startsWith_second. }
      rewrite (unwrap_other "__") by done.
      rewrite unwrap_wrapped by done.
      by rewrite (unwrap_other "_" name) by apply Hs2.
    + by apply Hinc.
    + left. by rewrite !string_app_cons, !string_app_nil_l.
  - rewrite (Hkeep "_" "_" name); try done.
    + rewrite (unwrap_other "**") by done.
      rewrite (unwrap_other "__").
      2:{ rewrite Hname, !string_app_cons. by apply startsWith_second. }
      rewrite (unwrap_other "*") by done.
      by rewrite unwrap_wrapped.
    + by apply Hinc.
    + right. by rewrite !string_app_cons, !string_app_nil_l.
Qed.

Lemma normalizeFileTreeEntry_decorated_witness :
  normalizeFileTreeEntry "`astro.config.mjs`" = "astro.config.mjs"
  /\ normalizeFileTreeEntry "**astro.config.mjs**" = "astro.config.mjs"
  /\ normalizeFileTreeEntry "_astro.config.mjs_" = "astro.config.mjs".
Proof.
  destruct (normalizeFileTreeEntry_decorated "astro.config.mjs" "a" "stro.config.mjs")
    as (_ & Htick & Hbold & _ & _ & Hunder); try reflexivity; try discriminate.
  split; [exact Htick|]. split; [exact Hbold|exact Hunder].
Defined.

(** ** The file name as the resolver reads it *)

Lemma split_nonempty sep s : Js.split sep s <> [].
Proof.
  destruct s as [|c s]; [done|]. simpl.
  destruct (Ascii.eqb c sep); [done|]. by destruct (Js.split sep s).
Qed.

Lemma split_app sep a b :
  Js.split sep (a +:+ String sep b) = Js.split sep a ++ Js.split sep b.
Proof.
  induction a as [|x a IH].
  - rewrite string_app_nil_l. simpl. by rewrite Ascii.eqb_refl.
  - rewrite string_app_cons. simpl. rewrite IH.
    destruct (Ascii.eqb x sep); [done|].
    pose proof (split_nonempty sep a). by destruct (Js.split sep a).
Qed.

Lemma split_none sep s : Js.includes sep s = false -> Js.split sep s = [s].
Proof.
  induction s as [|x s IH]; [done|]. simpl.
  intros [-> Hs]%orb_false_iff. by rewrite IH.
Qed.

Lemma justFileName_path dir name :
  Js.includes "/" name = false ->
  justFileName (dir +:+ "/" +:+ name) = name.
Proof.
  intros Hname. unfold justFileName, Js.pop.
  rewrite includes_app. change ("/" +:+ name) with (String "/" name).
  simpl. rewrite orb_true_r.
  by rewrite split_app, (split_none _ name Hname), last_snoc.
Qed.

Lemma prefix_separator c p a b :
  Js.includes c p = false ->
  String.prefix p (a +:+ String c b) = String.prefix p a.
Proof.
  revert a. induction p as [|x p IH]; intros a Hp.
  - by destruct a, (_ +:+ _).
  - simpl in Hp. apply orb_false_iff in Hp as [Hx Hp].
    apply Ascii.eqb_neq in Hx.
    destruct a as [|y a].
    + rewrite string_app_nil_l. simpl. by destruct (ascii_dec x c).
    + rewrite string_app_cons. simpl.
      destruct (ascii_dec x y); [by apply IH|done].
Qed.

Lemma endsWith_path suffix dir name :
  Js.includes "/" suffix = false ->
  Js.endsWith suffix (dir +:+ "/" +:+ name) = Js.endsWith suffix name.
Proof.
  intros Hs. unfold Js.endsWith.
  change ("/" +:+ name) with (String "/" "" +:+ name).
  rewrite !string_rev_append.
  change (String.rev (String "/" "")) with (String "/" "").
  rewrite string_app_assoc. change (String "/" "" +:+ String.rev dir)
    with (String "/" (String.rev dir)).
  apply prefix_separator.
  assert (forall s, Js.includes "/" (String.rev s) = Js.includes "/" s) as Hrev.
  { induction s as [|x s IH]; [done|].
    rewrite string_rev_cons, includes_app, IH. simpl.
    by rewrite orb_false_r, orb_comm. }
  by rewrite Hrev.
Qed.

Lemma truthy_app a c b : Js.truthy (a +:+ String c b) = true.
Proof. by destruct a. Qed.

(** The resolver reads a file name through its last segment in lower
    case, whether it is empty, and its two special suffixes. *)
Lemma resolveIcon_reads w f g language_ :
  lowerFileName f = lowerFileName g ->
  Js.truthy f = Js.truthy g ->
  svelteSpecial (Some f) = svelteSpecial (Some g) ->
  fst (resolveIcon (Some f) language_ w) = fst (resolveIcon (Some g) language_ w).
Proof.
  intros Hlower Htruthy Hsvelte. rewrite !resolveIcon_result.
  unfold customIcon, overrideKeys, resolveWithData, fileProbes, Js.supplied.
  by rewrite Hlower, Htruthy, Hsvelte.
Qed.

Lemma lowerChar_separator x :
  Ascii.eqb (Js.lowerChar x) "/" = Ascii.eqb x "/".
Proof. by destruct x as [[] [] [] [] [] [] [] []]. Qed.

Lemma lowerChar_idemp x : Js.lowerChar (Js.lowerChar x) = Js.lowerChar x.
Proof. by destruct x as [[] [] [] [] [] [] [] []]. Qed.

Lemma toLowerCase_includes s :
  Js.includes "/" (Js.toLowerCase s) = Js.includes "/" s.
Proof.
  induction s as [|x s IH]; [done|]. simpl.
  by rewrite lowerChar_separator, IH.
Qed.

Lemma toLowerCase_split s :
  Js.split "/" (Js.toLowerCase s) = map Js.toLowerCase (Js.split "/" s).
Proof.
  induction s as [|x s IH]; [done|]. simpl.
  rewrite lowerChar_separator, IH.
  destruct (Ascii.eqb x "/"); [done|].
  pose proof (split_nonempty "/" s). by destruct (Js.split "/" s).
Qed.

Lemma toLowerCase_justFileName s :
  justFileName (Js.toLowerCase s) = Js.toLowerCase (justFileName s).
Proof.
  unfold justFileName, Js.pop.
  rewrite toLowerCase_includes, toLowerCase_split.
  destruct (Js.includes "/" s); [|done].
  pose proof (split_nonempty "/" s) as Hne.
  induction (Js.split "/" s) as [|h [|h' t] IH]; [done|done|].
  apply IH. done.
Qed.

Lemma toLowerCase_truthy s : Js.truthy (Js.toLowerCase s) = Js.truthy s.
Proof. by destruct s. Qed.

(** X8.  Directories in a file name (lines 343 and 385, 365 to 370).
    [resolveIcon] reads only the last segment of a path: for a name
    without a slash and not empty, the result for [dir/name] is the result
    for [name], whatever [dir] is and in every world; overrides, special
    suffixes, table probes and the dot-prefixed retry all see the same. *)
Theorem resolveIcon_ignores_directories
    (w : World) (dir name : string) (language_ : option string) :
  name <> "" -> Js.includes "/" name = false ->
  fst (resolveIcon (Some (dir +:+ "/" +:+ name)) language_ w)
  = fst (resolveIcon (Some name) language_ w).
Proof.
  intros Hne Hname. apply resolveIcon_reads.
  - unfold lowerFileName. rewrite justFileName_path by done.
    unfold justFileName. by rewrite Hname.
  - change ("/" +:+ name) with (String "/" name). rewrite truthy_app.
    symmetry. by apply truthy_true.
  - unfold svelteSpecial. by rewrite !endsWith_path.
Qed.

Lemma resolveIcon_ignores_directories_witness :
  fst (resolveIcon (Some "src/pages/index.ts") None (world None (Some sampleData)))
  = fst (resolveIcon (Some "index.ts") None (world None (Some sampleData))).
Proof.
  apply (resolveIcon_ignores_directories
           (world None (Some sampleData)) "src/pages" "index.ts" None).
  - discriminate.
  - reflexivity.
Defined.

(** X9.  Upper and lower case in a file name (lines 344 and 386, 365 to
    370).  Overrides and tables are looked up with the name in lower case,
    so two names that differ only in case resolve alike, provided they
    agree on the two special suffixes, which are compared as written: a
    name ending in [.SVELTE.JS] is not special. *)
Theorem resolveIcon_ignores_case
    (w : World) (f g : string) (language_ : option string) :
  Js.toLowerCase f = Js.toLowerCase g ->
  svelteSpecial (Some f) = svelteSpecial (Some g) ->
  fst (resolveIcon (Some f) language_ w) = fst (resolveIcon (Some g) language_ w).
Proof.
  intros Hcase Hsvelte. apply resolveIcon_reads; [| |done].
  - unfold lowerFileName.
    by rewrite <- !toLowerCase_justFileName, Hcase.
  - by rewrite <- (toLowerCase_truthy f), Hcase, toLowerCase_truthy.
Qed.

Lemma resolveIcon_ignores_case_witness :
  fst (resolveIcon (Some "README.MD") None (world None (Some sampleData)))
  = fst (resolveIcon (Some "Readme.md") None (world None (Some sampleData)))
  /\ svelteSpecial (Some "App.SVELTE.JS") = None
  /\ svelteSpecial (Some "App.svelte.js") = Some SVELTE_JS.
Proof.
  split; [|by split].
  apply (resolveIcon_ignores_case (world None (Some sampleData))
           "README.MD" "Readme.md" None); reflexivity.
Defined.

(** ** The later steps of the resolver *)

(** X10.  The dot-prefixed retry (lines 402 to 409).  Take a file name
    that no override matches, without special suffix, whose last segment
    does not start with a dot, and for which the four probes of the tables
    miss.  If the File-Name Map holds, under the segment with a dot put in
    front, a non-empty icon name that has a definition, then [resolveIcon]
    returns the class of that icon, whatever the language is: [gitignore]
    resolves like [.gitignore]. *)
Theorem resolveIcon_dot_prefixed_retry
    (w : World) (data : MaterialIconsData) (icons : option (gmap string string))
    (fileName : string) (language_ : option string) (name : string) :
  let lower := lowerFileName fileName in
  let tables := materialIcons data in
  fst (getMaterialIconsData w) = Returned (Some data) ->
  fst (getCustomFileIcons w) = Returned icons ->
  customIcon icons (Some fileName) = None ->
  fileName <> "" ->
  svelteSpecial (Some fileName) = None ->
  Js.startsWith "." lower = false ->
  misses tables (fileNames tables) lower ->
  misses tables (fileExtensions tables) (longExtension lower) ->
  misses tables (fileExtensions tables) (shortExtension lower) ->
  misses tables (LanguageMap.fileExtensions (languageMap data))
    (shortExtension lower) ->
  fileNames tables !! ("." +:+ lower) = Some name ->
  name <> "" -> name ∈ iconDefinitions tables ->
  fst (resolveIcon (Some fileName) language_ w)
  = Returned (Some ("i-material-icon-theme:" +:+ Js.replaceAll "_" "-" name)).
Proof.
  intros lower tables Hd%getMaterialIconsData_available
    Hc%getCustomFileIcons_customIconsOf Hcustom Hname Hsvelte Hdot
    H1%definedClass_None H2%definedClass_None H3%definedClass_None
    H4%definedClass_None Hk Hne Hin.
  rewrite resolveIcon_result, Hc, Hcustom, Hd.
  unfold resolveWithData. rewrite Hsvelte. simpl.
  apply truthy_true in Hname. rewrite Hname. simpl.
  unfold fileProbes. fold lower tables. simpl.
  rewrite H1, H2, H3, H4, Hdot. simpl.
  by rewrite (definedClass_hit tables _ _ name Hk Hne Hin).
Qed.

Lemma resolveIcon_dot_prefixed_retry_witness :
  fst (resolveIcon (Some "docs/GitIgnore") (Some "typescript")
         (world None (Some sampleData)))
  = Returned (Some "i-material-icon-theme:git-ignore").
Proof.
  apply (resolveIcon_dot_prefixed_retry
           (world None (Some sampleData)) sampleData None
           "docs/GitIgnore" (Some "typescript") "git_ignore");
    try reflexivity; try discriminate; try (by intros name [=]).
Defined.

(** X11.  The language comes last (lines 384 to 417).  Take a file name
    that matches no override, whose override keys are not inherited ones,
    and that has none of the two special suffixes.  When a probe of the
    file name hits (table or dot-prefixed retry), the class it gives is
    returned for every language.  When the file name is absent or empty, or
    all its probes miss, a non-empty language id whose entry in the
    Language-Id Map is a non-empty icon name with a definition decides,
    and the class of that icon is returned. *)
Theorem resolveIcon_language_last
    (w : World) (data : MaterialIconsData) (icons : option (gmap string string))
    (fileName : option string) :
  fst (getMaterialIconsData w) = Returned (Some data) ->
  fst (getCustomFileIcons w) = Returned icons ->
  ownKeys icons fileName ->
  customIcon icons fileName = None ->
  svelteSpecial fileName = None ->
  (forall name class language_,
     fileName = Some name -> name <> "" ->
     fileProbes data name = Some class ->
     fst (resolveIcon fileName language_ w) = Returned (Some class))
  /\ (forall id iconName,
        (forall name, fileName = Some name -> name <> "" ->
                      fileProbes data name = None) ->
        id <> "" ->
        languageIds (materialIcons data) !! id = Some iconName ->
        iconName <> "" -> iconName ∈ iconDefinitions (materialIcons data) ->
        fst (resolveIcon fileName (Some id) w)
        = Returned (Some ("i-material-icon-theme:"
                          +:+ Js.replaceAll "_" "-" iconName))).
Proof.
  intros Hd%getMaterialIconsData_available
    Hc%getCustomFileIcons_customIconsOf _ Hcustom Hsvelte.
  split.
  - intros name class language_ -> Hname%truthy_true Hprobe.
    rewrite resolveIcon_result, Hc, Hcustom, Hd.
    unfold resolveWithData. rewrite Hsvelte. simpl.
    by rewrite Hname, Hprobe.
  - intros id iconName Hmiss Hid%truthy_true Hk Hne Hin.
    rewrite resolveIcon_result, Hc, Hcustom, Hd.
    unfold resolveWithData. rewrite Hsvelte. simpl. rewrite Hid.
    rewrite andb_false_r.
    assert (match fileName with
            | Some name => if Js.truthy name then fileProbes data name else None
            | None => None
            end = None) as ->.
    { destruct fileName as [name|]; [|done].
      destruct (Js.truthy name) eqn:Hname; [|done].
      apply Hmiss; [done|]. by apply truthy_true. }
    unfold languageProbe. rewrite ?Hid.
    by rewrite (definedClass_hit _ _ _ iconName Hk Hne Hin).
Qed.

Lemma resolveIcon_language_last_witness :
  fst (resolveIcon (Some "notes.md") (Some "typescript")
         (world (Some folderOverrides) (Some sampleData)))
  = Returned (Some "i-material-icon-theme:markdown")
  /\ fst (resolveIcon (Some "notes.xyz") (Some "typescript")
            (world (Some folderOverrides) (Some sampleData)))
     = Returned (Some "i-material-icon-theme:typescript").
Proof.
  split.
  - apply (proj1 (resolveIcon_language_last
                    (world (Some folderOverrides) (Some sampleData)) sampleData
                    (Some folderOverrides)
                    (Some "notes.md") eq_refl eq_refl eq_refl eq_refl eq_refl)
             "notes.md" "i-material-icon-theme:markdown" (Some "typescript")).
    + reflexivity.
    + discriminate.
    + reflexivity.
  - apply (proj2 (resolveIcon_language_last
                    (world (Some folderOverrides) (Some sampleData)) sampleData
                    (Some folderOverrides)
                    (Some "notes.xyz") eq_refl eq_refl eq_refl eq_refl eq_refl)
             "typescript" "typescript").
    + intros name [= <-] _. reflexivity.
    + discriminate.
    + reflexivity.
    + discriminate.
    + simpl. set_solver.
Defined.

(** ** What the safelist is sure to hold *)

Lemma scanConfig_run cfg usedIcons w :
  scanConfig cfg usedIcons w
  = (Returned match configFiles (disk w) !! cfg with
              | Some source =>
                  list_to_set (Regex.iconClassRegex source) ∪ usedIcons
              | None => usedIcons
              end, w).
Proof.
  unfold scanConfig. run. by destruct (configFiles (disk w) !! cfg).
Qed.

Lemma forEach_scanConfig cfgs usedIcons w :
  exists usedIcons',
    forEach scanConfig cfgs usedIcons w = (Returned usedIcons', w)
    /\ usedIcons ⊆ usedIcons'
    /\ forall cfg source class,
         cfg ∈ cfgs -> configFiles (disk w) !! cfg = Some source ->
         class ∈ Regex.iconClassRegex source -> class ∈ usedIcons'.
Proof.
  revert usedIcons. induction cfgs as [|cfg cfgs IH]; intros usedIcons.
  - exists usedIcons. split; [done|]. split; [done|].
    by intros cfg source class Hin%elem_of_nil.
  - simpl. unfold bind. rewrite scanConfig_run.
    destruct (IH match configFiles (disk w) !! cfg with
                 | Some source =>
                     list_to_set (Regex.iconClassRegex source) ∪ usedIcons
                 | None => usedIcons
                 end) as (usedIcons' & -> & Hsub & Hall).
    exists usedIcons'. split; [done|]. split.
    + destruct (configFiles (disk w) !! cfg); set_solver.
    + intros cfg' source class [->|Hin]%elem_of_cons Hcfg Hclass.
      * rewrite Hcfg in Hsub. apply Hsub. set_solver.
      * by eapply Hall.
Qed.

Lemma collectIcons_covers customFileIcons w usedIcons w0 :
  collectIcons customFileIcons w = (Returned usedIcons, w0) ->
  (forall icons key value,
     customFileIcons = Some icons -> icons !! key = Some value ->
     value ∈ usedIcons)
  /\ (forall cfg source class,
        cfg ∈ astroConfigs -> configFiles (disk w) !! cfg = Some source ->
        class ∈ Regex.iconClassRegex source -> class ∈ usedIcons).
Proof.
  unfold collectIcons, bind at 1 2, read. cbn [fst snd].
  set (logged := if decide (length (contentFiles (disk w)) = 0)
                 then emit (Log NoContentFiles) else ret tt).
  assert (exists w1, logged w = (Returned tt, w1) /\ frame w w1)
    as (w1 & -> & Hf1).
  { unfold logged. destruct (decide _).
    - eexists. split; [reflexivity|]. by apply frame_withTrace.
    - eexists. split; [reflexivity|]. apply frame_refl. }
  unfold bind at 1.
  destruct (Steady_forEach scanContent (contentFiles (disk w))
              (fun c acc => Steady_scanContent c acc) ∅ w1)
    as (u1 & w2 & -> & Hf2 & _).
  unfold bind at 1.
  destruct (forEach_scanConfig astroConfigs u1 w2) as (u2 & -> & Hsub & Hall).
  unfold ret. intros [= <- <-].
  assert (configFiles (disk w2) = configFiles (disk w)) as Hcfg.
  { destruct Hf1 as ((_ & _ & _ & H1) & _), Hf2 as ((_ & _ & _ & H2) & _).
    congruence. }
  split.
  - intros icons key value -> Hk.
    apply elem_of_union_l, elem_of_list_to_set.
    change (value ∈ snd <$> map_to_list icons).
    apply list_elem_of_fmap.
    exists (key, value). split; [done|]. by apply elem_of_map_to_list.
  - intros cfg source class Hin Hsource Hclass.
    assert (class ∈ u2) by (eapply Hall; [done|by rewrite Hcfg|done]).
    destruct customFileIcons; [by apply elem_of_union_r|done].
Qed.

(** X12.  What a run is sure to list (lines 91 to 139).  After
    [generateSafelist] the safelist file holds the serialised new list, or
    there is no file and the list is empty.  The list holds every value of
    the override map passed in, empty values included, and every match of
    [iconClassRegex] in every readable [astro.config.*] file of the six
    names, whatever the content files hold and whether or not the icon data
    could be fetched. *)
Theorem generateSafelist_lists_overrides_and_config
    (customFileIcons : option (gmap string string)) (w : World) :
  exists newSafelist : list string,
    (safelistFile (disk (snd (generateSafelist customFileIcons w)))
     = Some (JSON.stringify newSafelist)
     \/ (newSafelist = []
         /\ safelistFile (disk (snd (generateSafelist customFileIcons w))) = None))
    /\ (forall icons key value,
          customFileIcons = Some icons -> icons !! key = Some value ->
          value ∈ newSafelist)
    /\ (forall cfg source class,
          cfg ∈ astroConfigs -> configFiles (disk w) !! cfg = Some source ->
          class ∈ Regex.iconClassRegex source -> class ∈ newSafelist).
Proof.
  destruct (Steady_collectIcons customFileIcons w)
    as (usedIcons & w0 & Hrun & Hf & _).
  destruct (collectIcons_covers _ _ _ _ Hrun) as [Hvalues Hconfig].
  destruct (newSafelist_sorted usedIcons) as (_ & _ & Hin).
  exists (sort (elements usedIcons)). split; [|split].
  - rewrite (generateSafelist_run _ _ _ _ Hrun).
    destruct (decide (safelistFile (disk w0)
                      = Some (JSON.stringify (sort (elements usedIcons)))))
      as [Hsame|Hdiff].
    { left. by rewrite persist_unchanged. }
    destruct (safelistFile (disk w0)) as [current|] eqn:Hfile.
    { destruct (persist_written usedIcons w0) as (w' & -> & Hjson & _);
        [by rewrite Hfile|by rewrite Hfile|]. by left. }
    destruct (decide (usedIcons = ∅)) as [Hempty|Hnonempty].
    + right. rewrite persist_nothing by done. split; [|done].
      apply length_zero_iff_nil. by apply newSafelist_empty.
    + destruct (persist_written usedIcons w0) as (w' & -> & Hjson & _);
        [by rewrite Hfile|by rewrite Hfile|]. by left.
  - intros icons key value Hc Hk. apply Hin. by eapply Hvalues.
  - intros cfg source class Hcfg Hsource Hclass. apply Hin. by eapply Hconfig.
Qed.

Lemma generateSafelist_lists_overrides_and_config_witness :
  exists newSafelist : list string,
    safelistFile (disk (snd (generateSafelist (Some mdOverride) siteWorld)))
    = Some (JSON.stringify newSafelist)
    /\ "i-custom:markdown" ∈ newSafelist
    /\ "i-ph:rocket" ∈ newSafelist.
Proof.
  destruct (generateSafelist_lists_overrides_and_config (Some mdOverride) siteWorld)
    as (newSafelist & Hfile & Hvalues & Hconfig).
  assert ("i-custom:markdown" ∈ newSafelist) as Hmd.
  { apply (Hvalues mdOverride "md"); reflexivity. }
  assert ("i-ph:rocket" ∈ newSafelist) as Hrocket.
  { apply (Hconfig "astro.config.mjs" "icon: 'i-ph:rocket'").
    - left.
    - reflexivity.
    - left. }
  exists newSafelist. split; [|by split].
  destruct Hfile as [Hfile|[-> _]]; [exact Hfile|].
  by apply elem_of_nil in Hmd.
Defined.

(** ** What the three regular expressions match *)

Lemma substring_0 s : Js.substring 0 s = s.
Proof. by destruct s. Qed.

Lemma substring_S n c s : Js.substring (S n) (String c s) = Js.substring n s.
Proof. reflexivity. Qed.

Lemma startsWith_split p s :
  Js.startsWith p s = true -> s = p +:+ Js.substring (String.length p) s.
Proof.
  unfold Js.startsWith. revert s. induction p as [|x p IH]; intros s Hp.
  - by rewrite string_app_nil_l, substring_0.
  - destruct s as [|y s]; [done|]. simpl in Hp.
    destruct (ascii_dec x y) as [->|]; [|done].
    simpl String.length. rewrite substring_S, string_app_cons.
    f_equal. by apply IH.
Qed.

Lemma occursIn_cons c s t : occursIn s t -> occursIn s (String c t).
Proof.
  intros (before & after & ->). exists (String c before), after.
  by rewrite string_app_cons.
Qed.

Lemma occursIn_app a s t : occursIn s t -> occursIn s (a +:+ t).
Proof.
  intros H. induction a as [|c a IH]; [done|].
  rewrite string_app_cons. by apply occursIn_cons.
Qed.

Lemma occursIn_prefix s after : occursIn s (s +:+ after).
Proof. by exists "", after. Qed.

Lemma span_spec p s a b :
  Regex.span p s = (a, b) ->
  s = a +:+ b /\ allOf p a = true
  /\ match b with String c _ => p c = false | EmptyString => True end.
Proof.
  revert a b. induction s as [|c s IH]; intros a b; simpl.
  - by intros [= <- <-].
  - destruct (p c) eqn:Hc.
    + destruct (Regex.span p s) as [a' b'] eqn:Hs. intros [= <- <-].
      destruct (IH a' b' eq_refl) as (-> & Ha & Hb).
      split; [done|]. split; [|done]. simpl. by rewrite Hc.
    + intros [= <- <-]. by repeat split.
Qed.

(** X13.  [fileTreeRegex] (line 8).  Every body the scanner gets from a
    content file stands in the file between an opening and a closing
    [FileTree] tag, and ends at the first closing tag: no closing tag
    occurs inside it. *)
Theorem fileTreeRegex_sound (content_ body : string) :
  body ∈ Regex.fileTreeRegex content_ ->
  occursIn ("<FileTree>" +:+ body +:+ "</FileTree>") content_
  /\ ~ occursIn "</FileTree>" body.
Proof.
  assert (forall s body rest,
            Regex.untilClose s = Some (body, rest) ->
            s = body +:+ "</FileTree>" +:+ rest
            /\ ~ occursIn "</FileTree>" body) as Hclose.
  { induction s as [|c s IH]; intros b rest.
    - intros H. vm_compute in H. done.
    - change (Regex.untilClose (String c s))
        with (if Js.startsWith "</FileTree>" (String c s)
              then Some (EmptyString, Js.substring 11 (String c s))
              else match Regex.untilClose s with
                   | Some (body, rest) => Some (String c body, rest)
                   | None => None
                   end).
      destruct (Js.startsWith _ _) eqn:Hs.
      + intros [= <- <-]. split; [by apply startsWith_split in Hs|].
        intros (x & y & Hxy). apply (f_equal String.length) in Hxy.
        rewrite !string_length_app in Hxy. simpl in Hxy. lia.
      + destruct (Regex.untilClose s) as [[b' rest']|]; [|done].
        intros [= <- <-]. destruct (IH b' rest' eq_refl) as [-> Hno].
        split; [done|]. intros ([|x before] & after & Hocc).
        * rewrite string_app_nil_l in Hocc.
          rewrite <- string_app_cons, Hocc, string_app_assoc in Hs.
          unfold Js.startsWith in Hs. by rewrite prefix_app in Hs.
        * rewrite string_app_cons in Hocc. injection Hocc as _ Hocc.
          apply Hno. by exists before, after. }
  unfold Regex.fileTreeRegex. generalize (String.length content_) as fuel.
  intros fuel. revert content_.
  induction fuel as [|fuel IH]; intros s; [by intros ?%elem_of_nil|].
  destruct s as [|c s]; [by intros ?%elem_of_nil|].
  change (Regex.fileTreesFrom (S fuel) (String c s))
    with (if Js.startsWith "<FileTree>" (String c s)
          then match Regex.untilClose (Js.substring 10 (String c s)) with
               | Some (body, rest) => body :: Regex.fileTreesFrom fuel rest
               | None => Regex.fileTreesFrom fuel s
               end
          else Regex.fileTreesFrom fuel s).
  assert (body ∈ Regex.fileTreesFrom fuel s ->
          occursIn ("<FileTree>" +:+ body +:+ "</FileTree>") (String c s)
          /\ ~ occursIn "</FileTree>" body) as Hnext.
  { intros [Hocc Hno]%IH. split; [by apply occursIn_cons|done]. }
  destruct (Js.startsWith _ _) eqn:Hs; [|done].
  destruct (Regex.untilClose _) as [[b rest]|] eqn:Hu; [|done].
  apply Hclose in Hu as [Hu Hno]. apply startsWith_split in Hs.
  change (String.length "<FileTree>") with 10 in Hs. rewrite Hu in Hs.
  intros [->|Hin]%elem_of_cons.
  - split; [|done]. rewrite Hs. exists "", rest.
    by rewrite string_app_nil_l, !string_app_assoc.
  - apply IH in Hin as [Hocc Hno']. split; [|done]. rewrite Hs.
    apply (occursIn_app "<FileTree>"), (occursIn_app b),
      (occursIn_app "</FileTree>"), Hocc.
Qed.

Lemma fileTreeRegex_sound_witness :
  occursIn ("<FileTree>" +:+ "
- a.ts
" +:+ "</FileTree>") ("<FileTree>
- a.ts
</FileTree> and </FileTree>")
  /\ ~ occursIn "</FileTree>" "
- a.ts
".
Proof.
  apply (fileTreeRegex_sound "<FileTree>
- a.ts
</FileTree> and </FileTree>" "
- a.ts
").
  vm_compute. left.
Defined.

Lemma lowerChar_i c : Js.lowerChar c = "i"%char -> c = "i"%char \/ c = "I"%char.
Proof.
  destruct c as [[] [] [] [] [] [] [] []]; intros H; try discriminate H;
    auto.
Qed.

Lemma iconClassAt_spec s class rest :
  Regex.iconClassAt s = Some (class, rest) ->
  s = class +:+ rest
  /\ exists i head tail,
       class = String i ("-" +:+ head +:+ ":" +:+ tail)
       /\ (i = "i"%char \/ i = "I"%char)
       /\ head <> "" /\ tail <> ""
       /\ allOf Regex.isClassHead head = true
       /\ allOf Regex.isClassTail tail = true.
Proof.
  unfold Regex.iconClassAt. destruct s as [|i [|dash r]]; try done.
  destruct (Ascii.eqb (Js.lowerChar i) "i") eqn:Hi; [|done].
  destruct (Ascii.eqb dash "-") eqn:Hdash; [|done]. simpl.
  apply Ascii.eqb_eq in Hi, Hdash. subst dash.
  destruct (Regex.span Regex.isClassHead r) as [head after] eqn:Hhead.
  apply span_spec in Hhead as (-> & Hhead & _).
  destruct head as [|h hs]; [done|]. destruct after as [|colon r']; [done|].
  destruct (Ascii.eqb colon ":") eqn:Hcolon; [|done].
  apply Ascii.eqb_eq in Hcolon as ->.
  destruct (Regex.span Regex.isClassTail r') as [tail rest'] eqn:Htail.
  apply span_spec in Htail as (-> & Htail & _).
  destruct tail as [|t ts]; [done|]. intros [= <- <-]. split.
  - by rewrite !string_app_cons, !string_app_assoc.
  - exists i, (String h hs), (String t ts).
    split; [done|]. split; [by apply lowerChar_i|]. by repeat split.
Qed.

(** X14.  [iconClassRegex] (line 9).  Every class taken from a
    configuration file occurs in the file as it is listed, letter for
    letter, and has the shape of an icon class: [i-] (the [i] in either
    case), a non-empty collection name of letters, digits and hyphens, a
    colon, and a non-empty icon name of letters, digits, hyphens, colons,
    dots and slashes. *)
Theorem iconClassRegex_sound (source class : string) :
  class ∈ Regex.iconClassRegex source ->
  occursIn class source
  /\ exists i head tail,
       class = String i ("-" +:+ head +:+ ":" +:+ tail)
       /\ (i = "i"%char \/ i = "I"%char)
       /\ head <> "" /\ tail <> ""
       /\ allOf Regex.isClassHead head = true
       /\ allOf Regex.isClassTail tail = true.
Proof.
  unfold Regex.iconClassRegex. generalize (String.length source) as fuel.
  intros fuel. revert source.
  induction fuel as [|fuel IH]; intros s; [by intros ?%elem_of_nil|].
  destruct s as [|c s]; [by intros ?%elem_of_nil|].
  change (Regex.iconClassesFrom (S fuel) (String c s))
    with (match Regex.iconClassAt (String c s) with
          | Some (m, rest) => m :: Regex.iconClassesFrom fuel rest
          | None => Regex.iconClassesFrom fuel s
          end).
  destruct (Regex.iconClassAt (String c s)) as [[m rest]|] eqn:Hat.
  - apply iconClassAt_spec in Hat as [Hs Hshape].
    intros [->|Hin]%elem_of_cons.
    + split; [|done]. rewrite Hs. exists "", rest.
      by rewrite string_app_nil_l.
    + apply IH in Hin as [Hocc Hshape']. split; [|done].
      rewrite Hs. by apply occursIn_app.
  - intros [Hocc Hshape]%IH. split; [by apply occursIn_cons|done].
Qed.

Lemma iconClassRegex_sound_witness :
  occursIn "I-ph:rocket-launch" "sidebar: [{ icon: 'I-ph:rocket-launch' }]".
Proof.
  apply (iconClassRegex_sound "sidebar: [{ icon: 'I-ph:rocket-launch' }]"
           "I-ph:rocket-launch").
  vm_compute. left.
Defined.

Lemma allOf_excludes c s :
  allOf (fun x => negb (Ascii.eqb x c)) s = true -> Js.includes c s = false.
Proof.
  induction s as [|x s IH]; [done|]. simpl.
  intros [Hx Hs]%andb_true_iff. rewrite IH by done.
  by destruct (Ascii.eqb x c).
Qed.

Lemma lazyTitle_spec s t rest :
  Regex.lazyTitle s = Some (t, rest) ->
  t <> "" /\ Js.includes Regex.QUOTE t = false
  /\ exists mid,
       Js.includes Regex.LF mid = false
       /\ s = mid +:+ "title=" +:+ quoted t +:+ rest.
Proof.
  assert (forall s,
            (if Js.startsWith ("title=" +:+ String Regex.QUOTE "") s then
               match Regex.span (fun c => negb (Ascii.eqb c Regex.QUOTE))
                       (Js.substring 7 s) with
               | (String c t, String _ rest) => Some (String c t, rest)
               | _ => None
               end
             else None) = Some (t, rest) ->
            t <> "" /\ Js.includes Regex.QUOTE t = false
            /\ s = "title=" +:+ quoted t +:+ rest) as Hhere.
  { intros s'. destruct (Js.startsWith _ s') eqn:Hs; [|done].
    apply startsWith_split in Hs.
    change (String.length ("title=" +:+ String Regex.QUOTE "")) with 7 in Hs.
    destruct (Regex.span _ (Js.substring 7 s')) as [a b] eqn:Hspan.
    apply span_spec in Hspan as (Hsplit & Ha & Hb).
    destruct a as [|c a]; [done|]. destruct b as [|q b]; [done|].
    intros [= <- <-]. split; [done|]. split; [by apply allOf_excludes|].
    apply negb_false_iff, Ascii.eqb_eq in Hb as ->.
    rewrite Hs, Hsplit. unfold quoted.
    by rewrite !string_app_cons, !string_app_nil_l, !string_app_assoc. }
  induction s as [|c s IH].
  - intros H. vm_compute in H. done.
  - change (Regex.lazyTitle (String c s))
      with (match
              (if Js.startsWith ("title=" +:+ String Regex.QUOTE "") (String c s) then
                 match Regex.span (fun c => negb (Ascii.eqb c Regex.QUOTE))
                         (Js.substring 7 (String c s)) with
                 | (String c t, String _ rest) => Some (String c t, rest)
                 | _ => None
                 end
               else None)
            with
            | Some found => Some found
            | None => if Ascii.eqb c Regex.LF then None else Regex.lazyTitle s
            end).
    destruct (if Js.startsWith _ _ then _ else _) as [[t' rest']|] eqn:Hh.
    + intros [= -> ->]. apply Hhere in Hh as (? & ? & ->).
      split; [done|]. split; [done|]. by exists "".
    + destruct (Ascii.eqb c Regex.LF) eqn:Hc; [done|].
      intros (? & ? & mid & Hmid & ->)%IH.
      split; [done|]. split; [done|]. exists (String c mid).
      split; [|done]. simpl. by rewrite Hc, Hmid.
Qed.

Lemma langAt_spec s l r :
  Regex.langAt s = (l, r) ->
  s = default "" l +:+ r
  /\ forall l', l = Some l' ->
       exists c x, l' = String c x /\ Regex.isLetter c = true
                   /\ allOf Regex.isWord x = true.
Proof.
  unfold Regex.langAt. destruct s as [|c s]; [by intros [= <- <-]|].
  destruct (Regex.isLetter c) eqn:Hc; [|by intros [= <- <-]].
  destruct (Regex.span Regex.isWord (String c s)) as [a b] eqn:Hspan.
  intros [= <- <-]. pose proof Hspan as (Hs & Ha & _)%span_spec.
  split; [done|]. intros l' [= <-].
  simpl in Hspan. unfold Regex.isWord at 1 in Hspan. rewrite Hc in Hspan.
  simpl in Hspan. destruct (Regex.span Regex.isWord s) as [a' b'].
  injection Hspan as <- <-. exists c, a'. split; [done|]. split; [done|].
  simpl in Ha. by apply andb_true_iff in Ha as [_ Ha].
Qed.

Lemma codeBlockAt_spec s m rest :
  Regex.codeBlockAt s = (m, rest) ->
  (forall l, Regex.lang m = Some l ->
     exists c x, l = String c x /\ Regex.isLetter c = true
                 /\ allOf Regex.isWord x = true)
  /\ match Regex.title m with
     | Some t =>
         t <> "" /\ Js.includes Regex.QUOTE t = false
         /\ exists space mid,
              Js.isSpace space = true /\ Js.includes Regex.LF mid = false
              /\ s = default "" (Regex.lang m) +:+ String space mid
                     +:+ "title=" +:+ quoted t +:+ rest
     | None => s = default "" (Regex.lang m) +:+ rest
     end.
Proof.
  unfold Regex.codeBlockAt.
  destruct (Regex.langAt s) as [l after] eqn:Hlang.
  apply langAt_spec in Hlang as [-> Hshape].
  destruct after as [|c r]; [by intros [= <- <-]|].
  destruct (Js.isSpace c) eqn:Hc; [|by intros [= <- <-]].
  destruct (Regex.lazyTitle r) as [[t rest']|] eqn:Ht; [|by intros [= <- <-]].
  intros [= <- <-]. simpl. split; [done|].
  apply lazyTitle_spec in Ht as (? & ? & mid & ? & ->).
  split; [done|]. split; [done|]. exists c, mid.
  split; [done|]. split; [done|].
  by rewrite !string_app_cons.
Qed.

(** X15.  [codeBlockRegex] (line 7).  For every match the scanner gets:
    the language, if there is one, is a letter followed by letters, digits
    and underscores, and stands in the file right after three backticks;
    the title, if there is one, is not empty, holds no double quote, and
    stands in the file as [title=] and the title in double quotes, after
    the language, one white-space character and then any text without a
    line feed.  The white-space character may itself be a line feed, so a
    title can be taken from the first line of the code. *)
Theorem codeBlockRegex_sound (content_ : string) (m : Regex.CodeBlock) :
  m ∈ Regex.codeBlockRegex content_ ->
  (forall l, Regex.lang m = Some l ->
     exists c x, l = String c x /\ Regex.isLetter c = true
                 /\ allOf Regex.isWord x = true)
  /\ match Regex.title m with
     | Some t =>
         t <> "" /\ Js.includes Regex.QUOTE t = false
         /\ exists space mid,
              Js.isSpace space = true /\ Js.includes Regex.LF mid = false
              /\ occursIn ("```" +:+ default "" (Regex.lang m)
                           +:+ String space mid +:+ "title=" +:+ quoted t)
                   content_
     | None => occursIn ("```" +:+ default "" (Regex.lang m)) content_
     end.
Proof.
  unfold Regex.codeBlockRegex. generalize (String.length content_) as fuel.
  intros fuel. revert content_.
  induction fuel as [|fuel IH]; intros s; [by intros ?%elem_of_nil|].
  destruct s as [|c s]; [by intros ?%elem_of_nil|].
  change (Regex.codeBlocksFrom (S fuel) (String c s))
    with (if Js.startsWith "```" (String c s)
          then let (m, rest) := Regex.codeBlockAt (Js.substring 3 (String c s)) in
               m :: Regex.codeBlocksFrom fuel rest
          else Regex.codeBlocksFrom fuel s).
  assert (forall a t,
            (forall l, Regex.lang m = Some l ->
               exists c x, l = String c x /\ Regex.isLetter c = true
                           /\ allOf Regex.isWord x = true)
            /\ match Regex.title m with
               | Some t' =>
                   t' <> "" /\ Js.includes Regex.QUOTE t' = false
                   /\ exists space mid,
                        Js.isSpace space = true /\ Js.includes Regex.LF mid = false
                        /\ occursIn ("```" +:+ default "" (Regex.lang m)
                                     +:+ String space mid +:+ "title="
                                     +:+ quoted t') t
               | None => occursIn ("```" +:+ default "" (Regex.lang m)) t
               end ->
            (forall l, Regex.lang m = Some l ->
               exists c x, l = String c x /\ Regex.isLetter c = true
                           /\ allOf Regex.isWord x = true)
            /\ match Regex.title m with
               | Some t' =>
                   t' <> "" /\ Js.includes Regex.QUOTE t' = false
                   /\ exists space mid,
                        Js.isSpace space = true /\ Js.includes Regex.LF mid = false
                        /\ occursIn ("```" +:+ default "" (Regex.lang m)
                                     +:+ String space mid +:+ "title="
                                     +:+ quoted t') (a +:+ t)
               | None => occursIn ("```" +:+ default "" (Regex.lang m)) (a +:+ t)
               end) as Hlater.
  { intros a t [Hl Ht]. split; [done|].
    destruct (Regex.title m) as [t'|]; [|by apply occursIn_app].
    destruct Ht as (? & ? & space & mid & ? & ? & Hocc).
    split; [done|]. split; [done|]. exists space, mid.
    split; [done|]. split; [done|]. by apply occursIn_app. }
  destruct (Js.startsWith _ _) eqn:Hs.
  - apply startsWith_split in Hs.
    change (String.length "```") with 3 in Hs.
    destruct (Regex.codeBlockAt _) as [m' rest] eqn:Hat.
    apply codeBlockAt_spec in Hat as [Hl Ht].
    intros [->|Hin]%elem_of_cons.
    + split; [done|]. rewrite Hs.
      destruct (Regex.title m') as [t|].
      * destruct Ht as (? & ? & space & mid & ? & ? & ->).
        split; [done|]. split; [done|]. exists space, mid.
        split; [done|]. split; [done|]. exists "", rest.
        by rewrite string_app_nil_l, !string_app_assoc.
      * rewrite Ht. exists "", rest.
        by rewrite string_app_nil_l, !string_app_assoc.
    + apply IH in Hin. rewrite Hs.
      assert (exists a, Js.substring 3 (String c s) = a +:+ rest) as [a ->].
      { destruct (Regex.title m') as [t|].
        - destruct Ht as (_ & _ & space & mid & _ & _ & ->).
          eexists. by rewrite <- !string_app_assoc.
        - eexists. exact Ht. }
      rewrite <- string_app_assoc. by apply Hlater.
  - intros Hin%IH. change (String c s) with (String c "" +:+ s).
    by apply Hlater.
Qed.

Lemma codeBlockRegex_sound_witness :
  exists space mid,
    Js.isSpace space = true /\ Js.includes Regex.LF mid = false
    /\ occursIn ("```" +:+ "js" +:+ String space mid +:+ "title="
                 +:+ quoted "hello")
         ("```js
const title=" +:+ quoted "hello" +:+ "
```").
Proof.
  destruct (codeBlockRegex_sound
              ("```js
const title=" +:+ quoted "hello" +:+ "
```") {| Regex.lang := Some "js"; Regex.title := Some "hello" |})
    as (_ & _ & _ & space & mid & Hspace & Hmid & Hocc).
  - vm_compute. left.
  - by exists space, mid.
Defined.

(** ** The safelist file determines the set of classes *)

Lemma unescapeAt_escape c r : unescapeAt (JSON.escape c +:+ r) = Some (c, r).
Proof. by destruct c as [[] [] [] [] [] [] [] []]. Qed.

Lemma escapeAll_inj s1 s2 r1 r2 :
  JSON.escapeAll s1 +:+ String Regex.QUOTE r1
  = JSON.escapeAll s2 +:+ String Regex.QUOTE r2 ->
  s1 = s2 /\ r1 = r2.
Proof.
  revert s2. induction s1 as [|c1 s1 IH]; intros [|c2 s2]; simpl.
  - rewrite !string_app_nil_l. by intros [= ->].
  - rewrite string_app_nil_l, string_app_assoc.
    intros H%(f_equal unescapeAt). by rewrite unescapeAt_escape in H.
  - rewrite string_app_nil_l, string_app_assoc.
    intros H%(f_equal unescapeAt). by rewrite unescapeAt_escape in H.
  - rewrite !string_app_assoc. intros H%(f_equal unescapeAt).
    rewrite !unescapeAt_escape in H. injection H as -> H.
    by destruct (IH s2 H) as [-> ->].
Qed.

Lemma quote_inj s1 s2 r1 r2 :
  JSON.quote s1 +:+ r1 = JSON.quote s2 +:+ r2 -> s1 = s2 /\ r1 = r2.
Proof.
  unfold JSON.quote. rewrite !string_app_cons, !string_app_assoc.
  intros [= H]. rewrite !string_app_cons, !string_app_nil_l in H.
  by apply escapeAll_inj.
Qed.

Lemma join_quote_inj l1 l2 :
  l1 <> [] -> l2 <> [] ->
  Js.join ("," +:+ JSON.NEWLINE +:+ "  ") (map JSON.quote l1)
    +:+ JSON.NEWLINE +:+ "]"
  = Js.join ("," +:+ JSON.NEWLINE +:+ "  ") (map JSON.quote l2)
    +:+ JSON.NEWLINE +:+ "]" ->
  l1 = l2.
Proof.
  revert l2. induction l1 as [|x [|x' t] IH]; intros [|y [|y' t']] H1 H2;
    try done.
  - simpl. by intros [-> _]%quote_inj.
  - change (Js.join _ (map JSON.quote (y :: y' :: t')))
      with (JSON.quote y +:+ ("," +:+ JSON.NEWLINE +:+ "  ")
            +:+ Js.join ("," +:+ JSON.NEWLINE +:+ "  ") (map JSON.quote (y' :: t'))).
    simpl Js.join. rewrite !string_app_assoc.
    intros [_ H]%quote_inj. discriminate H.
  - change (Js.join _ (map JSON.quote (x :: x' :: t)))
      with (JSON.quote x +:+ ("," +:+ JSON.NEWLINE +:+ "  ")
            +:+ Js.join ("," +:+ JSON.NEWLINE +:+ "  ") (map JSON.quote (x' :: t))).
    simpl Js.join. rewrite !string_app_assoc.
    intros [_ H]%quote_inj. discriminate H.
  - change (Js.join _ (map JSON.quote (x :: x' :: t)))
      with (JSON.quote x +:+ ("," +:+ JSON.NEWLINE +:+ "  ")
            +:+ Js.join ("," +:+ JSON.NEWLINE +:+ "  ") (map JSON.quote (x' :: t))).
    change (Js.join _ (map JSON.quote (y :: y' :: t')))
      with (JSON.quote y +:+ ("," +:+ JSON.NEWLINE +:+ "  ")
            +:+ Js.join ("," +:+ JSON.NEWLINE +:+ "  ") (map JSON.quote (y' :: t'))).
    rewrite !string_app_assoc. intros [-> H]%quote_inj.
    do 3 apply (inj (String.app _)) in H.
    f_equal. by apply IH.
Qed.

(** No two lists of strings are serialised alike. *)
Lemma stringify_inj l1 l2 : JSON.stringify l1 = JSON.stringify l2 -> l1 = l2.
Proof.
  unfold JSON.stringify. destruct l1 as [|x t], l2 as [|y t']; try done.
  intros H. apply (inj (String.app _)), (inj (String.app _)),
    (inj (String.app _)) in H.
  by apply join_quote_inj.
Qed.

Lemma sort_elements_inj (X Y : gset string) :
  sort (elements X) = sort (elements Y) -> X = Y.
Proof.
  intros H. apply set_eq. intros class.
  destruct (newSafelist_sorted X) as (_ & _ & HX).
  destruct (newSafelist_sorted Y) as (_ & _ & HY).
  by rewrite <- HX, H, HY.
Qed.

(** X16.  The test of line 124.  The serialisation loses nothing: two
    sets of classes give the same safelist text only if they are equal.
    So when the safelist on disk is the one written for a set of classes,
    [generateSafelist] returns [false] exactly when the classes in use are
    that set, and rewrites the file and returns [true] exactly when they
    are not. *)
Theorem generateSafelist_rewrites_iff_changed
    (customFileIcons : option (gmap string string)) (w w0 : World)
    (usedIcons persisted : gset string) :
  collectIcons customFileIcons w = (Returned usedIcons, w0) ->
  safelistFile (disk w) = Some (JSON.stringify (sort (elements persisted))) ->
  (fst (generateSafelist customFileIcons w) = Returned false
   <-> usedIcons = persisted)
  /\ (fst (generateSafelist customFileIcons w) = Returned true
      <-> usedIcons <> persisted)
  /\ safelistFile (disk (snd (generateSafelist customFileIcons w)))
     = Some (JSON.stringify (sort (elements usedIcons))).
Proof.
  intros Hrun Hfile.
  destruct (Steady_collectIcons customFileIcons w)
    as (u & w0' & Hrun' & Hf & _).
  rewrite Hrun in Hrun'. injection Hrun' as <- <-.
  destruct Hf as (_ & _ & Hkeep & _). rewrite <- Hkeep in Hfile.
  rewrite (generateSafelist_run _ _ _ _ Hrun).
  destruct (decide (usedIcons = persisted)) as [->|Hne].
  - rewrite persist_unchanged by done. simpl. by repeat split.
  - destruct (persist_written usedIcons w0) as (w' & -> & Hjson & _).
    + rewrite Hfile. intros [= H%stringify_inj%sort_elements_inj]. by subst.
    + by rewrite Hfile.
    + simpl. by repeat split.
Qed.

Lemma staleSite_collects usedIcons w0 :
  collectIcons None staleSite = (Returned usedIcons, w0) ->
  usedIcons <> {["i-material-icon-theme:document"]}.
Proof.
  intros Hrun Heq.
  assert (match fst (collectIcons None staleSite) with
          | Returned icons => size icons
          | Threw _ => 0
          end = 5) as Hsize by (vm_compute; reflexivity).
  rewrite Hrun in Hsize. simpl in Hsize.
  rewrite Heq, size_singleton in Hsize. discriminate Hsize.
Qed.

Lemma staleSite_file :
  safelistFile (disk staleSite)
  = Some (JSON.stringify
            (sort (elements ({["i-material-icon-theme:document"]} : gset string)))).
Proof. vm_compute. reflexivity. Qed.

Lemma generateSafelist_rewrites_iff_changed_witness :
  fst (generateSafelist None staleSite) = Returned true.
Proof.
  destruct (Steady_collectIcons None staleSite) as (usedIcons & w0 & Hrun & _ & _).
  apply (proj1 (proj2 (generateSafelist_rewrites_iff_changed
                         None staleSite w0 usedIcons
                         {["i-material-icon-theme:document"]} Hrun staleSite_file))).
  by eapply staleSite_collects.
Defined.

(** ** The scan as a union *)

Lemma Yields_ret {A} (a : A) w : Yields (ret a) a w.
Proof. intros v _. exists v. split; [done|apply frame_refl]. Qed.

Lemma Yields_bind {A B} (c : Async A) (k : A -> Async B) a b w :
  Yields c a w -> Yields (k a) b w -> Yields (bind c k) b w.
Proof.
  intros Hc Hk v Hv. destruct (Hc v Hv) as (v1 & Hrun & Hf).
  destruct (Hk v1) as (v2 & Hrun2 & Hf2).
  { eapply sameInputs_trans; [exact Hv|by apply frame_sameInputs]. }
  exists v2. split; [|by eapply frame_trans].
  unfold bind. by rewrite Hrun.
Qed.

Lemma Yields_PromiseAll {A B} (a : Async A) (b : Async B) x y w :
  Yields a x w -> Yields b y w -> Yields (PromiseAll a b) (x, y) w.
Proof.
  intros Ha Hb v Hv. destruct (Ha v Hv) as (v1 & Hrun & Hf).
  destruct (Hb v1) as (v2 & Hrun2 & Hf2).
  { eapply sameInputs_trans; [exact Hv|by apply frame_sameInputs]. }
  exists v2. split; [|by eapply frame_trans].
  unfold PromiseAll. by rewrite Hrun, Hrun2.
Qed.

Lemma Steady_Yields {A} (c : Async A) (d : A) w :
  Steady c ->
  Yields c match fst (c w) with Returned a => a | Threw _ => d end w.
Proof.
  intros Hc v Hv. destruct (Hc v) as (a & v' & Hrun & Hf & Hdet).
  exists v'. split; [|done].
  by rewrite (Hdet w (sameInputs_sym _ _ Hv)).
Qed.

Lemma Yields_resolveIcon w fileName language_ :
  Yields (resolveIcon fileName language_) (iconOf w fileName language_) w.
Proof. apply (Steady_Yields _ None), Steady_resolveIcon. Qed.

Lemma Yields_resolveFolderIcon w folderName isOpen :
  Yields (resolveFolderIcon folderName isOpen)
    (folderIconOf w folderName isOpen) w.
Proof. apply (Steady_Yields _ None), Steady_resolveFolderIcon. Qed.

Lemma Yields_same {A} (c : Async A) (a b : A) w :
  a = b -> Yields c a w -> Yields c b w.
Proof. by intros ->. Qed.

Lemma Yields_forEach {A} (step : A -> gset string -> Async (gset string))
    (contrib : A -> gset string) (items : list A) w :
  (forall x acc, Yields (step x acc) (contrib x ∪ acc) w) ->
  forall acc, Yields (forEach step items acc) (⋃ (map contrib items) ∪ acc) w.
Proof.
  intros Hstep. induction items as [|x rest IH]; intros acc; simpl.
  - rewrite union_empty_l_L. apply Yields_ret.
  - eapply Yields_bind; [apply Hstep|].
    eapply Yields_same; [|apply IH].
    by rewrite (comm_L (∪) (contrib x) (⋃ map contrib rest)), !(assoc_L (∪)).
Qed.

Lemma addIcon_union icon (a usedIcons : gset string) :
  addIcon icon (a ∪ usedIcons) = addIcon icon a ∪ usedIcons.
Proof.
  unfold addIcon. destruct icon as [class|]; [|done].
  destruct (Js.truthy class); [|done]. by rewrite (assoc_L (∪)).
Qed.

Lemma Yields_scanLine w lines i usedIcons :
  Yields (scanLine lines i usedIcons) (lineIcons w lines i ∪ usedIcons) w.
Proof.
  unfold scanLine, lineIcons.
  destruct (lines !! i) as [line|];
    [|rewrite union_empty_l_L; apply Yields_ret].
  destruct (skipped line); [rewrite union_empty_l_L; apply Yields_ret|].
  destruct (isDirectory _ _ _).
  - unfold scanDirectory.
    eapply Yields_bind.
    { apply Yields_PromiseAll; apply Yields_resolveFolderIcon. }
    cbv beta iota. eapply Yields_same; [|apply Yields_ret].
    by rewrite <- !addIcon_union, union_empty_l_L.
  - unfold scanFileEntry.
    eapply Yields_bind; [apply Yields_resolveIcon|].
    eapply Yields_same; [|apply Yields_ret].
    by rewrite <- addIcon_union, union_empty_l_L.
Qed.

Lemma Yields_scanFileTree w tree usedIcons :
  Yields (scanFileTree tree usedIcons) (treeIcons w tree ∪ usedIcons) w.
Proof.
  unfold scanFileTree, treeIcons. destruct (negb _).
  - rewrite union_empty_l_L. apply Yields_ret.
  - apply Yields_forEach. intros i acc. apply Yields_scanLine.
Qed.

Lemma Yields_scanCodeBlock w m usedIcons :
  Yields (scanCodeBlock m usedIcons) (blockIcons w m ∪ usedIcons) w.
Proof.
  unfold scanCodeBlock, blockIcons, getIconDetails.
  destruct (decide _).
  - eapply Yields_bind; [apply Yields_ret|]. cbv beta iota.
    rewrite union_empty_l_L. apply Yields_ret.
  - eapply Yields_bind.
    { eapply Yields_bind; [apply Yields_resolveIcon|apply Yields_ret]. }
    cbv beta iota. eapply Yields_same; [|apply Yields_ret].
    by rewrite <- addIcon_union, union_empty_l_L.
Qed.

Lemma Yields_scanContent w content_ usedIcons :
  Yields (scanContent content_ usedIcons) (contentIcons w content_ ∪ usedIcons) w.
Proof.
  unfold scanContent, contentIcons.
  eapply Yields_bind.
  { apply Yields_forEach. intros m acc. apply Yields_scanCodeBlock. }
  eapply Yields_same;
    [|apply Yields_forEach; intros tree acc; apply Yields_scanFileTree].
  by rewrite (comm_L (∪) (⋃ map (blockIcons w) (Regex.codeBlockRegex content_))
                (⋃ map (treeIcons w) (Regex.fileTreeRegex content_))),
    !(assoc_L (∪)).
Qed.

Lemma Yields_scanConfig w cfg usedIcons :
  Yields (scanConfig cfg usedIcons) (configIcons w cfg ∪ usedIcons) w.
Proof.
  intros v (_ & _ & _ & Hcfg). exists v. split; [|apply frame_refl].
  rewrite scanConfig_run. unfold configIcons. rewrite Hcfg.
  destruct (configFiles (disk v) !! cfg); [done|].
  by rewrite union_empty_l_L.
Qed.

Lemma Yields_read {A} (f : World -> A) w :
  (forall v, sameInputs w v -> f v = f w) -> Yields (read f) (f w) w.
Proof.
  intros Hf v Hv. exists v. split; [|apply frame_refl].
  unfold read. by rewrite (Hf v Hv).
Qed.

Lemma Yields_emit e w : isSafelistWrite e = false -> Yields (emit e) tt w.
Proof.
  intros He v _. eexists. split; [reflexivity|].
  apply frame_withTrace. simpl. by rewrite He.
Qed.

Lemma Yields_collectIcons customFileIcons w :
  Yields (collectIcons customFileIcons) (iconsInUse customFileIcons w) w.
Proof.
  unfold collectIcons, iconsInUse.
  eapply Yields_bind.
  { apply (Yields_read (fun w => contentFiles (disk w))).
    by intros v (_ & _ & ? & _). }
  cbv beta. eapply Yields_bind.
  { instantiate (1 := tt).
    destruct (decide _); [by apply Yields_emit|apply Yields_ret]. }
  eapply Yields_bind.
  { apply (Yields_forEach scanContent (contentIcons w)).
    intros c acc. apply Yields_scanContent. }
  eapply Yields_bind.
  { apply (Yields_forEach scanConfig (configIcons w)).
    intros c acc. apply Yields_scanConfig. }
  eapply Yields_same; [|apply Yields_ret].
  rewrite union_empty_r_L.
  rewrite (comm_L (∪) (⋃ map (configIcons w) astroConfigs)
             (⋃ map (contentIcons w) (contentFiles (disk w)))).
  destruct customFileIcons as [icons|]; [|by rewrite union_empty_r_L].
  by rewrite (comm_L (∪) (list_to_set _)).
Qed.

(** X17.  The scan as a whole (lines 12 to 115).  Take a run in which no
    lookup among the overrides meets an inherited key.  The set of classes
    [generateSafelist] collects is a union over the input: for every match
    of [codeBlockRegex] in a content file whose language group is not
    [sh], the class [resolveIcon] gives for the title and language groups
    of the match; for every line of every tree that is not skipped, the
    class [resolveIcon] gives for the entry, or for a directory the two
    classes [resolveFolderIcon] gives, closed and open; every match of
    [iconClassRegex] in the readable configuration files; every value of
    the override map passed in.  The resolvers are the ones of the world
    the run starts in: the order of the scan and what earlier calls have
    fetched and cached do not change any answer.  Results that are [null],
    [undefined] or empty add nothing. *)
Theorem collectIcons_is_union
    (customFileIcons : option (gmap string string)) (w : World) :
  ownKeysInContent w = true ->
  fst (collectIcons customFileIcons w) = Returned (iconsInUse customFileIcons w).
Proof.
  intros _.
  destruct (Yields_collectIcons customFileIcons w w (sameInputs_refl w))
    as (w' & -> & _).
  done.
Qed.

Lemma siteWorld_ownKeys : ownKeysInContent siteWorld = true.
Proof. vm_compute. reflexivity. Qed.

Lemma collectIcons_is_union_witness :
  fst (collectIcons None siteWorld) = Returned (iconsInUse None siteWorld).
Proof. apply (collectIcons_is_union None siteWorld), siteWorld_ownKeys. Defined.

Lemma elem_of_addIcon class icon :
  class ∈ addIcon icon ∅ <-> icon = Some class /\ class <> "".
Proof.
  unfold addIcon. destruct icon as [c|].
  - destruct (Js.truthy c) eqn:Hc.
    + rewrite union_empty_r_L, elem_of_singleton. apply truthy_true in Hc.
      split; [by intros ->|by intros [[= ->] _]].
    + split; [by intros ?%elem_of_empty|].
      intros [[= ->] Hne%truthy_true]. congruence.
  - split; [by intros ?%elem_of_empty|by intros [? _]].
Qed.

Lemma iconOf_Some w fileName language_ class :
  fst (resolveIcon fileName language_ w) = Returned (Some class) <->
  iconOf w fileName language_ = Some class.
Proof.
  unfold iconOf. destruct (Steady_resolveIcon fileName language_ w)
    as (a & w' & -> & _). simpl. split; congruence.
Qed.

Lemma folderIconOf_Some w folderName isOpen class :
  fst (resolveFolderIcon folderName isOpen w) = Returned (Some class) <->
  folderIconOf w folderName isOpen = Some class.
Proof.
  unfold folderIconOf. destruct (Steady_resolveFolderIcon folderName isOpen w)
    as (a & w' & -> & _). simpl. split; congruence.
Qed.

Lemma elem_of_union_map {A} (f : A -> gset string) (items : list A) class :
  class ∈ ⋃ (map f items) <-> exists x, x ∈ items /\ class ∈ f x.
Proof.
  rewrite elem_of_union_list. split.
  - intros (X & HX & Hclass). change (X ∈ f <$> items) in HX.
    apply list_elem_of_fmap in HX as (x & -> & Hx). eauto.
  - intros (x & Hx & Hclass). exists (f x). split; [|done].
    change (f x ∈ f <$> items). apply list_elem_of_fmap. eauto.
Qed.

(** X18.  Nothing in the content is missed (lines 22 to 89).  In the set
    a run collects: for every match of [codeBlockRegex] in a content file
    whose language group is not [sh], the class [resolveIcon] gives for the
    title and language groups of the match at the start of the run, when
    it gives one that is not empty; for every line of a tree that is not
    skipped, the class of the file entry, or for a directory entry both
    the closed and the open folder class, again when there is one and it
    is not empty.  The title and the file entry are taken with override
    keys that are not inherited ones. *)
Theorem collectIcons_misses_nothing
    (customFileIcons : option (gmap string string)) (w w0 : World)
    (usedIcons : gset string) :
  collectIcons customFileIcons w = (Returned usedIcons, w0) ->
  (forall content_ m class,
     content_ ∈ contentFiles (disk w) ->
     m ∈ Regex.codeBlockRegex content_ ->
     Regex.lang m <> Some "sh" ->
     ownKeys (customIconsOf w) (Regex.title m) ->
     fst (resolveIcon (Regex.title m) (Regex.lang m) w) = Returned (Some class) ->
     class <> "" ->
     class ∈ usedIcons)
  /\ (forall content_ tree i line class,
        content_ ∈ contentFiles (disk w) ->
        tree ∈ Regex.fileTreeRegex content_ ->
        tree <> "" ->
        parseLines tree !! i = Some line ->
        skipped line = false ->
        (if isDirectory (entryNameOf line) line (parseLines tree !! (i + 1))
         then exists isOpen,
                fst (resolveFolderIcon
                       (Js.stripTrailingSeparators (Js.trim (entryNameOf line)))
                       isOpen w) = Returned (Some class)
         else ownKeys (customIconsOf w) (Some (entryNameOf line))
              /\ fst (resolveIcon (Some (entryNameOf line)) None w)
                 = Returned (Some class)) ->
        class <> "" ->
        class ∈ usedIcons).
Proof.
  intros Hrun.
  destruct (Yields_collectIcons customFileIcons w w (sameInputs_refl w))
    as (w' & Hrun' & _).
  rewrite Hrun in Hrun'. injection Hrun' as -> _.
  unfold iconsInUse. split.
  - intros content_ m class Hfile Hm Hsh _ Hicon Hne.
    do 2 apply elem_of_union_l. apply elem_of_union_map.
    exists content_. split; [done|]. unfold contentIcons.
    apply elem_of_union_l, elem_of_union_map. exists m. split; [done|].
    unfold blockIcons. rewrite decide_False by done.
    apply elem_of_addIcon. split; [|done]. by apply iconOf_Some.
  - intros content_ tree i line class Hfile Htree Hne Hline Hskip Hicon Hclass.
    do 2 apply elem_of_union_l. apply elem_of_union_map.
    exists content_. split; [done|]. unfold contentIcons.
    apply elem_of_union_r, elem_of_union_map. exists tree. split; [done|].
    unfold treeIcons. apply truthy_true in Hne. rewrite Hne. simpl.
    apply elem_of_union_map. exists i. split.
    { apply elem_of_seq. apply lookup_lt_Some in Hline. lia. }
    unfold lineIcons. rewrite Hline, Hskip.
    destruct (isDirectory _ _ _).
    + destruct Hicon as [[|] Hicon%folderIconOf_Some].
      * rewrite <- (union_empty_l_L (addIcon _ ∅)), addIcon_union.
        apply elem_of_union_l, elem_of_addIcon. by split.
      * rewrite <- (union_empty_l_L (addIcon _ ∅)), addIcon_union.
        apply elem_of_union_r, elem_of_addIcon. by split.
    + destruct Hicon as [_ Hicon].
      apply elem_of_addIcon. split; [|done]. by apply iconOf_Some.
Qed.

Lemma collectIcons_misses_nothing_witness :
  exists usedIcons w0,
    collectIcons None siteWorld = (Returned usedIcons, w0)
    /\ "i-material-icon-theme:typescript" ∈ usedIcons
    /\ "i-material-icon-theme:folder-src-open" ∈ usedIcons.
Proof.
  destruct (Steady_collectIcons None siteWorld)
    as (usedIcons & w0 & Hrun & _ & _).
  exists usedIcons, w0. split; [exact Hrun|].
  destruct (collectIcons_misses_nothing None siteWorld w0 usedIcons Hrun)
    as [Hblocks Htrees].
  split.
  - apply (Hblocks guidePage
             {| Regex.lang := Some "ts"; Regex.title := Some "src/index.ts" |}).
    + left.
    + vm_compute. left.
    + discriminate.
    + reflexivity.
    + vm_compute. reflexivity.
    + discriminate.
  - apply (Htrees guidePage "
- src/
  - index.ts
  - ...
- README.md
" 0 {| indentation := 0; content := "- src/" |}).
    + left.
    + vm_compute. left.
    + discriminate.
    + vm_compute. reflexivity.
    + vm_compute. reflexivity.
    + exists true. vm_compute. reflexivity.
    + discriminate.
Defined.

Lemma getIconClass_defined tables pairs class :
  getIconClass tables pairs = Some class ->
  exists name, name ∈ iconDefinitions tables /\ class = materialClass name.
Proof.
  induction pairs as [|[key [table|]] rest IH]; simpl; [done| |done].
  destruct (definedClass _ _) as [c|] eqn:Hd; [|done].
  intros [= <-]. apply definedClass_Some in Hd as (name & _ & ? & ->). eauto.
Qed.

Lemma resolveWithData_known data fileName language_ class :
  resolveWithData data fileName language_ = Some class ->
  (exists name, name ∈ iconDefinitions (materialIcons data)
                /\ class = materialClass name)
  \/ class ∈ [DOCUMENT; SVELTE_JS; SVELTE_TS; FOLDER; FOLDER_OPEN].
Proof.
  unfold resolveWithData. destruct (_ && _); [done|].
  destruct (svelteSpecial fileName) as [c|] eqn:Hsvelte.
  { intros [= <-]. right.
    apply svelteSpecial_Some in Hsvelte as [-> | ->];
      [apply list_elem_of_further|do 2 apply list_elem_of_further];
      apply list_elem_of_here. }
  destruct (match fileName with
            | Some name => if Js.truthy name then fileProbes data name else None
            | None => None
            end) as [c|] eqn:Hfile.
  { intros [= <-]. left. destruct fileName as [name|]; [|done].
    destruct (Js.truthy name); [|done]. unfold fileProbes in Hfile.
    destruct (getIconClass _ _) as [c'|] eqn:Hprobe.
    - injection Hfile as <-. by eapply getIconClass_defined.
    - destruct (negb _); [|done].
      apply definedClass_Some in Hfile as (n & _ & ? & ->). eauto. }
  destruct (languageProbe data language_) as [c|] eqn:Hlang.
  { intros [= <-]. left. unfold languageProbe in Hlang.
    destruct language_ as [id|]; [|done]. destruct (Js.truthy id); [|done].
    apply definedClass_Some in Hlang as (n & _ & ? & ->). eauto. }
  intros [= <-]. right. apply list_elem_of_here.
Qed.

Lemma iconOf_known w fileName language_ class :
  iconOf w fileName language_ = Some class -> class <> "" /\ knownClass w class.
Proof.
  unfold iconOf. rewrite resolveIcon_result.
  destruct (customIcon (customIconsOf w) fileName) as [icon|] eqn:Hcustom.
  - intros [= ->]. split; [by eapply customIcon_nonempty|]. left.
    unfold customIcon in Hcustom. destruct fileName as [name|]; [|done].
    destruct (customIconsOf w) as [icons|]; [|done].
    destruct (Js.truthy name); [|done].
    apply firstOverride_Some in Hcustom as (key & _ & _ & ? & _). eauto.
  - destruct (availableData w) as [data|] eqn:Hdata; [|done].
    intros Hclass. split; [by eapply resolveWithData_nonempty|].
    apply resolveWithData_known in Hclass as [(name & ? & ->)|?].
    + right. left. eauto.
    + by do 2 right.
Qed.

Lemma folderIconOf_known w folderName isOpen class :
  folderIconOf w folderName isOpen = Some class ->
  class <> "" /\ knownClass w class.
Proof.
  unfold folderIconOf. rewrite resolveFolderIcon_result.
  destruct (customIconsOf w ≫= _) as [icon|] eqn:Hcustom.
  - intros [= ->]. destruct (customIconsOf w) as [icons|] eqn:Hc; [|done].
    simpl in Hcustom. apply get_Some in Hcustom as [? ?].
    split; [done|]. left. eauto.
  - destruct (availableData w) as [data|] eqn:Hdata; [|done]. cbv zeta.
    destruct (definedClass _ _) as [c|] eqn:Hd.
    + intros [= ->]. apply definedClass_Some in Hd as (name & _ & ? & ->).
      split; [apply materialClass_nonempty|]. right. left. eauto.
    + intros [= <-]. split; [by destruct isOpen|]. do 2 right.
      destruct isOpen;
        [do 4 apply list_elem_of_further|do 3 apply list_elem_of_further];
        apply list_elem_of_here.
Qed.

(** X19.  Nothing else is listed (lines 20 to 115).  Take a run in which
    no lookup among the overrides meets an inherited key.  Every class in
    the set it collects is a value of the override map passed in, or a
    match of [iconClassRegex] in a readable configuration file, or a
    non-empty class the resolvers hand out in the world the run starts in:
    a value of the registered override map, the class of an icon name that
    has a definition in the available icon data, or one of the five
    built-in classes.  An icon name without a definition never gets into
    the safelist through the tables. *)
Theorem collectIcons_lists_only
    (customFileIcons : option (gmap string string)) (w w0 : World)
    (usedIcons : gset string) (class : string) :
  ownKeysInContent w = true ->
  collectIcons customFileIcons w = (Returned usedIcons, w0) ->
  class ∈ usedIcons ->
  (exists icons key, customFileIcons = Some icons /\ icons !! key = Some class)
  \/ (exists cfg source,
        cfg ∈ astroConfigs /\ configFiles (disk w) !! cfg = Some source
        /\ class ∈ Regex.iconClassRegex source)
  \/ (class <> "" /\ knownClass w class).
Proof.
  intros _ Hrun.
  destruct (Yields_collectIcons customFileIcons w w (sameInputs_refl w))
    as (w' & Hrun' & _).
  rewrite Hrun in Hrun'. injection Hrun' as -> _.
  unfold iconsInUse. intros [[Hcontent|Hconfig]%elem_of_union|Hcustom]%elem_of_union.
  - do 2 right.
    apply elem_of_union_map in Hcontent as (content_ & _ & Hclass).
    unfold contentIcons in Hclass.
    apply elem_of_union in Hclass as [Hblock|Htree].
    + apply elem_of_union_map in Hblock as (m & _ & Hclass).
      unfold blockIcons in Hclass.
      destruct (decide _); [by apply elem_of_empty in Hclass|].
      apply elem_of_addIcon in Hclass as [Hicon _]. by eapply iconOf_known.
    + apply elem_of_union_map in Htree as (tree & _ & Hclass).
      unfold treeIcons in Hclass.
      destruct (negb _); [by apply elem_of_empty in Hclass|].
      apply elem_of_union_map in Hclass as (i & _ & Hclass).
      unfold lineIcons in Hclass.
      destruct (parseLines tree !! i) as [line|];
        [|by apply elem_of_empty in Hclass].
      destruct (skipped line); [by apply elem_of_empty in Hclass|].
      destruct (isDirectory _ _ _).
      * rewrite <- (union_empty_l_L (addIcon _ ∅)), addIcon_union in Hclass.
        apply elem_of_union in Hclass as [Hclass|Hclass];
          apply elem_of_addIcon in Hclass as [Hicon _];
          by eapply folderIconOf_known.
      * apply elem_of_addIcon in Hclass as [Hicon _]. by eapply iconOf_known.
  - right. left.
    apply elem_of_union_map in Hconfig as (cfg & Hcfg & Hclass).
    unfold configIcons in Hclass.
    destruct (configFiles (disk w) !! cfg) as [source|] eqn:Hsource;
      [|by apply elem_of_empty in Hclass].
    apply elem_of_list_to_set in Hclass. eauto.
  - left. destruct customFileIcons as [icons|];
      [|by apply elem_of_empty in Hcustom].
    apply elem_of_list_to_set in Hcustom.
    change (class ∈ snd <$> map_to_list icons) in Hcustom.
    apply list_elem_of_fmap in Hcustom as ([key value] & -> & Hin).
    apply elem_of_map_to_list in Hin. eauto.
Qed.

Lemma collectIcons_lists_only_witness :
  exists usedIcons w0,
    collectIcons None siteWorld = (Returned usedIcons, w0)
    /\ (forall class, class ∈ usedIcons ->
          class = "i-ph:rocket"
          \/ (class <> "" /\ knownClass siteWorld class)).
Proof.
  destruct (Steady_collectIcons None siteWorld)
    as (usedIcons & w0 & Hrun & _ & _).
  exists usedIcons, w0. split; [exact Hrun|]. intros class Hclass.
  destruct (collectIcons_lists_only None siteWorld w0 usedIcons class
              siteWorld_ownKeys Hrun Hclass)
    as [(icons & key & Hnone & _)|[(cfg & source & Hcfg & Hsource & Hmatch)|Hknown]].
  - discriminate Hnone.
  - left. unfold astroConfigs in Hcfg.
    repeat (apply elem_of_cons in Hcfg as [->|Hcfg];
            [vm_compute in Hsource; try discriminate Hsource|]).
    + injection Hsource as <-. vm_compute in Hmatch.
      by apply list_elem_of_singleton in Hmatch.
    + by apply elem_of_nil in Hcfg.
  - by right.
Defined.

(** ** Every well-formed tree is found *)

Lemma substring_app p s : Js.substring (String.length p) (p +:+ s) = s.
Proof.
  induction p as [|c p IH]; [by rewrite string_app_nil_l, substring_0|].
  rewrite string_app_cons. simpl String.length. by rewrite substring_S.
Qed.

Lemma prefix_cons a p b s :
  String.prefix (String a p) (String b s)
  = if ascii_dec a b then String.prefix p s else false.
Proof. reflexivity. Qed.

Lemma occurs_unfold s t :
  occurs s t
  = String.prefix s t
    || match t with
       | EmptyString => false
       | String _ r => occurs s r
       end.
Proof. by destruct t. Qed.

Lemma occurs_spec s t : occursIn s t <-> occurs s t = true.
Proof.
  split.
  - intros (before & after & ->).
    induction before as [|c before IH].
    + by rewrite string_app_nil_l, occurs_unfold, prefix_app.
    + rewrite string_app_cons, occurs_unfold, IH. apply orb_true_r.
  - induction t as [|c t IH]; simpl.
    + rewrite orb_false_r. intros Hs. exists "", "".
      destruct s; [done|discriminate Hs].
    + intros [Hs|Ht]%orb_true_iff.
      * apply (startsWith_split s (String c t)) in Hs. rewrite Hs.
        apply occursIn_prefix.
      * by apply occursIn_cons, IH.
Qed.

(** A tag that starts with [<] and has no other [<] does not overlap an
    occurrence of itself. *)
Lemma tag_no_overlap tag p rest :
  Js.includes "<" tag = false -> p <> "" ->
  Js.startsWith (String "<" tag) (p +:+ String "<" tag +:+ rest) = true ->
  occursIn (String "<" tag) p.
Proof.
  intros Htag Hp. destruct p as [|x p]; [done|].
  unfold Js.startsWith. rewrite !string_app_cons, prefix_cons.
  destruct (ascii_dec "<" x) as [<-|]; [|done].
  rewrite prefix_separator by done. intros Hpre.
  assert (Js.startsWith (String "<" tag) (String "<" p) = true) as Hs.
  { unfold Js.startsWith. rewrite prefix_cons.
    by destruct (ascii_dec "<" "<"). }
  apply startsWith_split in Hs. rewrite Hs. apply occursIn_prefix.
Qed.

Lemma untilClose_found body post :
  ~ occursIn "</FileTree>" body ->
  Regex.untilClose (body +:+ "</FileTree>" +:+ post) = Some (body, post).
Proof.
  induction body as [|c body IH]; intros Hno.
  - rewrite string_app_nil_l.
    destruct post as [|d post].
    + vm_compute. reflexivity.
    + change (Regex.untilClose ("</FileTree>" +:+ String d post))
        with (if Js.startsWith "</FileTree>" ("</FileTree>" +:+ String d post)
              then Some (EmptyString,
                         Js.substring (String.length "</FileTree>")
                           ("</FileTree>" +:+ String d post))
              else match Regex.untilClose ("/FileTree>" +:+ String d post) with
                   | Some (body, rest) => Some (String "<" body, rest)
                   | None => None
                   end).
      unfold Js.startsWith. by rewrite prefix_app, substring_app.
  - rewrite string_app_cons.
    change (Regex.untilClose (String c (body +:+ "</FileTree>" +:+ post)))
      with (if Js.startsWith "</FileTree>"
                 (String c (body +:+ "</FileTree>" +:+ post))
            then Some (EmptyString,
                       Js.substring 11 (String c (body +:+ "</FileTree>" +:+ post)))
            else match Regex.untilClose (body +:+ "</FileTree>" +:+ post) with
                 | Some (body, rest) => Some (String c body, rest)
                 | None => None
                 end).
    destruct (Js.startsWith _ _) eqn:Hs.
    + destruct Hno. rewrite <- string_app_cons in Hs.
      by apply (tag_no_overlap "/FileTree>" (String c body) post).
    + rewrite IH; [done|]. intros Hocc. apply Hno. by apply occursIn_cons.
Qed.

Lemma fileTreesFrom_skip fuel pre s :
  ~ occursIn "<FileTree>" pre ->
  Regex.fileTreesFrom (String.length pre + fuel) (pre +:+ "<FileTree>" +:+ s)
  = Regex.fileTreesFrom fuel ("<FileTree>" +:+ s).
Proof.
  induction pre as [|c pre IH]; intros Hno; [done|].
  rewrite string_app_cons. simpl String.length. simpl Nat.add.
  change (Regex.fileTreesFrom (S (String.length pre + fuel))
            (String c (pre +:+ "<FileTree>" +:+ s)))
    with (if Js.startsWith "<FileTree>" (String c (pre +:+ "<FileTree>" +:+ s))
          then match Regex.untilClose
                       (Js.substring 10 (String c (pre +:+ "<FileTree>" +:+ s))) with
               | Some (body, rest) =>
                   body :: Regex.fileTreesFrom (String.length pre + fuel) rest
               | None => Regex.fileTreesFrom (String.length pre + fuel)
                           (pre +:+ "<FileTree>" +:+ s)
               end
          else Regex.fileTreesFrom (String.length pre + fuel)
                 (pre +:+ "<FileTree>" +:+ s)).
  destruct (Js.startsWith _ _) eqn:Hs.
  - destruct Hno. rewrite <- string_app_cons in Hs.
    by apply (tag_no_overlap "FileTree>" (String c pre) s).
  - apply IH. intros Hocc. apply Hno. by apply occursIn_cons.
Qed.

(** X20.  [fileTreeRegex] (line 8) on a well-formed file.  When a content
    file reads: some text without an opening tag, an opening tag, a body
    without a closing tag, a closing tag, and the rest, the scanner gets
    that body first and then the bodies of the rest.  So the trees of a
    file are scanned one by one, each once, in the order of the file. *)
Theorem fileTreeRegex_complete (pre body post : string) :
  ~ occursIn "<FileTree>" pre ->
  ~ occursIn "</FileTree>" body ->
  Regex.fileTreeRegex
    (pre +:+ "<FileTree>" +:+ body +:+ "</FileTree>" +:+ post)
  = body :: Regex.fileTreeRegex post.
Proof.
  intros Hpre Hbody. unfold Regex.fileTreeRegex.
  rewrite !string_length_app.
  rewrite fileTreesFrom_skip by done.
  change (String.length "<FileTree>") with 10.
  change (String.length "</FileTree>") with 11.
  replace (10 + (String.length body + (11 + String.length post)))
    with (S (9 + (String.length body + (11 + String.length post)))) by lia.
  change ("<FileTree>" +:+ body +:+ "</FileTree>" +:+ post)
    with (String "<" ("FileTree>" +:+ body +:+ "</FileTree>" +:+ post)).
  change (Regex.fileTreesFrom (S ?f) (String "<" ?r))
    with (if Js.startsWith "<FileTree>" (String "<" r)
          then match Regex.untilClose
                       (Js.substring (String.length "<FileTree>") (String "<" r)) with
               | Some (body, rest) => body :: Regex.fileTreesFrom f rest
               | None => Regex.fileTreesFrom f r
               end
          else Regex.fileTreesFrom f r).
  change (String "<" ("FileTree>" +:+ body +:+ "</FileTree>" +:+ post))
    with ("<FileTree>" +:+ body +:+ "</FileTree>" +:+ post).
  unfold Js.startsWith at 1. rewrite prefix_app, substring_app.
  rewrite untilClose_found by done. f_equal.
  apply fileTreesFrom_fuel; lia.
Qed.

Lemma fileTreeRegex_complete_witness :
  Regex.fileTreeRegex "Intro <b>text</b>
<FileTree>
- a.ts
</FileTree>
More.
<FileTree>
- b/
</FileTree>"
  = ["
- a.ts
"; "
- b/
"].
Proof.
  refine (eq_trans (fileTreeRegex_complete "Intro <b>text</b>
" "
- a.ts
" "
More.
<FileTree>
- b/
</FileTree>" _ _) _).
  - intros H%occurs_spec. vm_compute in H. discriminate H.
  - intros H%occurs_spec. vm_compute in H. discriminate H.
  - reflexivity.
Defined.

(** ** The folder name as the resolver reads it *)

Lemma isSpace_lowerChar c : Js.isSpace (Js.lowerChar c) = Js.isSpace c.
Proof. by destruct c as [[] [] [] [] [] [] [] []]. Qed.

Lemma isSeparator_lowerChar c :
  Js.isSeparator (Js.lowerChar c) = Js.isSeparator c.
Proof. by destruct c as [[] [] [] [] [] [] [] []]. Qed.

Lemma isSeparator_not_space c : Js.isSeparator c = true -> Js.isSpace c = false.
Proof. by destruct c as [[] [] [] [] [] [] [] []]. Qed.

Lemma toLowerCase_app a b :
  Js.toLowerCase (a +:+ b) = Js.toLowerCase a +:+ Js.toLowerCase b.
Proof.
  induction a as [|c a IH]; [done|].
  rewrite string_app_cons. simpl. by rewrite IH, string_app_cons.
Qed.

Lemma toLowerCase_rev s :
  Js.toLowerCase (String.rev s) = String.rev (Js.toLowerCase s).
Proof.
  induction s as [|c s IH]; [done|]. simpl.
  by rewrite !string_rev_cons, toLowerCase_app, IH.
Qed.

Lemma toLowerCase_trimStart s :
  Js.toLowerCase (Js.trimStart s) = Js.trimStart (Js.toLowerCase s).
Proof.
  induction s as [|c s IH]; [done|]. simpl. rewrite isSpace_lowerChar.
  by destruct (Js.isSpace c).
Qed.

Lemma toLowerCase_dropSeparators s :
  Js.toLowerCase (Js.dropSeparators s) = Js.dropSeparators (Js.toLowerCase s).
Proof.
  induction s as [|c s IH]; [done|]. simpl. rewrite isSeparator_lowerChar.
  by destruct (Js.isSeparator c).
Qed.

Lemma toLowerCase_normalized s :
  Js.toLowerCase (Js.stripTrailingSeparators (Js.trim s))
  = Js.stripTrailingSeparators (Js.trim (Js.toLowerCase s)).
Proof.
  unfold Js.stripTrailingSeparators, Js.trim, Js.trimEnd.
  by rewrite !string_rev_rev, toLowerCase_rev, toLowerCase_dropSeparators,
    toLowerCase_trimStart, toLowerCase_rev, toLowerCase_trimStart.
Qed.

Lemma allOf_app p a b : allOf p (a +:+ b) = allOf p a && allOf p b.
Proof.
  induction a as [|c a IH]; [done|]. rewrite string_app_cons. simpl.
  by rewrite IH, andb_assoc.
Qed.

Lemma allOf_rev p s : allOf p (String.rev s) = allOf p s.
Proof.
  induction s as [|c s IH]; [done|].
  rewrite string_rev_cons, allOf_app, IH. simpl.
  by rewrite andb_true_r, andb_comm.
Qed.

Lemma dropSeparators_app a b :
  allOf Js.isSeparator a = true ->
  Js.dropSeparators (a +:+ b) = Js.dropSeparators b.
Proof.
  induction a as [|c a IH]; [done|]. rewrite string_app_cons. simpl.
  intros [-> Ha]%andb_true_iff. by apply IH.
Qed.

Lemma string_last s :
  s <> "" -> exists front c, s = front +:+ String c "".
Proof.
  intros Hs. destruct (String.rev s) as [|c r] eqn:Hrev.
  - apply (f_equal String.rev) in Hrev. by rewrite string_rev_rev in Hrev.
  - exists (String.rev r), c.
    apply (f_equal String.rev) in Hrev.
    by rewrite string_rev_rev, string_rev_cons in Hrev.
Qed.

Lemma normalized_separators f seps :
  Js.trim f = f -> allOf Js.isSeparator seps = true ->
  Js.stripTrailingSeparators (Js.trim (f +:+ seps))
  = Js.stripTrailingSeparators (Js.trim f).
Proof.
  intros Htrim Hseps. rewrite Htrim.
  destruct seps as [|d seps]; [by rewrite string_app_nil_r, Htrim|].
  assert (Js.trim (f +:+ String d seps) = f +:+ String d seps) as ->.
  { destruct (string_last (String d seps)) as (front & c & Hlast); [done|].
    assert (Js.isSpace c = false) as Hc.
    { apply isSeparator_not_space.
      rewrite Hlast, allOf_app in Hseps. simpl in Hseps.
      apply andb_true_iff in Hseps as [_ Hseps].
      by rewrite andb_true_r in Hseps. }
    unfold Js.trim.
    assert (Js.trimStart (f +:+ String d seps) = f +:+ String d seps) as ->.
    { pose proof (trim_head f) as Hhead. rewrite Htrim in Hhead.
      destruct f as [|x f].
      - rewrite string_app_nil_l. apply trimStart_id, isSeparator_not_space.
        simpl in Hseps. by apply andb_true_iff in Hseps as [? _].
      - rewrite string_app_cons. by apply trimStart_id. }
    rewrite Hlast, <- string_app_assoc. by apply trimEnd_id. }
  unfold Js.stripTrailingSeparators.
  rewrite string_rev_append, dropSeparators_app; [done|].
  by rewrite allOf_rev.
Qed.

Lemma resolveFolderIcon_reads w f g isOpen :
  Js.toLowerCase (Js.stripTrailingSeparators (Js.trim f))
  = Js.toLowerCase (Js.stripTrailingSeparators (Js.trim g)) ->
  fst (resolveFolderIcon f isOpen w) = fst (resolveFolderIcon g isOpen w).
Proof.
  intros H. rewrite !resolveFolderIcon_result. unfold folderKey.
  by rewrite H.
Qed.

(** X21.  The folder name (lines 306 to 309).  [resolveFolderIcon] looks
    a folder up under its name trimmed, without trailing separators, in
    lower case.  So two names that differ only in case get the same icon,
    and a name without white space around it gets the same icon with any
    run of slashes and backslashes after it: [src], [SRC] and [src/]
    resolve alike, open as well as closed, in every world. *)
Theorem resolveFolderIcon_ignores_case_and_separators
    (w : World) (f g seps : string) (isOpen : bool) :
  (Js.toLowerCase f = Js.toLowerCase g ->
   fst (resolveFolderIcon f isOpen w) = fst (resolveFolderIcon g isOpen w))
  /\ (Js.trim f = f -> allOf Js.isSeparator seps = true ->
      fst (resolveFolderIcon (f +:+ seps) isOpen w)
      = fst (resolveFolderIcon f isOpen w)).
Proof.
  split.
  - intros Hcase. apply resolveFolderIcon_reads.
    by rewrite !toLowerCase_normalized, Hcase.
  - intros Htrim Hseps. apply resolveFolderIcon_reads.
    by rewrite normalized_separators.
Qed.

Lemma resolveFolderIcon_ignores_case_and_separators_witness :
  fst (resolveFolderIcon "SRC" true (world None (Some sampleData)))
  = fst (resolveFolderIcon "src" true (world None (Some sampleData)))
  /\ fst (resolveFolderIcon "src/" true (world None (Some sampleData)))
     = fst (resolveFolderIcon "src" true (world None (Some sampleData))).
Proof.
  split.
  - apply (proj1 (resolveFolderIcon_ignores_case_and_separators
                    (world None (Some sampleData)) "SRC" "src" "" true)).
    reflexivity.
  - apply (proj2 (resolveFolderIcon_ignores_case_and_separators
                    (world None (Some sampleData)) "src" "src" "/" true));
      reflexivity.
Defined.

(** ** A fence with a title is found *)

Lemma span_app p a b :
  allOf p a = true ->
  match b with String c _ => p c = false | EmptyString => True end ->
  Regex.span p (a +:+ b) = (a, b).
Proof.
  intros Ha Hb. induction a as [|c a IH].
  - rewrite string_app_nil_l. destruct b as [|d b]; [done|]. simpl.
    by rewrite Hb.
  - rewrite string_app_cons. simpl in *.
    apply andb_true_iff in Ha as [-> Ha]. by rewrite IH.
Qed.

Lemma isSpace_not_word c : Js.isSpace c = true -> Regex.isWord c = false.
Proof. by destruct c as [[] [] [] [] [] [] [] []]. Qed.

Lemma langAt_found c l space r :
  Regex.isLetter c = true -> allOf Regex.isWord l = true ->
  Js.isSpace space = true ->
  Regex.langAt (String c l +:+ String space r)
  = (Some (String c l), String space r).
Proof.
  intros Hc Hl Hspace. unfold Regex.langAt.
  rewrite string_app_cons, Hc, <- string_app_cons.
  rewrite span_app; [done| |by apply isSpace_not_word].
  simpl. rewrite Hl. unfold Regex.isWord. by rewrite Hc.
Qed.

Lemma lazyTitle_found t post :
  t <> "" -> Js.includes Regex.QUOTE t = false ->
  Regex.lazyTitle ("title=" +:+ quoted t +:+ post) = Some (t, post).
Proof.
  intros Hne Hquote.
  assert ("title=" +:+ quoted t +:+ post
          = ("title=" +:+ String Regex.QUOTE "")
            +:+ (t +:+ String Regex.QUOTE post)) as Hshape.
  { unfold quoted.
    by rewrite !string_app_cons, !string_app_nil_l, !string_app_assoc. }
  assert (Regex.lazyTitle ("title=" +:+ quoted t +:+ post)
          = match
              (if Js.startsWith ("title=" +:+ String Regex.QUOTE "")
                    ("title=" +:+ quoted t +:+ post) then
                 match Regex.span (fun c => negb (Ascii.eqb c Regex.QUOTE))
                         (Js.substring
                            (String.length ("title=" +:+ String Regex.QUOTE ""))
                            ("title=" +:+ quoted t +:+ post)) with
                 | (String c t, String _ rest) => Some (String c t, rest)
                 | _ => None
                 end
               else None)
            with
            | Some found => Some found
            | None =>
                if Ascii.eqb "t" Regex.LF then None
                else Regex.lazyTitle ("itle=" +:+ quoted t +:+ post)
            end) as -> by reflexivity.
  rewrite Hshape. unfold Js.startsWith. rewrite prefix_app, substring_app.
  rewrite span_app.
  - by destruct t.
  - clear Hshape. induction t as [|c t IH]; [done|]. simpl in *.
    apply orb_false_iff in Hquote as [-> Hquote]. simpl.
    destruct t; [done|]. by apply IH.
  - done.
Qed.

Lemma endsWith_tail x c s :
  s <> "" -> Js.endsWith (String x "") (String c s) = Js.endsWith (String x "") s.
Proof.
  intros Hs. unfold Js.endsWith. rewrite (string_rev_cons c s).
  change (String.rev (String x "")) with (String x "").
  destruct (String.rev s) as [|y r] eqn:Hrev.
  - apply (f_equal String.rev) in Hrev. by rewrite string_rev_rev in Hrev.
  - rewrite string_app_cons, !prefix_cons.
    destruct (ascii_dec x y); [|done].
    destruct r as [|z r]; [done|]. by rewrite string_app_cons.
Qed.

Lemma codeBlocksFrom_skip fuel pre s :
  ~ occursIn "```" pre -> Js.endsWith "`" pre = false ->
  Regex.codeBlocksFrom (String.length pre + fuel) (pre +:+ "```" +:+ s)
  = Regex.codeBlocksFrom fuel ("```" +:+ s).
Proof.
  induction pre as [|c pre IH]; intros Hno Hend; [done|].
  rewrite string_app_cons. simpl String.length. simpl Nat.add.
  change (Regex.codeBlocksFrom (S (String.length pre + fuel))
            (String c (pre +:+ "```" +:+ s)))
    with (if Js.startsWith "```" (String c (pre +:+ "```" +:+ s))
          then let (m, rest) :=
                 Regex.codeBlockAt
                   (Js.substring 3 (String c (pre +:+ "```" +:+ s))) in
               m :: Regex.codeBlocksFrom (String.length pre + fuel) rest
          else Regex.codeBlocksFrom (String.length pre + fuel)
                 (pre +:+ "```" +:+ s)).
  assert (Js.startsWith "```" (String c (pre +:+ "```" +:+ s)) = false) as ->.
  { destruct (Js.startsWith _ _) eqn:Hs; [|done]. exfalso.
    unfold Js.startsWith in Hs. rewrite prefix_cons in Hs.
    destruct (ascii_dec "`" c) as [<-|]; [|done].
    destruct pre as [|d [|e pre]].
    - by vm_compute in Hend.
    - rewrite string_app_cons, prefix_cons in Hs.
      destruct (ascii_dec "`" d) as [<-|]; [|done]. by vm_compute in Hend.
    - rewrite !string_app_cons, !prefix_cons in Hs.
      destruct (ascii_dec "`" d) as [<-|]; [|done].
      destruct (ascii_dec "`" e) as [<-|]; [|done].
      apply Hno. by exists "", pre. }
  apply IH.
  - intros Hocc. apply Hno. by apply occursIn_cons.
  - destruct pre as [|d pre]; [done|]. by rewrite endsWith_tail in Hend.
Qed.

(** X22.  [codeBlockRegex] (line 7) on a fence with a title.  When a
    content file reads: some text without three backticks in a row that
    does not end with a backtick, then three backticks, a language (a
    letter, then letters, digits, underscores), one white-space character,
    [title=] and a non-empty title without double quote in double quotes,
    and the rest, the scanner gets this language with this title first,
    and then the matches of the rest. *)
Theorem codeBlockRegex_titled_fence
    (pre : string) (c : ascii) (l : string) (space : ascii) (t post : string) :
  ~ occursIn "```" pre -> Js.endsWith "`" pre = false ->
  Regex.isLetter c = true -> allOf Regex.isWord l = true ->
  Js.isSpace space = true ->
  t <> "" -> Js.includes Regex.QUOTE t = false ->
  Regex.codeBlockRegex
    (pre +:+ "```" +:+ String c l
     +:+ String space ("title=" +:+ quoted t +:+ post))
  = {| Regex.lang := Some (String c l); Regex.title := Some t |}
    :: Regex.codeBlockRegex post.
Proof.
  intros Hpre Hend Hc Hl Hspace Hne Hquote. unfold Regex.codeBlockRegex.
  rewrite string_length_app, codeBlocksFrom_skip by done.
  set (s := String c l +:+ String space ("title=" +:+ quoted t +:+ post)).
  rewrite string_length_app. change (String.length "```") with 3.
  change (3 + String.length s) with (S (2 + String.length s)).
  change ("```" +:+ s) with (String "`" ("``" +:+ s)).
  change (Regex.codeBlocksFrom (S ?f) (String "`" ?r))
    with (if Js.startsWith "```" (String "`" r)
          then let (m, rest) :=
                 Regex.codeBlockAt
                   (Js.substring (String.length "```") (String "`" r)) in
               m :: Regex.codeBlocksFrom f rest
          else Regex.codeBlocksFrom f r).
  change (String "`" ("``" +:+ s)) with ("```" +:+ s).
  unfold Js.startsWith at 1. rewrite prefix_app, substring_app.
  unfold Regex.codeBlockAt, s. rewrite langAt_found by done.
  rewrite Hspace, lazyTitle_found by done. f_equal.
  apply codeBlocksFrom_fuel; [|done].
  rewrite !string_length_app. simpl. rewrite !string_length_app. lia.
Qed.

Lemma codeBlockRegex_titled_fence_witness :
  Regex.codeBlockRegex
    ("Use `npm`:
" +:+ "```" +:+ "ts" +:+ String " " ("title=" +:+ quoted "src/index.ts" +:+ "
export {}
"))
  = [{| Regex.lang := Some "ts"; Regex.title := Some "src/index.ts" |}].
Proof.
  refine (eq_trans (codeBlockRegex_titled_fence "Use `npm`:
" "t" "s" " " "src/index.ts" "
export {}
" _ _ _ _ _ _ _) _); try reflexivity; try discriminate.
  intros H%occurs_spec. vm_compute in H. discriminate H.
Defined.

(** ** A build without network *)

Lemma union_map_empty {A} (f : A -> gset string) (items : list A) :
  (forall x, x ∈ items -> f x = ∅) -> ⋃ (map f items) = ∅.
Proof.
  induction items as [|x rest IH]; intros Hf; [done|]. simpl.
  rewrite (Hf x) by apply list_elem_of_here.
  rewrite IH; [by rewrite union_empty_l_L|].
  intros y Hy. by apply Hf, list_elem_of_further.
Qed.

Lemma iconsInUse_offline w :
  availableData w = None -> customIconsOf w = None ->
  (forall cfg source,
     cfg ∈ astroConfigs -> configFiles (disk w) !! cfg = Some source ->
     Regex.iconClassRegex source = []) ->
  iconsInUse None w = ∅.
Proof.
  intros Hdata Hcustom Hconfig.
  assert (forall f l, iconOf w f l = None) as Hicon.
  { intros f l. unfold iconOf. rewrite resolveIcon_result, Hcustom, Hdata.
    by destruct f. }
  assert (forall n o, folderIconOf w n o = None) as Hfolder.
  { intros n o. unfold folderIconOf.
    by rewrite resolveFolderIcon_result, Hcustom, Hdata. }
  unfold iconsInUse. rewrite !union_empty_r_L.
  rewrite (union_map_empty (contentIcons w)), (union_map_empty (configIcons w)).
  - by rewrite union_empty_l_L.
  - intros cfg Hcfg. unfold configIcons.
    destruct (configFiles (disk w) !! cfg) as [source|] eqn:Hsource; [|done].
    by rewrite (Hconfig cfg source).
  - intros content_ _. unfold contentIcons.
    rewrite (union_map_empty (blockIcons w)), (union_map_empty (treeIcons w)).
    + by rewrite union_empty_l_L.
    + intros tree _. unfold treeIcons. destruct (negb _); [done|].
      apply union_map_empty. intros i _. unfold lineIcons.
      destruct (_ !! i) as [line|]; [|done]. destruct (skipped line); [done|].
      destruct (isDirectory _ _ _); by rewrite ?Hfolder, ?Hicon.
    + intros m _. unfold blockIcons. destruct (decide _); [done|].
      by rewrite Hicon.
Qed.

(** X23.  A build without network (lines 253 to 287, 355 to 357, 117 to
    139).  With nothing in memory, the request for the version marker
    failing, no override registered or passed, and no class in a
    configuration file, the run collects nothing, whatever the content
    files hold and whatever the disk cache holds.  If there is no safelist
    file, it returns [false] and creates none.  If there is one that is not
    the empty list, it is replaced by the empty list and the run returns
    [true]: the classes of an earlier build are dropped. *)
Theorem generateSafelist_offline (w : World) :
  cachedData w = None ->
  text (network w) VERSION_URL = None ->
  customIconsOf w = None ->
  (forall cfg source,
     cfg ∈ astroConfigs -> configFiles (disk w) !! cfg = Some source ->
     Regex.iconClassRegex source = []) ->
  fst (collectIcons None w) = Returned ∅
  /\ (safelistFile (disk w) = None ->
      fst (generateSafelist None w) = Returned false
      /\ safelistFile (disk (snd (generateSafelist None w))) = None)
  /\ (forall old,
        safelistFile (disk w) = Some old -> old <> "[]" ->
        fst (generateSafelist None w) = Returned true
        /\ safelistFile (disk (snd (generateSafelist None w))) = Some "[]").
Proof.
  intros Hmem Hversion Hcustom Hconfig.
  assert (availableData w = None) as Hdata.
  { unfold availableData. by rewrite Hmem, Hversion. }
  destruct (Yields_collectIcons None w w (sameInputs_refl w))
    as (w0 & Hrun & _ & _ & Hfile & _).
  rewrite (iconsInUse_offline w Hdata Hcustom Hconfig) in Hrun.
  split; [by rewrite Hrun|].
  rewrite (generateSafelist_run _ _ _ _ Hrun). split.
  - intros Hnone. rewrite persist_nothing by congruence. simpl.
    split; [done|congruence].
  - intros old Hold Hne.
    destruct (persist_written ∅ w0) as (w' & -> & Hjson & _).
    + rewrite Hfile, Hold. intros [= ->]. by apply Hne.
    + by rewrite Hfile, Hold.
    + done.
Qed.

Lemma generateSafelist_offline_witness :
  fst (generateSafelist None offlineSite) = Returned true
  /\ safelistFile (disk (snd (generateSafelist None offlineSite))) = Some "[]".
Proof.
  destruct (generateSafelist_offline offlineSite) as (_ & _ & Hwipe).
  - reflexivity.
  - reflexivity.
  - reflexivity.
  - intros cfg source _ H. simpl in H. by rewrite lookup_empty in H.
  - apply (Hwipe (JSON.stringify ["i-material-icon-theme:typescript"])).
    + reflexivity.
    + discriminate.
Defined.

(** ** With the data in memory the scan stays local *)

Lemma Quiet_ret {A} (a : A) : Quiet (ret a).
Proof.
  intros w _. exists a, []. split; [|done].
  unfold ret. destruct w. simpl. by rewrite app_nil_r.
Qed.

Lemma Quiet_read {A} (f : World -> A) : Quiet (read f).
Proof.
  intros w _. exists (f w), []. split; [|done].
  unfold read. destruct w. unfold withTrace. simpl. by rewrite app_nil_r.
Qed.

Lemma Quiet_emit e : isLocal e = true -> Quiet (emit e).
Proof.
  intros He w _. exists tt, [e]. split; [done|]. simpl. by rewrite He.
Qed.

Lemma Quiet_bind {A B} (c : Async A) (k : A -> Async B) :
  Quiet c -> (forall a, Quiet (k a)) -> Quiet (bind c k).
Proof.
  intros Hc Hk w Hw. destruct (Hc w Hw) as (a & t & Hrun & Ht).
  destruct (Hk a (withTrace (trace w ++ t) w) Hw) as (b & t' & Hrun' & Ht').
  exists b, (t ++ t'). split.
  - unfold bind. rewrite Hrun, Hrun'. unfold withTrace. simpl.
    by rewrite <- app_assoc.
  - by rewrite forallb_app, Ht, Ht'.
Qed.

Lemma Quiet_PromiseAll {A B} (a : Async A) (b : Async B) :
  Quiet a -> Quiet b -> Quiet (PromiseAll a b).
Proof.
  intros Ha Hb w Hw. destruct (Ha w Hw) as (x & t & Hrun & Ht).
  destruct (Hb (withTrace (trace w ++ t) w) Hw) as (y & t' & Hrun' & Ht').
  exists (x, y), (t ++ t'). split.
  - unfold PromiseAll. rewrite Hrun, Hrun'. unfold withTrace. simpl.
    by rewrite <- app_assoc.
  - by rewrite forallb_app, Ht, Ht'.
Qed.

Lemma Quiet_forEach {A S} (step : A -> S -> Async S) (items : list A) :
  (forall x acc, Quiet (step x acc)) ->
  forall acc, Quiet (forEach step items acc).
Proof.
  intros Hstep. induction items as [|x rest IH]; intros acc; simpl.
  - apply Quiet_ret.
  - apply Quiet_bind; [apply Hstep|]. intros acc'. apply IH.
Qed.

Lemma Quiet_getMaterialIconsData : Quiet getMaterialIconsData.
Proof.
  intros w [data Hdata]. exists (Some data), []. split; [|done].
  unfold getMaterialIconsData, bind, read. simpl. rewrite Hdata.
  unfold ret. destruct w. unfold withTrace. simpl. by rewrite app_nil_r.
Qed.

Lemma Quiet_resolveIcon fileName language_ :
  Quiet (resolveIcon fileName language_).
Proof.
  unfold resolveIcon.
  apply Quiet_bind; [by apply Quiet_emit|]. intros _.
  apply Quiet_bind; [apply Quiet_read|]. intros customIcons.
  destruct (customIcon customIcons fileName); [apply Quiet_ret|].
  apply Quiet_bind; [apply Quiet_getMaterialIconsData|].
  intros [data|]; apply Quiet_ret.
Qed.

Lemma Quiet_resolveFolderIcon folderName isOpen :
  Quiet (resolveFolderIcon folderName isOpen).
Proof.
  unfold resolveFolderIcon.
  apply Quiet_bind; [by apply Quiet_emit|]. intros _.
  apply Quiet_bind; [apply Quiet_read|]. intros customIcons.
  match goal with |- Quiet (match ?x with _ => _ end) => destruct x end;
    [apply Quiet_ret|].
  apply Quiet_bind; [apply Quiet_getMaterialIconsData|].
  intros [data|]; [|apply Quiet_ret].
  match goal with |- Quiet (match ?x with _ => _ end) => destruct x end;
    apply Quiet_ret.
Qed.

Lemma Quiet_scanLine lines i usedIcons : Quiet (scanLine lines i usedIcons).
Proof.
  unfold scanLine. destruct (lines !! i) as [line|]; [|apply Quiet_ret].
  destruct (skipped line); [apply Quiet_ret|].
  destruct (isDirectory _ _ _).
  - unfold scanDirectory. apply Quiet_bind.
    + apply Quiet_PromiseAll; apply Quiet_resolveFolderIcon.
    + intros [closedIcon openIcon]. apply Quiet_ret.
  - unfold scanFileEntry. apply Quiet_bind; [apply Quiet_resolveIcon|].
    intros icon. apply Quiet_ret.
Qed.

Lemma Quiet_scanContent content_ usedIcons :
  Quiet (scanContent content_ usedIcons).
Proof.
  unfold scanContent. apply Quiet_bind.
  - apply Quiet_forEach. intros m acc. unfold scanCodeBlock, getIconDetails.
    apply Quiet_bind.
    + destruct (decide _); [apply Quiet_ret|].
      apply Quiet_bind; [apply Quiet_resolveIcon|]. intros icon.
      apply Quiet_ret.
    + intros [details|]; apply Quiet_ret.
  - intros acc. apply Quiet_forEach. intros tree acc'. unfold scanFileTree.
    destruct (negb _); [apply Quiet_ret|].
    apply Quiet_forEach. intros i acc''. apply Quiet_scanLine.
Qed.

Lemma Quiet_scanConfig cfg usedIcons : Quiet (scanConfig cfg usedIcons).
Proof.
  intros w _. rewrite scanConfig_run. eexists _, []. split; [|done].
  f_equal. destruct w. unfold withTrace. simpl. by rewrite app_nil_r.
Qed.

(** X24.  With the icon data in memory the scan stays local (lines 249
    to 251 and 12 to 115).  Collecting the classes then makes no request,
    creates no directory and writes no file: it returns, and leaves the
    world as it was but for the record of the resolver calls it made and
    the warning about missing content files.  Only the safelist itself is
    written afterwards. *)
Theorem collectIcons_local_when_loaded
    (customFileIcons : option (gmap string string)) (w : World) :
  is_Some (cachedData w) ->
  exists usedIcons t,
    collectIcons customFileIcons w
    = (Returned usedIcons, withTrace (trace w ++ t) w)
    /\ forallb isLocal t = true.
Proof.
  revert w. change (Quiet (collectIcons customFileIcons)).
  unfold collectIcons.
  apply Quiet_bind; [apply Quiet_read|]. intros files.
  apply Quiet_bind.
  { destruct (decide _); [by apply Quiet_emit|apply Quiet_ret]. }
  intros _. apply Quiet_bind.
  { apply Quiet_forEach. intros c acc. apply Quiet_scanContent. }
  intros usedIcons. apply Quiet_bind.
  { apply Quiet_forEach. intros c acc. apply Quiet_scanConfig. }
  intros usedIcons'. apply Quiet_ret.
Qed.

Lemma collectIcons_local_when_loaded_witness :
  exists usedIcons t,
    collectIcons (Some mdOverride) siteWorld
    = (Returned usedIcons, withTrace (trace siteWorld ++ t) siteWorld)
    /\ forallb isLocal t = true.
Proof.
  apply (collectIcons_local_when_loaded (Some mdOverride) siteWorld).
  by exists sampleData.
Defined.

(** ** The build hook *)

(** X25.  The [astro:config:setup] hook (index.ts, lines 60 to 68).
    With [extractSafelist] off the hook does nothing at all: it registers
    no overrides either.  With [extractSafelist] on and an override map
    given, the hook returns, the map is the one the resolvers use
    afterwards, and the scan has been made with this map and no earlier
    one: the safelist file holds the serialised sorted list of the classes
    in use under this map (or there is no file and no class), among them
    every value of the map. *)
Theorem astroConfigSetup_registers_then_scans
    (info : string -> Async unit) (parsedOptions : StarlightIconsOptions.t)
    (w : World) :
  onlyLogs info ->
  (StarlightIconsOptions.extractSafelist parsedOptions = false ->
   astroConfigSetup info parsedOptions w = (Returned tt, w))
  /\ (forall icons,
        StarlightIconsOptions.extractSafelist parsedOptions = true ->
        StarlightIconsOptions.customFileIcons parsedOptions = Some icons ->
        let w' := snd (astroConfigSetup info parsedOptions w) in
        let registered := withCustom (Some icons) (Some icons) w in
        let usedIcons := iconsInUse (Some icons) registered in
        fst (astroConfigSetup info parsedOptions w) = Returned tt
        /\ fst (getCustomFileIcons w') = Returned (Some icons)
        /\ (safelistFile (disk w')
            = Some (JSON.stringify (sort (elements usedIcons)))
            \/ (usedIcons = ∅ /\ safelistFile (disk w') = None))
        /\ forall key value, icons !! key = Some value -> value ∈ usedIcons).
Proof.
  intros Hinfo. split.
  - intros Hoff. unfold astroConfigSetup. by rewrite Hoff.
  - intros icons Hon Hmap. cbv zeta.
    set (registered := withCustom (Some icons) (Some icons) w).
    set (usedIcons := iconsInUse (Some icons) registered).
    assert (exists w',
              astroConfigSetup info parsedOptions w = (Returned tt, w')
              /\ customIconsOf w' = Some icons
              /\ (safelistFile (disk w')
                  = Some (JSON.stringify (sort (elements usedIcons)))
                  \/ (usedIcons = ∅ /\ safelistFile (disk w') = None)))
      as (w' & -> & Hcustom & Hfile).
    { unfold astroConfigSetup. rewrite Hon, Hmap. cbn [negb].
      unfold bind at 1, setCustomFileIcons, update. cbn [fst snd].
      fold registered. unfold bind at 1.
      destruct (Hinfo "Generating icon safelist..." registered)
        as (t & -> & Ht).
      set (w1 := withTrace (trace registered ++ t) registered).
      destruct (Yields_collectIcons (Some icons) registered w1)
        as (w0 & Hrun & Hf).
      { by apply frame_sameInputs, frame_withTrace. }
      fold usedIcons in Hrun.
      unfold bind. rewrite (generateSafelist_run _ _ _ _ Hrun).
      assert (customIconsOf w0 = Some icons) as Hcustom.
      { destruct Hf as ((_ & <- & _) & _). done. }
      destruct (decide (safelistFile (disk w0)
                        = Some (JSON.stringify (sort (elements usedIcons)))))
        as [Hsame|Hdiff].
      { rewrite persist_unchanged by done. eexists.
        split; [reflexivity|]. split; [done|]. by left. }
      destruct (decide (safelistFile (disk w0) = None /\ usedIcons = ∅))
        as [[Hnone Hempty]|Hsome].
      { rewrite persist_nothing by done. eexists.
        split; [reflexivity|]. split; [done|]. by right. }
      destruct (persist_written usedIcons w0)
        as (w' & -> & Hjson & (_ & Hc & _) & _); [done|tauto|].
      eexists. split; [reflexivity|]. split; [congruence|]. by left. }
    simpl. split; [done|]. split; [|split; [done|]].
    + unfold getCustomFileIcons, read. simpl.
      change (Returned (customIconsOf w') = Returned (Some icons)).
      by rewrite Hcustom.
    + intros key value Hk. unfold usedIcons, iconsInUse.
      apply elem_of_union_r, elem_of_list_to_set.
      change (value ∈ snd <$> map_to_list icons).
      apply list_elem_of_fmap. exists (key, value).
      split; [done|]. by apply elem_of_map_to_list.
Qed.

Lemma silent_onlyLogs : onlyLogs (fun _ => ret tt).
Proof.
  intros message w. exists []. split; [|done].
  unfold ret. destruct w. unfold withTrace. simpl. by rewrite app_nil_r.
Qed.

Lemma astroConfigSetup_registers_then_scans_witness :
  let options := {| StarlightIconsOptions.sidebar := false;
                    StarlightIconsOptions.extractSafelist := true;
                    StarlightIconsOptions.codeblock := false;
                    StarlightIconsOptions.customFileIcons := Some mdOverride |} in
  let w' := snd (astroConfigSetup (fun _ => ret tt) options (world None None)) in
  fst (getCustomFileIcons w') = Returned (Some mdOverride)
  /\ "i-custom:markdown"
     ∈ iconsInUse (Some mdOverride)
         (withCustom (Some mdOverride) (Some mdOverride) (world None None)).
Proof.
  intros options w'.
  destruct (proj2 (astroConfigSetup_registers_then_scans
                     (fun _ => ret tt) options (world None None)
                     silent_onlyLogs)
              mdOverride eq_refl eq_refl)
    as (_ & Hcustom & _ & Hvalues).
  split; [exact Hcustom|]. by apply (Hvalues "md").
Defined.

(** ** The entry of a tree line *)

(** X26.  The entry of a line (lines 53 to 58).  In a line that reads
    [- ], a name without a space, a space, and any comment, the entry is
    the name, normalised: what follows the first space is ignored, so a
    name with a space in it is cut at the space.  With a second space
    right after the dash the entry is empty and the line is skipped. *)
Theorem entryNameOf_ignores_comment
    (indent : nat) (name comment : string) :
  Js.includes " " name = false ->
  entryNameOf {| indentation := indent;
                 content := "- " +:+ name +:+ " " +:+ comment |}
  = normalizeFileTreeEntry name
  /\ skipped {| indentation := indent;
                content := "- " +:+ " " +:+ comment |} = true.
Proof.
  intros Hname. unfold skipped, entryNameOf. simpl content.
  change 2 with (String.length "- "). rewrite !substring_app. split.
  - change (" " +:+ comment) with (String " " comment).
    rewrite split_app, (split_none _ name Hname). done.
  - change (" " +:+ comment) with ("" +:+ String " " comment).
    apply orb_true_iff. left. apply orb_true_iff. right.
    rewrite split_app. reflexivity.
Qed.

Lemma entryNameOf_ignores_comment_witness :
  entryNameOf {| indentation := 2;
                 content := "- **astro.config.mjs** the configuration" |}
  = normalizeFileTreeEntry "**astro.config.mjs**".
Proof.
  apply (proj1 (entryNameOf_ignores_comment 2 "**astro.config.mjs**"
                  "the configuration" eq_refl)).
Defined.
